(** * s3up: a shallow embedding of [s3.go]

    The first part follows [src/s3.go] from top to bottom: the Go library
    functions the program calls ([strings], [path/filepath]), the
    configuration and error values, the path filter [isUploadableFile],
    the enumerator [sourceFiles] (over a model of [filepath.Walk]), the
    single transfer [uploadFile], and the worker pool of [Upload], whose
    goroutines are interleaved by an explicit schedule.  The second part
    defines the vocabulary of the properties, the third states and proves
    them.  Go strings are byte sequences; they are modelled by [string]. *)

From Stdlib Require Import ZArith List String Ascii Bool Arith Lia.
From Equations Require Import Equations.

#[local] Set Warnings "-register-all".
#[local] Set Warnings "-automation".
Import ListNotations.

Open Scope string_scope.
Open Scope list_scope.

(* ================================================================== *)
(** ** Go's [strings] package, as far as the program uses it *)

Module GoStrings.

(** [strip prefix s] is [Some r] when [s = prefix ++ r]. *)
Fixpoint strip (prefix s : string) : option string :=
  match prefix with
  | EmptyString => Some s
  | String p prefix' =>
      match s with
      | EmptyString => None
      | String c s' => if Ascii.eqb p c then strip prefix' s' else None
      end
  end.

(** [strings.TrimPrefix(s, prefix)]: [s] without the leading [prefix],
    and [s] itself when it does not start with [prefix]. *)
Definition TrimPrefix (s prefix : string) : string :=
  match strip prefix s with
  | Some r => r
  | None => s
  end.

(** The slice expression [s[1:]].  Go panics on the empty string; the
    program only evaluates it behind the test [cpath == ""]. *)
Definition tail1 (s : string) : string :=
  match s with
  | EmptyString => EmptyString
  | String _ r => r
  end.

(** [strings.Join(elems, sep)]. *)
Fixpoint Join (elems : list string) (sep : string) : string :=
  match elems with
  | [] => ""
  | [e] => e
  | e :: rest => e ++ sep ++ Join rest sep
  end.

(** [strings.Split(s, sep)] for a one-byte separator: the fields
    between the separators, empty fields included. *)
Fixpoint Split (s : string) (sep : ascii) : list string :=
  match s with
  | EmptyString => [EmptyString]
  | String c r =>
      if Ascii.eqb c sep then EmptyString :: Split r sep
      else match Split r sep with
           | [] => [String c EmptyString]
           | field :: fields => String c field :: fields
           end
  end.

(** Does the byte [c] occur in [s]? *)
Fixpoint contains (s : string) (c : ascii) : bool :=
  match s with
  | EmptyString => false
  | String d r => Ascii.eqb d c || contains r c
  end.

End GoStrings.

(* ================================================================== *)
(** ** Go's [path/filepath] package on Unix *)

Module Filepath.

Definition Separator : ascii := "/"%char.

(** A path element that [Clean] drops: empty, or [.]. *)
Definition is_blank (elem : string) : bool :=
  String.eqb elem "" || String.eqb elem ".".

(** One round of the loop of [Clean], on the elements of the path
    instead of its bytes.  [out] is the output buffer as a stack of
    elements, last written first.  A [..] element removes the last
    written element when there is one to backtrack over; it is dropped at
    the root of a rooted path, and kept at the front of a relative one.
    The leading [..] elements of a relative path are the ones below Go's
    [dotdot] mark: they are recognised on the stack by their name, since
    no other [..] is ever written. *)
Definition clean_elem (rooted : bool) (out : list string) (elem : string)
  : list string :=
  if is_blank elem then out
  else if String.eqb elem ".." then
    match out with
    | top :: below =>
        if String.eqb top ".." then elem :: out else below
    | [] => if rooted then [] else [elem]
    end
  else elem :: out.

Definition is_rooted (path : string) : bool :=
  match path with
  | String c _ => Ascii.eqb c Separator
  | EmptyString => false
  end.

(** [filepath.Clean(path)]: the shortest path name equivalent to [path]
    by purely lexical processing. *)
Definition Clean (path : string) : string :=
  if String.eqb path "" then "."
  else
    let rooted := is_rooted path in
    let out := fold_left (clean_elem rooted) (GoStrings.Split path Separator) [] in
    let body := GoStrings.Join (rev out) "/" in
    if rooted then "/" ++ body
    else if String.eqb body "" then "." else body.

(** [filepath.Join(elem...)]: the elements from the first non-empty one
    on are joined with the separator and the result is cleaned; when all
    elements are empty the result is the empty string. *)
Fixpoint Join (elem : list string) : string :=
  match elem with
  | [] => ""
  | e :: rest =>
      if String.eqb e "" then Join rest
      else Clean (GoStrings.Join elem "/")
  end.

(** [filepath.Ext(path)]: the suffix beginning at the final dot in the
    final element of [path]; empty if there is no dot. *)
Fixpoint Ext (path : string) : string :=
  match path with
  | EmptyString => ""
  | String c r =>
      match Ext r with
      | EmptyString =>
          if Ascii.eqb c "."%char && negb (GoStrings.contains r Separator)
          then path else ""
      | e => e
      end
  end.

End Filepath.

(* ================================================================== *)
(** ** Values of the program *)

(** Go [error] values, by the distinctions the program makes: the type
    assertion [err.(awserr.Error)] in [Upload], and the sentinels that
    [filepath.Walk] compares with. *)
Inductive error : Type :=
| PathError (op path reason : string)   (* [*os.PathError], from package [os] *)
| AwsError (code message : string)      (* a value implementing [awserr.Error] *)
| SkipDir                               (* [filepath.SkipDir] *)
| SkipAll                               (* [filepath.SkipAll] *)
| OtherError (message : string).        (* any other error value *)

(** The type assertion [_, ok := err.(awserr.Error)]. *)
Definition is_awserr (err : error) : bool :=
  match err with
  | AwsError _ _ => true
  | _ => false
  end.

(** [err.Error()], as printed by the [%v] verb. *)
Definition Error (err : error) : string :=
  match err with
  | PathError op path reason => op ++ " " ++ path ++ ": " ++ reason
  | AwsError code message => code ++ ": " ++ message
  | SkipDir => "skip this directory"
  | SkipAll => "skip everything and stop the walk"
  | OtherError message => message
  end.

(** Modelled from the spec: the [Config] type is declared outside
    [s3.go]; these are the fields of [cfg.S3] that [s3.go] reads, named as
    it names them (section 6 of the specification lists the same
    configuration surface). *)
Record S3Config : Type := {
  Source : string;
  Bucket : string;
  Prefix : string;
  Region : string;
  ACL : string;
  CacheControl : string;
  Ignore : list string;
  AccessKey : string;
  SecretKey : string
}.

Record Config : Type := { S3 : S3Config }.

(** [type S3Upload struct].  The connection [Conn] is the external
    object-store client; its one operation is the [PutObject_Send] oracle
    of the environment below. *)
Record S3Upload : Type := {
  Config_ : Config;
  SourcePath : string
}.

(** [s3.PutObjectInput], with the fields [uploadFile] sets.  [Body] is the
    opened file, identified by the name it was opened under. *)
Record PutObjectInput : Type := {
  obj_Bucket : string;
  obj_Key : string;
  obj_ACL : string;
  obj_ContentType : string;
  obj_CacheControl : option string;
  obj_Body : string
}.

(* ================================================================== *)
(** ** The file system *)

(** A file-system object as [os.Lstat] and [readDirNames] show it.  The
    entries of a directory are listed in the order [readDirNames] returns
    them.  A directory whose listing fails (permission denied) carries the
    error of [readDirNames].  A symbolic link carries what it leads to.
    [Vanished] is a name on which the system call fails, with the reason
    it gives: as the entry of a directory, a name that the listing
    returned and that is gone when it is looked at (a path removed
    mid-walk); as the target of a link, a link that leads nowhere. *)
Inductive node : Type :=
| RegularFile
| Directory (listing : option error) (entries : list (string * node))
| Symlink (target : node)
| Vanished (reason : string).

(** [os.FileInfo], as far as the program looks at it. *)
Record FileInfo : Type := { IsDir : bool }.

Definition no_such_file (op name : string) : error :=
  PathError op name "no such file or directory".

(** The non-empty elements of a path name. *)
Definition elements (name : string) : list string :=
  filter (fun e => negb (String.eqb e "")) (GoStrings.Split name Filepath.Separator).

Fixpoint find_entry (name : string) (entries : list (string * node))
  : option node :=
  match entries with
  | [] => None
  | (n, child) :: rest =>
      if String.eqb n name then Some child else find_entry name rest
  end.

(** What a name stands for when the links are followed: a file or a
    directory, or the reason why there is nothing. *)
Fixpoint followed (n : node) : FileInfo + string :=
  match n with
  | RegularFile => inl {| IsDir := false |}
  | Directory _ _ => inl {| IsDir := true |}
  | Symlink target => followed target
  | Vanished reason => inr reason
  end.

(** The entries of the directory that a name stands for, the links
    followed, or the reason why it has none. *)
Fixpoint entries_of (n : node) : list (string * node) + string :=
  match n with
  | RegularFile => inr "not a directory"
  | Directory _ entries => inl entries
  | Symlink target => entries_of target
  | Vanished reason => inr reason
  end.

(** Path resolution from the root directory of the file system.  The
    links on the way are followed, the last element is not. *)
Fixpoint resolve (elems : list string) (fs : node) : option node :=
  match elems with
  | [] => Some fs
  | e :: rest =>
      match entries_of fs with
      | inl entries =>
          match find_entry e entries with
          | Some child => resolve rest child
          | None => None
          end
      | inr _ => None
      end
  end.

(** The reason why the resolution fails, when it does. *)
Fixpoint unresolved (elems : list string) (fs : node) : string :=
  match elems with
  | [] => ""
  | e :: rest =>
      match entries_of fs with
      | inl entries =>
          match find_entry e entries with
          | Some child => unresolved rest child
          | None => "no such file or directory"
          end
      | inr reason => reason
      end
  end.

(** [os.Lstat(name)]: the object itself. *)
Definition os_Lstat (fs : node) (name : string) : option FileInfo * option error :=
  match resolve (elements name) fs with
  | Some (Vanished reason) => (None, Some (PathError "lstat" name reason))
  | Some (Directory _ _) => (Some {| IsDir := true |}, None)
  | Some _ => (Some {| IsDir := false |}, None)
  | None => (None, Some (PathError "lstat" name (unresolved (elements name) fs)))
  end.

(** [os.Stat(name)]: the object that [name] leads to, the links
    followed.  Its error is a [*PathError] of its own, with the operation
    [stat] and the name it was called with. *)
Definition os_Stat (fs : node) (name : string) : option FileInfo * option error :=
  match resolve (elements name) fs with
  | Some n =>
      match followed n with
      | inl fi => (Some fi, None)
      | inr reason => (None, Some (PathError "stat" name reason))
      end
  | None => (None, Some (PathError "stat" name (unresolved (elements name) fs)))
  end.

(* ================================================================== *)
(** ** The external collaborators *)

(** What the program consumes from outside: the glob matcher
    [zglob.Match(pattern, name)], the MIME table, the file system, and the
    two calls that can fail during a transfer.  [os_Open name k] is the
    outcome of the [k]-th call (from 0) of [os.Open(name)]: [None] when the
    file is opened, or the reason of the failure, which [os.Open] reports
    as a [*PathError].  [PutObject_Send obj k] is the outcome of the [k]-th
    request sent for the key of [obj]; [None] is Go's [nil] error. *)
Record Env : Type := {
  zglob_Match : string -> string -> bool * option error;
  mime_TypeByExtension : string -> string;
  fs : node;
  os_Open : string -> nat -> option string;
  PutObject_Send : PutObjectInput -> nat -> option error
}.

(* ================================================================== *)
(** ** [isUploadableFile] *)

(** The loop [for _, pat := range s.Config.S3.Ignore] of
    [isUploadableFile]. *)
Fixpoint isUploadableFile_loop (env : Env) (pats : list string) (path : string)
  : bool * option error :=
  match pats with
  | [] => (true, None)
  | pat :: rest =>
      let '(matched, err) := zglob_Match env pat path in
      match err with
      | Some e => (false, Some e)
      | None =>
          if matched then (false, None)
          else isUploadableFile_loop env rest path
      end
  end.

Definition isUploadableFile (env : Env) (s : S3Upload) (path : string)
  : bool * option error :=
  isUploadableFile_loop env (Ignore (S3 (Config_ s))) path.

(* ================================================================== *)
(** ** [filepath.Walk] and [sourceFiles] *)

Section Walk.

(** The state the walk function closes over (for [sourceFiles], the
    slice [files]). *)
Variable A : Type.

(** [filepath.WalkFunc]: path, info ([None] is [nil]), error; the result
    is the returned error and the updated closure state. *)
Definition WalkFunc : Type :=
  string -> option FileInfo -> option error -> A -> option error * A.

Variable walkFn : WalkFunc.

Definition is_SkipDir (err : error) : bool :=
  match err with SkipDir => true | _ => false end.

Definition is_SkipAll (err : error) : bool :=
  match err with SkipAll => true | _ => false end.

Definition node_IsDir (n : node) : bool :=
  match n with Directory _ _ => true | _ => false end.

(** [filepath.walk(path, info, walkFn)] of Go's [path/filepath/path.go],
    by recursion on the object that [path] names.  It is called on
    objects whose [lstat] succeeded; the [Vanished] entries of a directory
    are handled in the loop over its names, as in Go.  A symbolic link is
    not a directory for [lstat]: the walk does not follow it. *)
Fixpoint walk (path : string) (n : node) (st : A) {struct n} : option error * A :=
  match n with
  | Directory listing entries =>
      (* names, err := readDirNames(path); err1 := walkFn(path, info, err) *)
      let '(err1, st1) := walkFn path (Some {| IsDir := true |}) listing st in
      match listing, err1 with
      | None, None =>
          (fix names (es : list (string * node)) (st : A) {struct es}
             : option error * A :=
             match es with
             | [] => (None, st)
             | (name, child) :: rest =>
                 let filename := Filepath.Join [path; name] in
                 match child with
                 | Vanished reason =>
                     (* fileInfo, err := lstat(filename) failed *)
                     let lerr := PathError "lstat" filename reason in
                     let '(err, st') := walkFn filename None (Some lerr) st in
                     match err with
                     | Some e => if is_SkipDir e then names rest st'
                                 else (Some e, st')
                     | None => names rest st'
                     end
                 | _ =>
                     let '(err, st') := walk filename child st in
                     match err with
                     | Some e =>
                         if negb (node_IsDir child) || negb (is_SkipDir e)
                         then (Some e, st')
                         else names rest st'
                     | None => names rest st'
                     end
                 end
             end) entries st1
      | _, _ => (err1, st1)
      end
  | _ =>
      (* if !info.IsDir() { return walkFn(path, info, nil) } *)
      walkFn path (Some {| IsDir := false |}) None st
  end.

(** [filepath.Walk(root, fn)] on the file system [fs]:
    [info, err := os.Lstat(root)], then [fn(root, nil, err)] or
    [walk(root, info, fn)]. *)
Definition Walk (fs : node) (root : string) (st : A) : option error * A :=
  let '(err, st') :=
    match os_Lstat fs root, resolve (elements root) fs with
    | (_, None), Some n => walk root n st
    | (_, lerr), _ => walkFn root None lerr st
    end in
  match err with
  | Some e => if is_SkipDir e || is_SkipAll e then (None, st') else (Some e, st')
  | None => (None, st')
  end.

End Walk.

Arguments walk {A} walkFn path n st.
Arguments Walk {A} walkFn fs root st.

(** The function literal passed to [filepath.Walk] in [sourceFiles].  Its
    third parameter [err] is assigned by [ok, err := s.isUploadableFile(cpath)]
    before it is ever read; the state is the slice [files]. *)
Definition sourceFiles_walkFn (env : Env) (s : S3Upload)
  (path : string) (info : option FileInfo) (err : option error)
  (files : list string) : option error * list string :=
  let cpath := GoStrings.TrimPrefix path (SourcePath s) in
  if String.eqb cpath "" then (None, files)
  else
    let cpath := GoStrings.tail1 cpath in
    (* Skip ignored files *)
    let '(ok, err) := isUploadableFile env s cpath in
    match err with
    | Some e => (Some e, files)
    | None =>
        if negb ok then (None, files)
        else
          (* Skip if path is directory *)
          let '(fi, err) := os_Stat (fs env) path in
          match fi, err with
          | _, Some e => (Some e, files)
          | None, None => (None, files)
          | Some fi, None =>
              if IsDir fi then (None, files)
              else (None, files ++ [cpath])
          end
    end.

(** [sourceFiles]: the list of relative paths, or [nil] and the error. *)
Definition sourceFiles (env : Env) (s : S3Upload) : list string * option error :=
  let source := SourcePath s in
  let '(err, files) := Walk (sourceFiles_walkFn env s) (fs env) source [] in
  match err with
  | Some e => ([], Some e)
  | None => (files, None)
  end.

(* ================================================================== *)
(** ** [uploadFile] *)

(** What the program does to the outside world, in the order it does it. *)
Inductive event : Type :=
| EvOpen (name : string)          (* [os.Open(name)] *)
| EvPrint (text : string)         (* [fmt.Printf] *)
| EvPut (obj : PutObjectInput)    (* [PutObjectRequest(obj)] and [req.Send()] *)
| EvSleep (d : Z).                (* [time.Sleep(d)], [d] in nanoseconds *)

(** The history of the run, oldest event first. *)
Definition World : Type := list event.

(** How often [name] was opened, and how many requests were sent for
    [key]: the indices at which the environment is asked for the next
    outcome. *)
Fixpoint opens_of (name : string) (w : World) : nat :=
  match w with
  | [] => 0
  | EvOpen n :: w' => (if String.eqb n name then 1 else 0) + opens_of name w'
  | _ :: w' => opens_of name w'
  end.

Fixpoint puts_of (key : string) (w : World) : nat :=
  match w with
  | [] => 0
  | EvPut obj :: w' =>
      (if String.eqb (obj_Key obj) key then 1 else 0) + puts_of key w'
  | _ :: w' => puts_of key w'
  end.

Definition newline : string := String (ascii_of_nat 10) "".

(** The name [uploadFile] opens, the key it uploads to and the request
    it builds: the expressions [filepath.Join(s.SourcePath, path)],
    [filepath.Join("/", s.Config.S3.Prefix, path)] and
    [&s3.PutObjectInput{...}] with the assignment to [obj.CacheControl]. *)
Definition localName (s : S3Upload) (path : string) : string :=
  Filepath.Join [SourcePath s; path].

Definition destPath (s : S3Upload) (path : string) : string :=
  Filepath.Join ["/"; Prefix (S3 (Config_ s)); path].

Definition putObjectInput (env : Env) (s : S3Upload) (path : string)
  : PutObjectInput :=
  let mimeType := mime_TypeByExtension env (Filepath.Ext path) in
  let mimeType :=
    if String.eqb mimeType "" then "application/octet-stream" else mimeType in
  let acl := ACL (S3 (Config_ s)) in
  let acl := if String.eqb acl "" then "private" else acl in
  {| obj_Bucket := Bucket (S3 (Config_ s));
     obj_Key := destPath s path;
     obj_ACL := acl;
     obj_ContentType := mimeType;
     obj_CacheControl :=
       if negb (String.eqb (CacheControl (S3 (Config_ s))) "")
       then Some (CacheControl (S3 (Config_ s))) else None;
     obj_Body := localName s path |}.

(** The progress line of [uploadFile]. *)
Definition uploading (dryrun : bool) (destPath : string) : string :=
  if dryrun then "[DRYRUN] uploading " ++ destPath ++ " ..." ++ newline
  else "uploading " ++ destPath ++ " ..." ++ newline.

(** [uploadFile(path, dryrun)]: the number of files uploaded (0 or 1) and
    the error.  [defer file.Close()] has no effect that the program
    observes and is left out. *)
Definition uploadFile (env : Env) (s : S3Upload) (path : string) (dryrun : bool)
  (w : World) : (Z * option error) * World :=
  let num := 0%Z in
  let name := localName s path in
  let err := os_Open env name (opens_of name w) in
  let w := w ++ [EvOpen name] in
  match err with
  | Some reason => ((num, Some (PathError "open" name reason)), w)
  | None =>
      let w := w ++ [EvPrint (uploading dryrun (destPath s path))] in
      let obj := putObjectInput env s path in
      if negb dryrun then
        let err := PutObject_Send env obj (puts_of (obj_Key obj) w) in
        let w := w ++ [EvPut obj] in
        match err with
        | Some e => ((num, Some e), w)
        | None => ((num + 1)%Z, None, w)
        end
      else ((num, None), w)
  end.

(* ================================================================== *)
(** ** [Upload]: the retry loop of one task *)

(** The value a goroutine panics with: [panic(err)] or
    [panic(fmt.Sprintf(...))]. *)
Inductive panic_value : Type :=
| PanicError (err : error)
| PanicString (text : string).

(** Where one pass through the code after the label [RETRY] leaves the
    worker: at [atomic.AddUint64] with [n], back at [RETRY] with the
    decremented counter, or in a panic. *)
Inductive attempt_result : Type :=
| Uploaded (n : Z)
| Retry (numRetries : Z)
| Panicked (v : panic_value).

(** [time.Second]: a [time.Duration] counts nanoseconds. *)
Definition Second : Z := 1000000000.

(** One pass: [n, err := s.uploadFile(path, dryrun)] and the [if] that
    follows it. *)
Definition attempt (env : Env) (s : S3Upload) (path : string) (dryrun : bool)
  (numRetries : Z) (w : World) : attempt_result * World :=
  let '((n, err), w) := uploadFile env s path dryrun w in
  match err with
  | Some e =>
      if is_awserr e then
        let numRetries := (numRetries - 1)%Z in
        if (numRetries >? 0)%Z then
          (* retry in 1 second *)
          let w := w ++ [EvPrint ("failed to upload " ++ path
                                  ++ ", retrying in 1 second ..." ++ newline)] in
          let w := w ++ [EvSleep (1 * Second)] in
          (Retry numRetries, w)
        else (Panicked (PanicError e), w)
      else (Panicked (PanicString ("unknown error! " ++ Error e)), w)
  | None => (Uploaded n, w)
  end.

(** How the processing of one task ends. *)
Inductive task_result : Type :=
| TaskUploaded (n : Z)
| TaskPanic (v : panic_value).

(** The loop the [goto RETRY] makes, entered with the current value of
    [numRetries].  It ends because every jump back has decremented a
    counter that stays positive. *)
Equations? retry_loop (env : Env) (s : S3Upload) (path : string) (dryrun : bool)
  (numRetries : Z) (w : World) : task_result * World
  by wf (Z.to_nat numRetries) lt :=
retry_loop env s path dryrun numRetries w
  with Logic.inspect (attempt env s path dryrun numRetries w) := {
  | exist _ (Uploaded n, w') _ => (TaskUploaded n, w')
  | exist _ (Retry numRetries', w') Heq => retry_loop env s path dryrun numRetries' w'
  | exist _ (Panicked v, w') _ => (TaskPanic v, w') }.
Proof.
  unfold attempt in Heq.
  destruct (uploadFile env s path dryrun w) as [[n [e|]] w1]; try discriminate.
  destruct (is_awserr e); try discriminate.
  destruct (numRetries - 1 >? 0)%Z eqn:Hpos; try discriminate.
  injection Heq as <- _. lia.
Qed.

(** The body of [for path := range fch] up to [atomic.AddUint64]. *)
Definition uploadTask (env : Env) (s : S3Upload) (path : string) (dryrun : bool)
  (w : World) : task_result * World :=
  let numRetries := 30%Z in
  retry_loop env s path dryrun numRetries w.

(* ================================================================== *)
(** ** [Upload]: the worker pool *)

(** Where a worker goroutine stands: at the receive of
    [for path := range fch], at the label [RETRY] with a task in hand, at
    [atomic.AddUint64], returned (its deferred [wg.Done()] has run), or
    in a panic.  A goroutine that panics runs its deferred [wg.Done()]
    and, as nothing recovers the panic, the Go runtime then prints the
    panic value and exits the process; until it has, the other goroutines
    go on. *)
Inductive worker : Type :=
| AtRange
| AtRetry (path : string) (numRetries : Z)
| AtAdd (n : Z)
| Returned
| Panicking (v : panic_value).

(** The shared state of a run: the buffered, closed channel [fch], the
    counter [num], the goroutines, the world, and the panic in which the
    process has exited, if it has. *)
Record pool : Type := {
  fch : list string;
  num : Z;
  workers : list worker;
  world : World;
  panicked : option panic_value
}.

(** The conversion [uint64(n)] and [atomic.AddUint64(&num, delta)]. *)
Definition uint64 (n : Z) : Z := n mod 2 ^ 64.

Definition AddUint64 (num delta : Z) : Z := (num + delta) mod 2 ^ 64.

Fixpoint set_worker (i : nat) (wk : worker) (ws : list worker) : list worker :=
  match ws, i with
  | [], _ => []
  | _ :: rest, O => wk :: rest
  | w0 :: rest, S j => w0 :: set_worker j wk rest
  end.

(** One step of goroutine [i], when it can take one: a worker that has
    returned takes none, and when the process has exited nothing runs.
    The step of a goroutine in a panic is the exit of the process. *)
Definition step (env : Env) (s : S3Upload) (dryrun : bool) (i : nat) (p : pool)
  : option pool :=
  match panicked p with
  | Some _ => None
  | None =>
      match nth_error (workers p) i with
      | None => None
      | Some Returned => None
      | Some AtRange =>
          match fch p with
          | [] =>
              Some {| fch := []; num := num p;
                      workers := set_worker i Returned (workers p);
                      world := world p; panicked := None |}
          | path :: rest =>
              Some {| fch := rest; num := num p;
                      workers := set_worker i (AtRetry path 30) (workers p);
                      world := world p; panicked := None |}
          end
      | Some (AtRetry path numRetries) =>
          let '(r, w) := attempt env s path dryrun numRetries (world p) in
          match r with
          | Uploaded n =>
              Some {| fch := fch p; num := num p;
                      workers := set_worker i (AtAdd n) (workers p);
                      world := w; panicked := None |}
          | Retry numRetries' =>
              Some {| fch := fch p; num := num p;
                      workers := set_worker i (AtRetry path numRetries') (workers p);
                      world := w; panicked := None |}
          | Panicked v =>
              (* panic(...), then the deferred wg.Done() *)
              Some {| fch := fch p; num := num p;
                      workers := set_worker i (Panicking v) (workers p);
                      world := w; panicked := None |}
          end
      | Some (AtAdd n) =>
          Some {| fch := fch p; num := AddUint64 (num p) (uint64 n);
                  workers := set_worker i AtRange (workers p);
                  world := world p; panicked := None |}
      | Some (Panicking v) =>
          Some {| fch := fch p; num := num p;
                  workers := workers p;
                  world := world p; panicked := Some v |}
      end
  end.

(** A schedule names the goroutine that is given each turn.  A turn given
    to a goroutine that cannot take a step changes nothing. *)
Fixpoint exec (env : Env) (s : S3Upload) (dryrun : bool) (sched : list nat)
  (p : pool) : pool :=
  match sched with
  | [] => p
  | i :: rest =>
      match step env s dryrun i p with
      | Some p' => exec env s dryrun rest p'
      | None => exec env s dryrun rest p
      end
  end.

(** The goroutine has run its deferred [wg.Done()]. *)
Definition is_done (wk : worker) : bool :=
  match wk with Returned | Panicking _ => true | _ => false end.

(** [wg.Wait()] returns when the counter of the wait group is zero:
    every goroutine has run its [wg.Done()], by returning or in a
    panic. *)
Definition all_done (p : pool) : bool := forallb is_done (workers p).

(** The pool after [close(fch)] and the loop that starts the goroutines:
    [for i := 0; i < parallel; i++] starts [parallel] workers, none when
    [parallel] is not positive. *)
Definition start (files : list string) (parallel : Z) : pool :=
  {| fch := files; num := 0;
     workers := repeat AtRange (Z.to_nat parallel);
     world := []; panicked := None |}.

(** How a run stands at the end of a schedule: [Upload] has returned, the
    process has exited in a panic, or goroutines are still running and
    [wg.Wait()] blocks.  [Upload] may return while a goroutine is in a
    panic, when that goroutine was the last one that [wg.Wait()] waited
    for; the process then exits at the next step of that goroutine. *)
Inductive outcome : Type :=
| Return (num : Z) (err : option error)
| Abort (v : panic_value)
| Running.

Definition verdict (p : pool) : outcome :=
  match panicked p with
  | Some v => Abort v
  | None => if all_done p then Return (num p) None else Running
  end.

(** [Upload(parallel, dryrun)], with the schedule of the goroutines made
    explicit, and the history of the run. *)
Definition Upload (env : Env) (s : S3Upload) (parallel : Z) (dryrun : bool)
  (sched : list nat) : outcome * World :=
  let '(files, err) := sourceFiles env s in
  match err with
  | Some e => (Return 0 (Some e), [])
  | None =>
      let p := exec env s dryrun sched (start files parallel) in
      (verdict p, world p)
  end.

(* ================================================================== *)
(** ** [NewS3Upload] and [newSession] *)

(** An AWS session, by what [newSession] sets in it: the static
    credentials and the region.  The client [s3.New(sess)] is the session
    it was made from. *)
Record Session : Type := {
  sess_AccessKey : string;
  sess_SecretKey : string;
  sess_Token : string;
  sess_Region : string
}.

(** What the construction of an uploader consumes from outside:
    [session.NewSession], with the session it builds from the process
    environment, the bucket lookup [s3manager.GetBucketRegion(ctx, sess,
    bucket, regionHint)], and [os.Getwd], which [filepath.Abs] calls for a
    relative path. *)
Record Host : Type := {
  session_NewSession : Session * option error;
  s3manager_GetBucketRegion : Session -> string -> string -> string * option error;
  os_Getwd : string * option error
}.

(** [sess.Config.WithCredentials(credentials.NewStaticCredentials(id,
    secret, token))] and [sess.Config.WithRegion(region)]. *)
Definition WithCredentials (sess : Session) (id secret token : string) : Session :=
  {| sess_AccessKey := id; sess_SecretKey := secret; sess_Token := token;
     sess_Region := sess_Region sess |}.

Definition WithRegion (sess : Session) (region : string) : Session :=
  {| sess_AccessKey := sess_AccessKey sess; sess_SecretKey := sess_SecretKey sess;
     sess_Token := sess_Token sess; sess_Region := region |}.

(** [newSession]: the client ([None] is [nil]) and the error. *)
Definition newSession (host : Host) (cfg : Config) : option Session * option error :=
  let '(sess, err) := session_NewSession host in
  match err with
  | Some e => (None, Some e)
  | None =>
      let sess := WithCredentials sess (AccessKey (S3 cfg)) (SecretKey (S3 cfg)) "" in
      let region := Region (S3 cfg) in
      let '(region, err) :=
        if String.eqb region ""
        then s3manager_GetBucketRegion host sess (Bucket (S3 cfg)) "us-west-2"
        else (region, None) in
      match err with
      | Some e => (None, Some e)
      | None =>
          if String.eqb region "" then (None, Some (OtherError "unknown region"))
          else (Some (WithRegion sess region), None)
      end
  end.

(** [filepath.Abs(path)] on Unix: an absolute path is cleaned, a relative
    one is joined with the working directory. *)
Definition Abs (host : Host) (path : string) : string * option error :=
  if Filepath.is_rooted path then (Filepath.Clean path, None)
  else
    let '(wd, err) := os_Getwd host in
    match err with
    | Some e => ("", Some e)
    | None => (Filepath.Join [wd; path], None)
    end.

(** [NewS3Upload(cfg)]: the uploader with its connection [Conn], which
    [S3Upload] above leaves out, or [nil] and the error. *)
Definition NewS3Upload (host : Host) (cfg : Config)
  : option (S3Upload * option Session) * option error :=
  let '(conn, err) := newSession host cfg in
  match err with
  | Some e => (None, Some e)
  | None =>
      let '(sourcePath, err) := Abs host (Source (S3 cfg)) in
      match err with
      | Some e => (None, Some e)
      | None => (Some ({| Config_ := cfg; SourcePath := sourcePath |}, conn), None)
      end
  end.

(** A host for the examples: the working directory is [/home/user], the
    bucket [bucket] lies in [eu-west-1], no other bucket is known. *)
Module DemoHost.

Definition blank : Session :=
  {| sess_AccessKey := ""; sess_SecretKey := ""; sess_Token := ""; sess_Region := "" |}.

Definition host : Host :=
  {| session_NewSession := (blank, None);
     s3manager_GetBucketRegion := fun _ bucket _ =>
       if String.eqb bucket "bucket" then ("eu-west-1", None)
       else ("", Some (AwsError "NotFound" "bucket not found"));
     os_Getwd := ("/home/user", None) |}.

Definition config (source region bucket : string) : Config :=
  {| S3 := {| Source := source; Bucket := bucket; Prefix := "site";
              Region := region; ACL := ""; CacheControl := "";
              Ignore := []; AccessKey := "key"; SecretKey := "secret" |} |}.

End DemoHost.

(* ================================================================== *)
(** ** A concrete environment, to run the program on examples *)

Module Demo.

(** A matcher for the examples, after [zglob.Match] on Unix.  The
    theorems below hold for every matcher; this one only instantiates
    them, on patterns made of literal bytes, [*], [**/] and brace groups
    (no [~], no environment variables, no backslash).

    As in zglob, a pattern in which no element holds [*] or [{] is
    compared with the name byte by byte, and never fails.  Any other
    pattern is cleaned and compiled into a regular expression: [*] is a
    run of bytes other than the separator, [**/] any number of
    directories, a letter, a digit or the separator is itself, any other
    byte the class of that byte, and the contents of a brace group are
    copied as they stand between parentheses, with [|] for every comma.
    The compilation fails, as in Go's [regexp], on a class or a
    parenthesis that is not closed, and on a [*] or [+] that has nothing
    before it to repeat.  A name matches when it is longer than
    the root of the pattern (the elements before the first one with [*]
    or [{]; [.] when there is none) and the expression matches all of it;
    the alternatives of a group are taken literally. *)
Inductive token : Type :=
| Lit (c : ascii)
| Star                      (* [[^/]*] *)
| Deep                      (* [(.*/)?] *)
| Group (raw : string).     (* [(raw)] *)

Definition has_meta (elem : string) : bool :=
  GoStrings.contains elem "*"%char || GoStrings.contains elem "{"%char.

(** The loop of [zglob.New] over the elements of the pattern: the
    pattern joined again, and its root. *)
Fixpoint scan (first : bool) (globmask root : string) (elems : list string)
  : string * string :=
  match elems with
  | [] => (globmask, root)
  | i :: rest =>
      let root :=
        if String.eqb root "" && has_meta i
        then (if String.eqb globmask "" then "." else globmask)
        else root in
      let globmask := Filepath.Join [globmask; i] in
      let globmask :=
        if first && String.eqb globmask "" then "/" else globmask in
      scan false globmask root rest
  end.

(** The contents of a brace group up to the closing brace, with [|] for
    [,], and what follows the brace; [None] when no brace closes the
    group. *)
Fixpoint group (s : string) : string * option string :=
  match s with
  | EmptyString => ("", None)
  | String c r =>
      if Ascii.eqb c "}"%char then ("", Some r)
      else
        let '(raw, rest) := group r in
        (String (if Ascii.eqb c ","%char then "|"%char else c) raw, rest)
  end.

(** The loop of [zglob.New] over the bytes of the cleaned pattern. *)
Fixpoint translate (fuel : nat) (cc : string) : list token :=
  match fuel, cc with
  | O, _ | _, EmptyString => []
  | S fuel', String c r =>
      if Ascii.eqb c "*"%char then
        match r with
        | String "*"%char (String "/"%char r') => Deep :: translate fuel' r'
        | _ => Star :: translate fuel' r
        end
      else if Ascii.eqb c "{"%char then
        match group r with
        | (EmptyString, Some r') => Lit "}"%char :: translate fuel' r'
        | (EmptyString, None) => Lit c :: translate fuel' r
        | (raw, Some r') => Group raw :: translate fuel' r'
        | (raw, None) => Group raw :: translate fuel' r
        end
      else Lit c :: translate fuel' r
  end.

Definition is_alnum (c : ascii) : bool :=
  let n := nat_of_ascii c in
  (Nat.leb 48 n && Nat.leb n 57) || (Nat.leb 65 n && Nat.leb n 90)
  || (Nat.leb 97 n && Nat.leb n 122).

Definition hex_digit (n : nat) : ascii :=
  nth n ["0"; "1"; "2"; "3"; "4"; "5"; "6"; "7"; "8"; "9";
         "A"; "B"; "C"; "D"; "E"; "F"]%char "0"%char.

(** [fmt.Sprintf("[\\x%02X]", c)]. *)
Definition byte_class (c : ascii) : string :=
  let n := nat_of_ascii c in
  ("[\x" ++ String (hex_digit (n / 16)) (String (hex_digit (n mod 16)) "]"))%string.

(** The source of the regular expression. *)
Definition source_of (t : token) : string :=
  match t with
  | Lit c =>
      if Ascii.eqb c "/"%char || is_alnum c then String c "" else byte_class c
  | Star => "[^/]*"
  | Deep => "(.*/)?"
  | Group raw => ("(" ++ raw ++ ")")%string
  end.

Definition source (toks : list token) : string :=
  ("^" ++ fold_right (fun t acc => source_of t ++ acc) "$" toks)%string.

(** The end of the class that opens before [s]: what follows its closing
    bracket.  A backslash takes the next byte with it. *)
Fixpoint class_end (s : string) : option string :=
  match s with
  | EmptyString => None
  | String c r =>
      if Ascii.eqb c "]"%char then Some r
      else if Ascii.eqb c "\"%char then
        match r with
        | String _ r' => class_end r'
        | EmptyString => None
        end
      else class_end r
  end.

(** The first byte of a class may be the closing bracket itself, behind
    an optional [^]. *)
Definition class_body (s : string) : option string :=
  let s := match s with
           | String "^"%char r => r
           | _ => s
           end in
  match s with
  | String "]"%char r => class_end r
  | _ => class_end s
  end.

Definition syntax_error (code expr : string) : error :=
  OtherError ("error parsing regexp: " ++ code ++ ": `" ++ expr ++ "`")%string.

(** What [regexp.Compile] finds wrong with [s], read with [depth]
    parentheses open; [fresh] says that [s] stands at the start of a
    group or of an alternative, and [whole] is the expression. *)
Fixpoint check (fuel : nat) (whole s : string) (depth : nat) (fresh : bool)
  : option error :=
  match fuel, s with
  | O, _ => None
  | _, EmptyString =>
      match depth with
      | O => None
      | S _ => Some (syntax_error "missing closing )" whole)
      end
  | S fuel', String c r =>
      if Ascii.eqb c "["%char then
        match class_body r with
        | Some r' => check fuel' whole r' depth false
        | None => Some (syntax_error "missing closing ]" s)
        end
      else if Ascii.eqb c "\"%char then
        match r with
        | String _ r' => check fuel' whole r' depth false
        | EmptyString =>
            Some (syntax_error "trailing backslash at end of expression" "")
        end
      else if Ascii.eqb c "("%char then check fuel' whole r (S depth) true
      else if Ascii.eqb c ")"%char then
        match depth with
        | O => Some (syntax_error "unexpected )" whole)
        | S d => check fuel' whole r d false
        end
      else if Ascii.eqb c "|"%char then check fuel' whole r depth true
      else if (Ascii.eqb c "*"%char || Ascii.eqb c "+"%char) && fresh then
        Some (syntax_error "missing argument to repetition operator"
                (String c ""))
      else check fuel' whole r depth false
  end.

Definition Compile (expr : string) : option error :=
  check (S (String.length expr)) expr expr 0 false.

(** Does the expression of [toks] match all of [name]. *)
Fixpoint matches (toks : list token) : string -> bool :=
  match toks with
  | [] => fun name => String.eqb name ""
  | Lit c :: toks' =>
      fun name =>
        match name with
        | String d name' => Ascii.eqb c d && matches toks' name'
        | EmptyString => false
        end
  | Star :: toks' =>
      fix star (name : string) : bool :=
        matches toks' name
        || match name with
           | String d name' =>
               negb (Ascii.eqb d Filepath.Separator) && star name'
           | EmptyString => false
           end
  | Deep :: toks' =>
      fun name =>
        matches toks' name
        || (fix deep (name : string) : bool :=
              match name with
              | String d name' =>
                  (Ascii.eqb d Filepath.Separator && matches toks' name')
                  || deep name'
              | EmptyString => false
              end) name
  | Group raw :: toks' =>
      fun name =>
        existsb (fun alt =>
                   match GoStrings.strip alt name with
                   | Some name' => matches toks' name'
                   | None => false
                   end)
          (GoStrings.Split raw "|"%char)
  end.

(** [zglob.Match(pattern, name)]. *)
Definition Match (pat name : string) : bool * option error :=
  let '(globmask, root) :=
    scan true "" "" (GoStrings.Split pat Filepath.Separator) in
  if String.eqb root "" then (String.eqb pat name, None)
  else
    let globmask := if String.eqb globmask "" then "." else globmask in
    let cc := Filepath.Clean globmask in
    let toks := translate (String.length cc) cc in
    match Compile (source toks) with
    | Some e => (false, Some e)
    | None =>
        (if String.eqb name "."
            || Nat.leb (String.length name) (String.length (Filepath.Clean root))
         then false
         else matches toks name, None)
    end.



Definition TypeByExtension (ext : string) : string :=
  if String.eqb ext ".txt" then "text/plain; charset=utf-8"
  else if String.eqb ext ".png" then "image/png"
  else "".

(** The source tree of the concrete scenario of the specification,
    [{a.txt, b.png, sub/c.txt}], at [/srv/www]. *)
Definition scenario_fs : node :=
  Directory None
    [("srv", Directory None
       [("www", Directory None
          [("a.txt", RegularFile);
           ("b.png", RegularFile);
           ("sub", Directory None [("c.txt", RegularFile)])])])].

(** The same tree with a directory [private] that cannot be listed. *)
Definition permission_denied : error :=
  PathError "open" "/srv/www/private" "permission denied".

Definition unreadable_fs : node :=
  Directory None
    [("srv", Directory None
       [("www", Directory None
          [("a.txt", RegularFile);
           ("private", Directory (Some permission_denied)
                         [("key.pem", RegularFile)]);
           ("z.txt", RegularFile)])])].

(** A file system with two regular files in its root directory. *)
Definition small_fs : node :=
  Directory None [("a", RegularFile); ("bc", RegularFile)].

Definition env_with (tree : node) : Env :=
  {| zglob_Match := Match;
     mime_TypeByExtension := TypeByExtension;
     fs := tree;
     os_Open := fun _ _ => None;
     PutObject_Send := fun _ _ => None |}.

Definition s3cfg (prefix : string) (ignore : list string) : S3Config :=
  {| Source := "/srv/www"; Bucket := "bucket"; Prefix := prefix;
     Region := "us-west-2"; ACL := ""; CacheControl := "";
     Ignore := ignore; AccessKey := "key"; SecretKey := "secret" |}.

Definition uploader (root prefix : string) (ignore : list string) : S3Upload :=
  {| Config_ := {| S3 := s3cfg prefix ignore |}; SourcePath := root |}.

End Demo.

(* ================================================================== *)
(** * The vocabulary of the properties *)

(** ** Patterns *)

(** [pat] glob-matches [path]: the matcher says so, without an error. *)
Definition glob_matches (env : Env) (pat path : string) : Prop :=
  zglob_Match env pat path = (true, None).

(** [pat] is well formed: the matcher compiles it. *)
Definition well_formed (env : Env) (pat path : string) : Prop :=
  snd (zglob_Match env pat path) = None.


(** [pat] is compiled and does not match. *)
Definition passes (env : Env) (pat path : string) : Prop :=
  zglob_Match env pat path = (false, None).

(** ** Path names in clean form *)

(** A plain path element: a file name as a directory listing returns it. *)
Definition plain (e : string) : bool :=
  negb (Filepath.is_blank e) && negb (String.eqb e "..")
  && negb (GoStrings.contains e Filepath.Separator).

(** A path name in clean form is the join of plain elements; an absolute
    one starts at the root. *)
Definition joined (elems : list string) : string := GoStrings.Join elems "/".

Definition rooted (elems : list string) : string :=
  String Filepath.Separator (joined elems).

Definition not_blank (e : string) : bool := negb (Filepath.is_blank e).

(** Fields that are blank or plain: [Clean] drops the first and keeps the
    second. *)
Definition tame (e : string) : bool := Filepath.is_blank e || plain e.

(** ** Histories *)

(** The events of one live transfer that gets as far as the request. *)
Definition transfer (env : Env) (s : S3Upload) (path : string) : list event :=
  [EvOpen (localName s path);
   EvPrint (uploading false (destPath s path));
   EvPut (putObjectInput env s path)].

(** The events of a dry run of [uploadFile]. *)
Definition rehearsal (s : S3Upload) (path : string) : list event :=
  [EvOpen (localName s path);
   EvPrint (uploading true (destPath s path))].

(** The retry notice for [path]. *)
Definition retry_notice (path : string) : string :=
  "failed to upload " ++ path ++ ", retrying in 1 second ..." ++ newline.

(** The backoff before a retry: the notice, then a pause of one second
    (10^9 nanoseconds). *)
Definition backoff (path : string) : list event :=
  [EvPrint (retry_notice path); EvSleep 1000000000].

(** One failed live pass and its backoff, and [m] of them in a row. *)
Definition round (env : Env) (s : S3Upload) (path : string) : list event :=
  transfer env s path ++ backoff path.

Fixpoint rounds (env : Env) (s : S3Upload) (path : string) (m : nat)
  : list event :=
  match m with
  | O => []
  | S m' => round env s path ++ rounds env s path m'
  end.

Definition is_put (ev : event) : bool :=
  match ev with EvPut _ => true | _ => false end.

Definition is_sleep (ev : event) : bool :=
  match ev with EvSleep _ => true | _ => false end.

(** The number of requests and of pauses in a history. *)
Definition puts (w : World) : nat := List.length (filter is_put w).

Definition sleeps (w : World) : nat := List.length (filter is_sleep w).

(** The lengths of the pauses of a history, in nanoseconds, in the order
    in which they were taken. *)
Fixpoint pauses (w : World) : list Z :=
  match w with
  | [] => []
  | EvSleep d :: w' => d :: pauses w'
  | _ :: w' => pauses w'
  end.

(** How often the line [line] was printed. *)
Fixpoint prints_of (line : string) (w : World) : nat :=
  match w with
  | [] => 0
  | EvPrint text :: w' =>
      (if String.eqb text line then 1 else 0) + prints_of line w'
  | _ :: w' => prints_of line w'
  end.

(** The request for [path] fails with an error of class [awserr.Error]
    when it is the [k]-th request for its key. *)
Definition retryable_at (env : Env) (s : S3Upload) (path : string) (k : nat)
  : Prop :=
  exists e, PutObject_Send env (putObjectInput env s path) k = Some e
            /\ is_awserr e = true.

(** What [Upload] panics with on an error outside the retryable class. *)
Definition unknown_error (e : error) : panic_value :=
  PanicString ("unknown error! " ++ Error e).

(** ** Pools *)

(** The pool after goroutine [i] has moved to [wk], and after the exit of
    the process in the panic [v]. *)
Definition with_worker (p : pool) (i : nat) (wk : worker) (w : World) : pool :=
  {| fch := fch p; num := num p;
     workers := set_worker i wk (workers p);
     world := w; panicked := None |}.

Definition with_panic (p : pool) (v : panic_value) (w : World) : pool :=
  {| fch := fch p; num := num p; workers := workers p;
     world := w; panicked := Some v |}.

(** [p'] is the pool [p] after goroutine [i] has run the retry loop of
    its task to the end [r]: the goroutine stands at [atomic.AddUint64],
    or it is in the panic. *)
Definition after_task (p : pool) (i : nat) (r : task_result * World) (p' : pool)
  : Prop :=
  match r with
  | (TaskUploaded n, w) => p' = with_worker p i (AtAdd n) w
  | (TaskPanic v, w) => p' = with_worker p i (Panicking v) w
  end.

(** The steps as a relation: [moves p i p'] when goroutine [i] takes the
    pool from [p] to [p'].  The constructors are the branches of [step]. *)
Inductive moves (env : Env) (s : S3Upload) (dryrun : bool) (p : pool) (i : nat)
  : pool -> Prop :=
| move_return :
    nth_error (workers p) i = Some AtRange -> fch p = [] ->
    moves env s dryrun p i
      {| fch := []; num := num p;
         workers := set_worker i Returned (workers p);
         world := world p; panicked := None |}
| move_receive path rest :
    nth_error (workers p) i = Some AtRange -> fch p = path :: rest ->
    moves env s dryrun p i
      {| fch := rest; num := num p;
         workers := set_worker i (AtRetry path 30) (workers p);
         world := world p; panicked := None |}
| move_uploaded path numRetries n w :
    nth_error (workers p) i = Some (AtRetry path numRetries) ->
    attempt env s path dryrun numRetries (world p) = (Uploaded n, w) ->
    moves env s dryrun p i (with_worker p i (AtAdd n) w)
| move_retry path numRetries numRetries' w :
    nth_error (workers p) i = Some (AtRetry path numRetries) ->
    attempt env s path dryrun numRetries (world p) = (Retry numRetries', w) ->
    moves env s dryrun p i (with_worker p i (AtRetry path numRetries') w)
| move_panic path numRetries v w :
    nth_error (workers p) i = Some (AtRetry path numRetries) ->
    attempt env s path dryrun numRetries (world p) = (Panicked v, w) ->
    moves env s dryrun p i (with_worker p i (Panicking v) w)
| move_add n :
    nth_error (workers p) i = Some (AtAdd n) ->
    moves env s dryrun p i
      {| fch := fch p; num := AddUint64 (num p) (uint64 n);
         workers := set_worker i AtRange (workers p);
         world := world p; panicked := None |}
| move_exit v :
    nth_error (workers p) i = Some (Panicking v) ->
    moves env s dryrun p i (with_panic p v (world p)).

Fixpoint sum_workers (f : worker -> nat) (ws : list worker) : nat :=
  match ws with
  | [] => 0
  | wk :: rest => f wk + sum_workers f rest
  end.

Fixpoint sum_tasks (f : string -> nat) (paths : list string) : nat :=
  match paths with
  | [] => 0
  | path :: rest => f path + sum_tasks f rest
  end.

(** What is left to do, as a number that every step lowers: a task in
    the channel costs its receive and the 30 passes it may take, a
    goroutine in a panic the exit of the process. *)
Definition weight (wk : worker) : nat :=
  match wk with
  | Returned => 0
  | Panicking _ => 1
  | AtRange => 1
  | AtAdd _ => 2
  | AtRetry _ numRetries => 3 + Z.to_nat numRetries
  end.

Definition fuel (p : pool) : nat :=
  match panicked p with
  | Some _ => 0
  | None => 33 * List.length (fch p) + sum_workers weight (workers p)
  end.

(** ** Dry runs *)

Definition adds_nothing (wk : worker) : Prop :=
  match wk with AtAdd n => n = 0%Z | _ => True end.

(** What holds of a dry run at every moment. *)
Definition dry (p : pool) : Prop :=
  num p = 0%Z /\ puts (world p) = 0 /\ Forall adds_nothing (workers p).

(** ** Live runs in which every first attempt succeeds *)

(** Go's [int] on a 64-bit platform: the length of a slice fits in it. *)
Definition max_int : Z := 2 ^ 63 - 1.

(** The task a goroutine has received and not yet uploaded. *)
Definition in_hand (f : string -> nat) (wk : worker) : nat :=
  match wk with AtRetry path _ => f path | _ => 0 end.

(** A goroutine between the receive of a task and the addition to [num]. *)
Definition busy (wk : worker) : nat :=
  match wk with AtRetry _ _ | AtAdd _ => 1 | _ => 0 end.

(** Is [path] opened under [name]; is it uploaded to [key]. *)
Definition named (s : S3Upload) (name path : string) : nat :=
  if String.eqb (localName s path) name then 1 else 0.

Definition keyed (s : S3Upload) (key path : string) : nat :=
  if String.eqb (destPath s path) key then 1 else 0.

(** Every task succeeds on its first attempt.  The first attempts of the
    tasks opened under one name are the first calls of [os.Open] on that
    name, as many as the list has such tasks; the same holds of the
    requests for one key.  For a list in which no two tasks share a name
    or a key this says: the first open of every file and the first request
    for every key succeed. *)
Definition first_attempts_succeed (env : Env) (s : S3Upload)
  (files : list string) : Prop :=
  forall path, In path files ->
    (forall k, k < sum_tasks (named s (localName s path)) files ->
               os_Open env (localName s path) k = None)
    /\ (forall k, k < sum_tasks (keyed s (destPath s path)) files ->
                  PutObject_Send env (putObjectInput env s path) k = None).

(** The tasks not yet attempted, counted by [f]: those in the channel and
    those in the hands of a goroutine. *)
Definition pending (f : string -> nat) (p : pool) : nat :=
  sum_tasks f (fch p) + sum_workers (in_hand f) (workers p).

Definition adds_one (wk : worker) : Prop :=
  match wk with AtAdd n => n = 1%Z | _ => True end.

Definition holds_listed (files : list string) (wk : worker) : Prop :=
  match wk with AtRetry path _ => In path files | _ => True end.

Definition not_Returned (wk : worker) : Prop :=
  match wk with Returned => False | _ => True end.

Definition not_Panicking (wk : worker) : Prop :=
  match wk with Panicking _ => False | _ => True end.

(** The goroutines in a panic, counted. *)
Definition in_panic (wk : worker) : nat :=
  match wk with Panicking _ => 1 | _ => 0 end.

(** No goroutine has panicked. *)
Definition calm (p : pool) : Prop :=
  panicked p = None /\ Forall not_Panicking (workers p).

(** What holds of such a run at every moment. *)
Record live (s : S3Upload) (files : list string) (p : pool) : Prop := {
  live_running : panicked p = None;
  live_queue : forall path, In path (fch p) -> In path files;
  live_hands : Forall (holds_listed files) (workers p);
  live_adds : Forall adds_one (workers p);
  live_opens : forall name,
    opens_of name (world p) + pending (named s name) p
    <= sum_tasks (named s name) files;
  live_puts : forall key,
    puts_of key (world p) + pending (keyed s key) p
    <= sum_tasks (keyed s key) files;
  live_count :
    Z.of_nat (List.length files)
    = (num p + Z.of_nat (sum_workers busy (workers p) + List.length (fch p)))%Z;
  live_num : (0 <= num p)%Z;
  live_drained : fch p = [] \/ Forall not_Returned (workers p);
  live_calm : Forall not_Panicking (workers p)
}.

(** ** Trees *)

Section WalkNames.

Variable A : Type.
Variable walkFn : WalkFunc A.
Variable path : string.

(** The loop over the names of a directory in [walk], by itself. *)
Fixpoint walk_names (entries : list (string * node)) (st : A) : option error * A :=
  match entries with
  | [] => (None, st)
  | (name, child) :: rest =>
      let filename := Filepath.Join [path; name] in
      match child with
      | Vanished reason =>
          let lerr := PathError "lstat" filename reason in
          let '(err, st') := walkFn filename None (Some lerr) st in
          match err with
          | Some e => if is_SkipDir e then walk_names rest st' else (Some e, st')
          | None => walk_names rest st'
          end
      | _ =>
          let '(err, st') := walk walkFn filename child st in
          match err with
          | Some e =>
              if negb (node_IsDir child) || negb (is_SkipDir e)
              then (Some e, st')
              else walk_names rest st'
          | None => walk_names rest st'
          end
      end
  end.

End WalkNames.

Arguments walk_names {A} walkFn path entries st.

(** [os.Stat] succeeds on the object, and finds a file that is not a
    directory. *)
Definition present (n : node) : Prop :=
  match followed n with inl _ => True | inr _ => False end.

Definition stat_file (n : node) : bool :=
  match followed n with
  | inl fi => negb (IsDir fi)
  | inr _ => false
  end.

(** A tree without faults: every directory can be listed, every name of
    a listing is a plain file name and occurs once, no entry has vanished
    and every symbolic link leads to a file or a directory. *)
Fixpoint healthy (n : node) : Prop :=
  match n with
  | RegularFile => True
  | Vanished _ => False
  | Symlink target => present target
  | Directory listing entries =>
      listing = None
      /\ NoDup (map fst entries)
      /\ (fix all (es : list (string * node)) : Prop :=
            match es with
            | [] => True
            | (name, child) :: rest =>
                plain name = true /\ healthy child /\ all rest
            end) entries
  end.

(** The files at and below a node that the walk comes to: the regular
    files and the links to regular files, each by the names that lead to
    it through the directories, in the order of the listings.  The walk
    does not go through a link to a directory. *)
Fixpoint files_at (n : node) : list (list string) :=
  match n with
  | Directory _ entries =>
      (fix below (es : list (string * node)) : list (list string) :=
         match es with
         | [] => []
         | (name, child) :: rest => map (cons name) (files_at child) ++ below rest
         end) entries
  | _ => if stat_file n then [[]] else []
  end.

(** The files under the source root: the root itself is not one of
    them. *)
Definition files_below (n : node) : list (list string) :=
  match n with
  | Directory _ _ => files_at n
  | _ => []
  end.

(** The object at the relative path [rel] under [n], going down through
    directories only. *)
Fixpoint descend (rel : list string) (n : node) : option node :=
  match rel with
  | [] => Some n
  | e :: rest =>
      match n with
      | Directory _ entries =>
          match find_entry e entries with
          | Some child => descend rest child
          | None => None
          end
      | _ => None
      end
  end.

(** What the walk adds for the node at the relative path [rel]. *)
Definition listed (rel : list string) (n : node) : list string :=
  map (fun r => joined (rel ++ r)) (files_at n).

(** The answer of the path filter on a relative path. *)
Definition uploadable (env : Env) (s : S3Upload) (path : string) : bool :=
  fst (isUploadableFile env s path).

(** [breaks reason rel n]: the first fault that a walk of [n] meets is
    the entry at the relative path [rel], on which [os.Stat] fails with
    [reason]: a name that has vanished, or a link that leads nowhere.  The
    entries that the walk visits before it are healthy. *)
Inductive breaks (reason : string) : list string -> node -> Prop :=
| breaks_here before name child after :
    healthy (Directory None before) ->
    plain name = true -> ~ In name (map fst before) ->
    followed child = inr reason ->
    breaks reason [name] (Directory None (before ++ (name, child) :: after))
| breaks_below before name child after rel :
    healthy (Directory None before) ->
    plain name = true -> ~ In name (map fst before) ->
    breaks reason rel child ->
    breaks reason (name :: rel) (Directory None (before ++ (name, child) :: after)).

(** A source tree in which the entry [sub/gone] vanishes between the
    listing of [sub] and its [lstat], and one with a link [sub/latest]
    whose target is missing. *)
Module DemoFaults.

Definition www (fault : node) (name : string) : node :=
  Directory None
    ([("a.txt", RegularFile)]
     ++ ("sub", Directory None
                  ([("c.txt", RegularFile)] ++ (name, fault) :: []))
     :: [("z.txt", RegularFile)]).

Definition vanishing_fs : node :=
  Directory None
    [("srv", Directory None
               [("www", www (Vanished "no such file or directory") "gone")])].

Definition dangling_fs : node :=
  Directory None
    [("srv", Directory None
               [("www", www (Symlink (Vanished "no such file or directory"))
                          "latest")])].

End DemoFaults.

(** A source tree with symbolic links: [current.txt] leads to a regular
    file, [shared] to a directory outside the tree.  In [linked_source_fs]
    the source [/srv/www] is itself a link to that tree. *)
Module DemoLinks.

Definition www : node :=
  Directory None
    [("a.txt", RegularFile);
     ("current.txt", Symlink RegularFile);
     ("shared", Symlink (Directory None [("big.iso", RegularFile)]));
     ("sub", Directory None [("c.txt", RegularFile)])].

Definition linked_fs : node :=
  Directory None [("srv", Directory None [("www", www)])].

Definition linked_source_fs : node :=
  Directory None [("srv", Directory None [("www", Symlink www)])].

End DemoLinks.

(** ** Counts over runs *)

Definition is_open (ev : event) : bool :=
  match ev with EvOpen _ => true | _ => false end.

(** The number of calls of [os.Open] in a history. *)
Definition open_calls (w : World) : nat := List.length (filter is_open w).

(** The event belongs to the transfer of [path]: the file opened and the
    request sent are the ones [uploadFile] builds for [path]. *)
Definition about (env : Env) (s : S3Upload) (path : string) (ev : event) : Prop :=
  match ev with
  | EvOpen name => name = localName s path
  | EvPut obj => obj = putObjectInput env s path
  | _ => True
  end.

(** The event belongs to the transfer of a task of the list. *)
Definition about_listed (env : Env) (s : S3Upload) (files : list string)
  (ev : event) : Prop :=
  exists path, In path files /\ about env s path ev.

(** The attempts that a goroutine may still make on the task in its
    hand, and the pauses between them. *)
Definition attempts_left (wk : worker) : nat :=
  match wk with AtRetry _ numRetries => Z.to_nat numRetries | _ => 0 end.

Definition pauses_left (wk : worker) : nat :=
  match wk with AtRetry _ numRetries => Z.to_nat numRetries - 1 | _ => 0 end.

Definition retries_positive (wk : worker) : Prop :=
  match wk with AtRetry _ numRetries => (1 <= numRetries)%Z | _ => True end.

Definition adds_bit (wk : worker) : Prop :=
  match wk with AtAdd n => n = 0%Z \/ n = 1%Z | _ => True end.

(** The number of turns of a schedule in which a step is taken. *)
Fixpoint turns_taken (env : Env) (s : S3Upload) (dryrun : bool)
  (sched : list nat) (p : pool) : nat :=
  match sched with
  | [] => 0
  | i :: rest =>
      match step env s dryrun i p with
      | Some p' => S (turns_taken env s dryrun rest p')
      | None => turns_taken env s dryrun rest p
      end
  end.

(** What holds of every run at every moment, for the list [files] of the
    enumerated tasks.  [within_budget]: the requests sent and the attempts
    that may still be made are at most 30 for each task, the pauses at
    most 29.  [counted]: the counter and the tasks still to be counted are
    at most the number of tasks.  [confined]: whatever was opened or sent,
    and whatever is queued or in a goroutine's hand, belongs to a task of
    the list. *)
Definition within_budget (files : list string) (p : pool) : Prop :=
  Forall retries_positive (workers p)
  /\ match panicked p with
     | None =>
         puts (world p) + 30 * List.length (fch p)
         + sum_workers attempts_left (workers p) <= 30 * List.length files
         /\ sleeps (world p) + 29 * List.length (fch p)
            + sum_workers pauses_left (workers p) <= 29 * List.length files
     | Some _ =>
         puts (world p) <= 30 * List.length files
         /\ sleeps (world p) <= 29 * List.length files
     end.

Definition counted (files : list string) (p : pool) : Prop :=
  Forall adds_bit (workers p)
  /\ (0 <= num p)%Z
  /\ (num p + Z.of_nat (sum_workers busy (workers p) + List.length (fch p))
      <= Z.of_nat (List.length files))%Z.

Definition confined (env : Env) (s : S3Upload) (files : list string) (p : pool)
  : Prop :=
  Forall (about_listed env s files) (world p)
  /\ (forall path, In path (fch p) -> In path files)
  /\ Forall (holds_listed files) (workers p).

(** [tallied c f files p]: the events counted by [c] and the tasks not
    yet attempted, counted by [f], add up to the tasks of the list. *)
Definition tallied (c : World -> nat) (f : string -> nat) (files : list string)
  (p : pool) : Prop :=
  c (world p) + pending f p = sum_tasks f files.

(** Is [q] the task [path]. *)
Definition this_task (path q : string) : nat :=
  if String.eqb q path then 1 else 0.

(** A goroutine returns only from the empty channel: while tasks are
    queued, no goroutine has returned. *)
Definition drained (p : pool) : Prop :=
  fch p = [] \/ Forall not_Returned (workers p).

(* ================================================================== *)
(** * Properties *)

(** ** The library functions on the cases of Go's own tests *)

Example Clean_cases :
  map Filepath.Clean
    [""; "abc"; "abc/def"; "/"; "abc/"; "abc//def//ghi"; "abc/./def";
     "/./abc/def"; "abc/.."; "abc/def/../ghi/../jkl"; "/abc/def/../..";
     "abc/def/../../.."; "/../abc"; "../../abc"; "abc/./../def";
     "abc/../../././../def"; "//abc"; "///abc"; "//abc//"; "abc//";
     "."; ".."; "../.."; "/abc/def/../../.."; "abc//./../def"]
  = ["."; "abc"; "abc/def"; "/"; "abc"; "abc/def/ghi"; "abc/def";
     "/abc/def"; "."; "abc/jkl"; "/";
     ".."; "/abc"; "../../abc"; "def";
     "../../def"; "/abc"; "/abc"; "/abc"; "abc";
     "."; ".."; "../.."; "/"; "def"].
Proof. reflexivity. Qed.

Example Join_cases :
  map Filepath.Join
    [[]; [""]; ["a"]; ["a"; "b"]; ["a"; ""]; [""; "b"]; ["/"; "a"];
     ["/"; ""]; ["a/"; "b"]; ["a/"; ""]; [""; ""]; ["/"; "a"; "b"];
     ["//"; "a"]]
  = [""; ""; "a"; "a/b"; "a"; "b"; "/a";
     "/"; "a/b"; "a"; ""; "/a/b";
     "/a"].
Proof. reflexivity. Qed.

Example Ext_cases :
  map Filepath.Ext ["path.go"; "path.pb.go"; "a.dir/b"; "a.dir/b.go"; "a.dir/"]
  = [".go"; ".go"; ""; ".go"; ""].
Proof. reflexivity. Qed.

Example TrimPrefix_cases :
  map (fun s => GoStrings.TrimPrefix s "/srv/www")
    ["/srv/www"; "/srv/www/a.txt"; "/srv"; "/other/a.txt"]
  = [""; "/a.txt"; "/srv"; "/other/a.txt"].
Proof. reflexivity. Qed.

(* ================================================================== *)
(** ** The path filter *)

Section Filter.

Variable env : Env.

Lemma well_formed_cases pat path :
  well_formed env pat path -> glob_matches env pat path \/ passes env pat path.
Proof.
  unfold well_formed, glob_matches, passes.
  destruct (zglob_Match env pat path) as [[|] err]; simpl; intros ->; auto.
Qed.

Lemma loop_well_formed pats path :
  (forall pat, In pat pats -> well_formed env pat path) ->
  snd (isUploadableFile_loop env pats path) = None.
Proof.
  induction pats as [|pat pats IH]; intros Hwf; simpl; [reflexivity|].
  destruct (well_formed_cases pat path) as [Hm | Hp];
    [apply Hwf; left; reflexivity | rewrite Hm | rewrite Hp]; simpl.
  - reflexivity.
  - apply IH. intros q Hq. apply Hwf. right. exact Hq.
Qed.

Lemma loop_false_iff pats path :
  (forall pat, In pat pats -> well_formed env pat path) ->
  fst (isUploadableFile_loop env pats path) = false <->
  exists pat, In pat pats /\ glob_matches env pat path.
Proof.
  induction pats as [|pat pats IH]; intros Hwf; simpl.
  - split; [discriminate | intros (q & [] & _)].
  - assert (Hrest : forall q, In q pats -> well_formed env q path)
      by (intros q Hq; apply Hwf; right; exact Hq).
    destruct (well_formed_cases pat path) as [Hm | Hp];
      [apply Hwf; left; reflexivity | |].
    + rewrite Hm. simpl. split; [|reflexivity].
      intros _. exists pat. split; [left; reflexivity | exact Hm].
    + rewrite Hp. simpl. rewrite (IH Hrest). split.
      * intros (q & Hq & Hmq). exists q. split; [right; exact Hq | exact Hmq].
      * intros (q & [<- | Hq] & Hmq).
        -- unfold glob_matches in Hmq. rewrite Hp in Hmq. discriminate.
        -- exists q. split; assumption.
Qed.


End Filter.

(** C2.  Filter correctness: when every ignore pattern is well formed,
    [isUploadableFile] returns [false] exactly when some pattern of the
    list glob-matches the path, it returns no error, and when no pattern
    matches it returns [true]. *)
Theorem isUploadableFile_false_iff_match (env : Env) (s : S3Upload) (path : string) :
  (forall pat, In pat (Ignore (S3 (Config_ s))) -> well_formed env pat path) ->
  (fst (isUploadableFile env s path) = false <->
   exists pat, In pat (Ignore (S3 (Config_ s))) /\ glob_matches env pat path)
  /\ snd (isUploadableFile env s path) = None
  /\ ((forall pat, In pat (Ignore (S3 (Config_ s))) -> ~ glob_matches env pat path) ->
      isUploadableFile env s path = (true, None)).
Proof.
  intros Hwf. unfold isUploadableFile.
  pose proof (loop_false_iff env _ path Hwf) as Hiff.
  pose proof (loop_well_formed env _ path Hwf) as Herr.
  split; [exact Hiff | split; [exact Herr |]].
  intros Hno.
  destruct (isUploadableFile_loop env (Ignore (S3 (Config_ s))) path)
    as [[|] err] eqn:Hloop; simpl in *; subst err; [reflexivity|].
  destruct (proj1 Hiff eq_refl) as (pat & Hin & Hm).
  exfalso. exact (Hno pat Hin Hm).
Qed.

Lemma isUploadableFile_false_iff_match_witness :
  let env := Demo.env_with Demo.scenario_fs in
  let s := Demo.uploader "/srv/www" "site" ["*.bak"; "sub/*"] in
  fst (isUploadableFile env s "sub/c.txt") = false <->
  exists pat, In pat ["*.bak"; "sub/*"] /\ glob_matches env pat "sub/c.txt".
Proof.
  intros env s.
  apply (isUploadableFile_false_iff_match env s "sub/c.txt").
  intros pat [<- | [<- | []]]; reflexivity.
Defined.




(* ================================================================== *)
(** ** Path names in clean form *)

Section CleanForm.

Import GoStrings Filepath.

Lemma Split_not_nil s : Split s Separator <> [].
Proof.
  destruct s as [|c r]; simpl; [discriminate|].
  destruct (Ascii.eqb c Separator); [discriminate|].
  destruct (Split r Separator); discriminate.
Qed.

Lemma Split_app a b :
  Split (a ++ String Separator b) Separator
  = Split a Separator ++ Split b Separator.
Proof.
  induction a as [|c a IH]; simpl.
  - reflexivity.
  - destruct (Ascii.eqb c Separator); rewrite IH; [reflexivity|].
    destruct (Split a Separator) as [|f fs] eqn:Hs;
      [exfalso; exact (Split_not_nil a Hs) | reflexivity].
Qed.

Lemma Split_plain e :
  contains e Separator = false -> Split e Separator = [e].
Proof.
  induction e as [|c e IH]; simpl; [reflexivity|].
  destruct (Ascii.eqb c Separator); simpl; [discriminate|].
  intros H. rewrite (IH H). reflexivity.
Qed.

Lemma plain_no_separator e : plain e = true -> contains e Separator = false.
Proof.
  unfold plain. intros H.
  apply andb_true_iff in H as [_ H]. apply negb_true_iff in H. exact H.
Qed.

Lemma plain_not_blank e : plain e = true -> is_blank e = false.
Proof.
  unfold plain. intros H.
  apply andb_true_iff in H as [H _]. apply andb_true_iff in H as [H _].
  apply negb_true_iff in H. exact H.
Qed.

Lemma plain_not_dotdot e : plain e = true -> String.eqb e ".." = false.
Proof.
  unfold plain. intros H.
  apply andb_true_iff in H as [H _]. apply andb_true_iff in H as [_ H].
  apply negb_true_iff in H. exact H.
Qed.

Lemma plain_not_empty e : plain e = true -> e <> "".
Proof.
  intros H ->. discriminate H.
Qed.

Lemma Join_cons e elems :
  elems <> [] ->
  GoStrings.Join (e :: elems) "/"
  = (e ++ String Separator (GoStrings.Join elems "/"))%string.
Proof.
  destruct elems; [congruence | reflexivity].
Qed.

Lemma append_assoc (a b c : string) : ((a ++ b) ++ c = a ++ (b ++ c))%string.
Proof.
  induction a as [|x a IH]; simpl; [reflexivity | rewrite IH; reflexivity].
Qed.

Lemma Join_app (a b : list string) :
  a <> [] -> b <> [] ->
  joined (a ++ b) = (joined a ++ "/" ++ joined b)%string.
Proof.
  unfold joined. induction a as [|e a IH]; intros Ha Hb; [congruence|].
  destruct a as [|e' a].
  - simpl app. rewrite Join_cons by exact Hb. reflexivity.
  - change ((e :: e' :: a) ++ b) with (e :: ((e' :: a) ++ b)).
    rewrite Join_cons by discriminate.
    rewrite IH by (discriminate || exact Hb).
    rewrite (Join_cons e (e' :: a)) by discriminate.
    rewrite append_assoc. reflexivity.
Qed.

(** Splitting a clean path name gives back its elements. *)
Lemma Split_joined elems :
  elems <> [] -> forallb plain elems = true ->
  Split (joined elems) Separator = elems.
Proof.
  unfold joined. induction elems as [|e elems IH]; intros Hne Hp; [congruence|].
  simpl in Hp. apply andb_true_iff in Hp as [He Hp].
  destruct elems as [|e' elems].
  - simpl. apply Split_plain, plain_no_separator, He.
  - rewrite Join_cons by discriminate. rewrite Split_app.
    rewrite IH by (discriminate || exact Hp).
    rewrite Split_plain by (apply plain_no_separator, He). reflexivity.
Qed.

Lemma filter_plain elems :
  forallb plain elems = true -> filter not_blank elems = elems.
Proof.
  induction elems as [|e elems IH]; simpl; [reflexivity|].
  intros H. apply andb_true_iff in H as [He Hp].
  unfold not_blank at 1. rewrite (plain_not_blank e He). simpl.
  rewrite (IH Hp). reflexivity.
Qed.

(** The non-blank fields of a clean path name are its elements; the
    empty name has none. *)
Lemma fields_joined elems :
  forallb plain elems = true ->
  filter not_blank (Split (joined elems) Separator) = elems.
Proof.
  intros Hp. destruct elems as [|e elems]; [reflexivity|].
  rewrite Split_joined by (discriminate || exact Hp).
  apply filter_plain, Hp.
Qed.

Lemma fold_clean_tame rooted fields out :
  forallb tame fields = true ->
  fold_left (clean_elem rooted) fields out
  = rev (filter not_blank fields) ++ out.
Proof.
  revert out. induction fields as [|e fields IH]; intros out Ht; [reflexivity|].
  simpl in Ht. apply andb_true_iff in Ht as [He Ht].
  simpl. rewrite (IH _ Ht). unfold clean_elem, not_blank at 2.
  destruct (is_blank e) eqn:Hb; simpl; [reflexivity|].
  unfold tame in He. rewrite Hb in He. simpl in He.
  rewrite (plain_not_dotdot e He).
  rewrite <- app_assoc. reflexivity.
Qed.

Lemma forallb_tame_plain elems : forallb plain elems = true -> forallb tame elems = true.
Proof.
  induction elems as [|e elems IH]; simpl; [reflexivity|].
  intros H. apply andb_true_iff in H as [He Hp].
  unfold tame at 1. rewrite He, orb_true_r. simpl. apply IH, Hp.
Qed.

(** The fields of a clean path name, or of the empty name, are tame. *)
Lemma tame_joined elems :
  forallb plain elems = true ->
  forallb tame (Split (joined elems) Separator) = true.
Proof.
  intros Hp. destruct elems as [|e elems]; [reflexivity|].
  rewrite Split_joined by (discriminate || exact Hp).
  apply forallb_tame_plain, Hp.
Qed.

(** [Clean] on a rooted name whose fields are tame. *)
Lemma Clean_rooted body :
  forallb tame (Split body Separator) = true ->
  Clean (String Separator body)
  = String Separator (joined (filter not_blank (Split body Separator))).
Proof.
  intros Ht. unfold Clean.
  change (String.eqb (String Separator body) "") with false.
  change (is_rooted (String Separator body)) with true.
  cbv iota.
  change (Split (String Separator body) Separator)
    with (EmptyString :: Split body Separator).
  change (fold_left (clean_elem true) (EmptyString :: Split body Separator) [])
    with (fold_left (clean_elem true) (Split body Separator) []).
  rewrite (fold_clean_tame true _ [] Ht).
  rewrite app_nil_r, rev_involutive. reflexivity.
Qed.

(** Joining a clean rooted directory name with clean relative names. *)
Lemma Clean_rooted_joined (a b : list string) :
  forallb plain a = true -> forallb plain b = true ->
  Clean (String Separator (joined a ++ String Separator (joined b)))
  = String Separator (joined (a ++ b)).
Proof.
  intros Ha Hb.
  rewrite Clean_rooted; rewrite Split_app.
  - rewrite filter_app, (fields_joined a Ha), (fields_joined b Hb). reflexivity.
  - rewrite forallb_app, (tame_joined a Ha), (tame_joined b Hb). reflexivity.
Qed.

End CleanForm.

(* ================================================================== *)
(** ** The destination key *)

(** C6, as claimed, fails for the empty prefix: [filepath.Join] drops the
    empty element, and the key of [a.txt] is [/a.txt], not [//a.txt]. *)
Lemma destPath_empty_prefix_counterexample :
  let s := Demo.uploader "/srv/www" "" [] in
  destPath s "a.txt" = "/a.txt"
  /\ destPath s "a.txt" <> ("/" ++ Prefix (S3 (Config_ s)) ++ "/" ++ "a.txt")%string.
Proof.
  split; [reflexivity | discriminate].
Qed.

(** C6, amended.  For a prefix and a relative path in clean form (plain
    elements joined by single separators), the destination key is
    ["/" + prefix + "/" + relativePath] when the prefix is not empty, and
    ["/" + relativePath] when it is; this is the key of the request that
    [uploadFile] sends.  With prefix [site], the files [a.txt] and [b.png]
    go to [/site/a.txt] and [/site/b.png]. *)
Theorem destPath_clean_form (s : S3Upload) (prefix_elems path_elems : list string) :
  Prefix (S3 (Config_ s)) = joined prefix_elems ->
  forallb plain prefix_elems = true ->
  forallb plain path_elems = true ->
  path_elems <> [] ->
  let path := joined path_elems in
  destPath s path
  = (if String.eqb (Prefix (S3 (Config_ s))) "" then "/" ++ path
     else "/" ++ Prefix (S3 (Config_ s)) ++ "/" ++ path)%string
  /\ (forall env, obj_Key (putObjectInput env s path) = destPath s path)
  /\ destPath (Demo.uploader "/srv/www" "site" ["sub/*"]) "a.txt" = "/site/a.txt"
  /\ destPath (Demo.uploader "/srv/www" "site" ["sub/*"]) "b.png" = "/site/b.png".
Proof.
  intros Hprefix Hpp Hrp Hne path.
  split; [| split; [reflexivity | split; reflexivity]].
  unfold destPath. rewrite Hprefix.
  change (Filepath.Join ["/"; joined prefix_elems; path])
    with (Filepath.Clean
            (String Filepath.Separator
               (String Filepath.Separator
                  (joined prefix_elems ++ String Filepath.Separator path)))).
  change (String Filepath.Separator
            (joined prefix_elems ++ String Filepath.Separator path))
    with (joined [] ++ String Filepath.Separator
            (joined prefix_elems ++ String Filepath.Separator path))%string.
  rewrite Clean_rooted.
  2:{ rewrite !Split_app, !forallb_app.
      rewrite (tame_joined prefix_elems Hpp). unfold path.
      rewrite (tame_joined path_elems Hrp). reflexivity. }
  rewrite !Split_app, !filter_app.
  rewrite (fields_joined prefix_elems Hpp). unfold path.
  rewrite (fields_joined path_elems Hrp).
  change (filter not_blank (GoStrings.Split (joined []) Filepath.Separator))
    with (@nil string).
  rewrite app_nil_l.
  destruct prefix_elems as [|e prefix_elems].
  - reflexivity.
  - assert (Hnonempty : String.eqb (joined (e :: prefix_elems)) "" = false).
    { simpl in Hpp. apply andb_true_iff in Hpp as [He _].
      apply plain_not_empty in He.
      apply String.eqb_neq. unfold joined.
      destruct prefix_elems; simpl; destruct e; try congruence; discriminate. }
    rewrite Hnonempty.
    rewrite Join_app by (discriminate || exact Hne). reflexivity.
Qed.

Lemma destPath_clean_form_witness :
  destPath (Demo.uploader "/srv/www" "assets/site" []) "sub/c.txt"
  = "/assets/site/sub/c.txt".
Proof.
  exact (proj1 (destPath_clean_form (Demo.uploader "/srv/www" "assets/site" [])
                  ["assets"; "site"] ["sub"; "c.txt"]
                  eq_refl eq_refl eq_refl
                  ltac:(discriminate))).
Defined.

(* ================================================================== *)
(** ** One transfer and the retry loop *)

Lemma opens_of_app name (a b : World) :
  opens_of name (a ++ b) = opens_of name a + opens_of name b.
Proof.
  induction a as [|[n| | |] a IH]; simpl; try exact IH; [reflexivity|].
  rewrite IH. lia.
Qed.

Lemma puts_of_app key (a b : World) :
  puts_of key (a ++ b) = puts_of key a + puts_of key b.
Proof.
  induction a as [|[| |obj|] a IH]; simpl; try exact IH; [reflexivity|].
  rewrite IH. lia.
Qed.

Lemma prints_of_app line (a b : World) :
  prints_of line (a ++ b) = prints_of line a + prints_of line b.
Proof.
  induction a as [|[| text | |] a IH]; simpl; try exact IH; [reflexivity|].
  rewrite IH. lia.
Qed.

(** What a pass adds to the history before [goto RETRY] is the
    backoff. *)
Lemma backoff_events (w : World) path :
  (w ++ [EvPrint ("failed to upload " ++ path ++ ", retrying in 1 second ..."
                  ++ newline)])
  ++ [EvSleep (1 * Second)]
  = w ++ backoff path.
Proof. rewrite <- app_assoc. reflexivity. Qed.

Lemma pauses_app (a b : World) : pauses (a ++ b) = pauses a ++ pauses b.
Proof.
  induction a as [|[| | |d] a IH]; simpl; try exact IH; [reflexivity|].
  rewrite IH. reflexivity.
Qed.

Section Transfer.

Variable env : Env.
Variable s : S3Upload.
Variable path : string.

Let name := localName s path.
Let key := destPath s path.
Let obj := putObjectInput env s path.

Lemma puts_of_key_transfer : puts_of key (transfer env s path) = 1.
Proof.
  unfold transfer. simpl. unfold key. rewrite String.eqb_refl. reflexivity.
Qed.

Lemma puts_of_key_backoff : puts_of key (backoff path) = 0.
Proof. reflexivity. Qed.

(** A live [uploadFile] whose file opens. *)
Lemma uploadFile_live w :
  os_Open env name (opens_of name w) = None ->
  uploadFile env s path false w
  = (match PutObject_Send env obj (puts_of key w) with
     | Some e => (0%Z, Some e)
     | None => (1%Z, None)
     end, w ++ transfer env s path).
Proof.
  intros Hopen. unfold uploadFile. fold name. rewrite Hopen. simpl negb.
  cbv iota. fold obj.
  change (obj_Key obj) with key.
  rewrite !puts_of_app. simpl puts_of. rewrite !Nat.add_0_r.
  unfold transfer. fold name obj.
  destruct (PutObject_Send env obj (puts_of key w));
    rewrite <- !app_assoc; reflexivity.
Qed.

(** A dry [uploadFile] whose file opens. *)
Lemma uploadFile_dry w :
  os_Open env name (opens_of name w) = None ->
  uploadFile env s path true w = ((0%Z, None), w ++ rehearsal s path).
Proof.
  intros Hopen. unfold uploadFile. fold name. rewrite Hopen. simpl.
  rewrite <- !app_assoc. reflexivity.
Qed.

(** An [uploadFile] whose file does not open. *)
Lemma uploadFile_open_fails dryrun w reason :
  os_Open env name (opens_of name w) = Some reason ->
  uploadFile env s path dryrun w
  = ((0%Z, Some (PathError "open" name reason)), w ++ [EvOpen name]).
Proof.
  intros Hopen. unfold uploadFile. fold name. rewrite Hopen. reflexivity.
Qed.

(** The retry loop, one pass unfolded. *)
Lemma retry_loop_pass dryrun numRetries w :
  retry_loop env s path dryrun numRetries w
  = (let (r, w') := attempt env s path dryrun numRetries w in
     match r with
     | Uploaded n => (TaskUploaded n, w')
     | Retry numRetries' => retry_loop env s path dryrun numRetries' w'
     | Panicked v => (TaskPanic v, w')
     end).
Proof.
  funelim (retry_loop env s path dryrun numRetries w);
    match goal with
    | Heq : attempt _ _ _ _ _ _ = _ |- _ => rewrite Heq; reflexivity
    end.
Qed.

Lemma puts_rounds m : puts (rounds env s path m) = m.
Proof.
  induction m as [|m IH]; [reflexivity|].
  unfold puts in *. simpl. rewrite IH. reflexivity.
Qed.

Lemma sleeps_rounds m : sleeps (rounds env s path m) = m.
Proof.
  induction m as [|m IH]; [reflexivity|].
  unfold sleeps in *. simpl. rewrite IH. reflexivity.
Qed.

(** Every pause of the rounds is one second long. *)
Lemma pauses_rounds m :
  pauses (rounds env s path m) = repeat 1000000000%Z m.
Proof.
  induction m as [|m IH]; [reflexivity|].
  simpl. rewrite IH. reflexivity.
Qed.

(** The progress line of a transfer is not the retry notice. *)
Lemma uploading_not_notice dryrun k :
  String.eqb (uploading dryrun k) (retry_notice path) = false.
Proof. destruct dryrun; reflexivity. Qed.

(** Every round prints the retry notice once. *)
Lemma notices_rounds m :
  prints_of (retry_notice path) (rounds env s path m) = m.
Proof.
  induction m as [|m IH]; [reflexivity|].
  cbn [rounds round transfer backoff app prints_of].
  rewrite uploading_not_notice, String.eqb_refl, IH. reflexivity.
Qed.

Lemma notices_transfer : prints_of (retry_notice path) (transfer env s path) = 0.
Proof.
  cbn [transfer prints_of]. rewrite uploading_not_notice. reflexivity.
Qed.

Hypothesis opens : forall k, os_Open env name k = None.

(** A retryable failure with retries left: back to [RETRY] after the
    backoff, with one retry less. *)
Lemma attempt_retries numRetries w :
  retryable_at env s path (puts_of key w) -> (1 < numRetries)%Z ->
  attempt env s path false numRetries w
  = (Retry (numRetries - 1), w ++ round env s path).
Proof.
  intros (e & Hsend & Hclass) Hleft. unfold attempt.
  rewrite (uploadFile_live w (opens _)). fold obj in Hsend. rewrite Hsend, Hclass.
  destruct (numRetries - 1 >? 0)%Z eqn:Hpos; [| lia].
  cbv zeta. rewrite backoff_events. unfold round. rewrite app_assoc. reflexivity.
Qed.

(** A retryable failure on the last attempt: panic with the error. *)
Lemma attempt_exhausted w e :
  PutObject_Send env obj (puts_of key w) = Some e -> is_awserr e = true ->
  attempt env s path false 1 w
  = (Panicked (PanicError e), w ++ transfer env s path).
Proof.
  intros Hsend Hclass. unfold attempt.
  rewrite (uploadFile_live w (opens _)), Hsend, Hclass. reflexivity.
Qed.

Lemma attempt_succeeds numRetries w :
  PutObject_Send env obj (puts_of key w) = None ->
  attempt env s path false numRetries w
  = (Uploaded 1, w ++ transfer env s path).
Proof.
  intros Hsend. unfold attempt.
  rewrite (uploadFile_live w (opens _)), Hsend. reflexivity.
Qed.

Lemma puts_of_key_round w : puts_of key (w ++ round env s path) = S (puts_of key w).
Proof.
  unfold round. rewrite !puts_of_app, puts_of_key_transfer, puts_of_key_backoff.
  lia.
Qed.

(** [m] retryable failures followed by a failure on the last attempt. *)
Lemma retry_loop_exhausts m : forall w,
  (forall j, j <= m -> retryable_at env s path (puts_of key w + j)) ->
  exists e,
    PutObject_Send env obj (puts_of key w + m) = Some e
    /\ is_awserr e = true
    /\ retry_loop env s path false (Z.of_nat (S m)) w
       = (TaskPanic (PanicError e), w ++ rounds env s path m ++ transfer env s path).
Proof.
  induction m as [|m IH]; intros w Hfail.
  - destruct (Hfail 0 (le_n 0)) as (e & Hsend & Hclass).
    exists e. split; [exact Hsend | split; [exact Hclass |]].
    rewrite Nat.add_0_r in Hsend.
    rewrite retry_loop_pass.
    change (Z.of_nat 1) with 1%Z.
    rewrite (attempt_exhausted w e Hsend Hclass). reflexivity.
  - destruct (IH (w ++ round env s path)) as (e & Hsend & Hclass & Hloop).
    { intros j Hj. rewrite puts_of_key_round.
      replace (S (puts_of key w) + j) with (puts_of key w + S j) by lia.
      apply Hfail. lia. }
    rewrite puts_of_key_round in Hsend.
    replace (S (puts_of key w) + m) with (puts_of key w + S m) in Hsend by lia.
    exists e. split; [exact Hsend | split; [exact Hclass |]].
    rewrite retry_loop_pass.
    rewrite attempt_retries; [| | lia].
    2:{ specialize (Hfail 0 (Nat.le_0_l _)). rewrite Nat.add_0_r in Hfail.
        exact Hfail. }
    replace (Z.of_nat (S (S m)) - 1)%Z with (Z.of_nat (S m)) by lia.
    rewrite Hloop. simpl rounds. rewrite <- !app_assoc. reflexivity.
Qed.

(** [m] retryable failures followed by a success, with retries to spare. *)
Lemma retry_loop_recovers m : forall numRetries w,
  (Z.of_nat m < numRetries)%Z ->
  (forall j, j < m -> retryable_at env s path (puts_of key w + j)) ->
  PutObject_Send env obj (puts_of key w + m) = None ->
  retry_loop env s path false numRetries w
  = (TaskUploaded 1, w ++ rounds env s path m ++ transfer env s path).
Proof.
  induction m as [|m IH]; intros numRetries w Hleft Hfail Hsend.
  - rewrite Nat.add_0_r in Hsend. rewrite retry_loop_pass.
    rewrite (attempt_succeeds numRetries w Hsend). reflexivity.
  - rewrite retry_loop_pass.
    rewrite attempt_retries; [| | lia].
    2:{ specialize (Hfail 0 (Nat.lt_0_succ _)). rewrite Nat.add_0_r in Hfail.
        exact Hfail. }
    rewrite (IH (numRetries - 1)%Z (w ++ round env s path)).
    + simpl rounds. rewrite <- !app_assoc. reflexivity.
    + lia.
    + intros j Hj. rewrite puts_of_key_round.
      replace (S (puts_of key w) + j) with (puts_of key w + S j) by lia.
      apply Hfail. lia.
    + rewrite puts_of_key_round.
      replace (S (puts_of key w) + m) with (puts_of key w + S m) by lia.
      exact Hsend.
Qed.

End Transfer.

(* ================================================================== *)
(** ** Steps of the pool *)

Lemma nth_error_set_worker_eq ws : forall i wk old,
  nth_error ws i = Some old -> nth_error (set_worker i wk ws) i = Some wk.
Proof.
  induction ws as [|w0 ws IH]; intros [|i] wk old H; simpl in *;
    try discriminate; [reflexivity | exact (IH i wk old H)].
Qed.

Lemma set_worker_twice ws : forall i wk wk',
  set_worker i wk' (set_worker i wk ws) = set_worker i wk' ws.
Proof.
  induction ws as [|w0 ws IH]; intros [|i] wk wk'; simpl;
    try reflexivity. rewrite IH. reflexivity.
Qed.

Lemma set_worker_length ws : forall i wk,
  List.length (set_worker i wk ws) = List.length ws.
Proof.
  induction ws as [|w0 ws IH]; intros [|i] wk; simpl; try reflexivity.
  rewrite IH. reflexivity.
Qed.

Section PoolSteps.

Variable env : Env.
Variable s : S3Upload.
Variable dryrun : bool.

(** After the exit of the process no goroutine takes a step. *)
Lemma panic_stops_all p v i :
  panicked p = Some v -> step env s dryrun i p = None.
Proof.
  intros H. unfold step. rewrite H. reflexivity.
Qed.

Lemma step_AtRetry p i path numRetries :
  panicked p = None ->
  nth_error (workers p) i = Some (AtRetry path numRetries) ->
  step env s dryrun i p
  = Some (let (r, w) := attempt env s path dryrun numRetries (world p) in
          match r with
          | Uploaded n => with_worker p i (AtAdd n) w
          | Retry numRetries' => with_worker p i (AtRetry path numRetries') w
          | Panicked v => with_worker p i (Panicking v) w
          end).
Proof.
  intros Hp Hi. unfold step. rewrite Hp, Hi.
  destruct (attempt env s path dryrun numRetries (world p)) as [[n|r|v] w];
    reflexivity.
Qed.

(** The step of a goroutine in a panic: the process exits. *)
Lemma step_Panicking p i v :
  panicked p = None ->
  nth_error (workers p) i = Some (Panicking v) ->
  step env s dryrun i p = Some (with_panic p v (world p)).
Proof.
  intros Hp Hi. unfold step. rewrite Hp, Hi. reflexivity.
Qed.

Lemma attempt_Retry_decreases path numRetries w numRetries' w' :
  attempt env s path dryrun numRetries w = (Retry numRetries', w') ->
  (0 <= numRetries' < numRetries)%Z.
Proof.
  unfold attempt.
  destruct (uploadFile env s path dryrun w) as [[n [e|]] w1]; try discriminate.
  destruct (is_awserr e); try discriminate.
  destruct (numRetries - 1 >? 0)%Z eqn:Hpos; try discriminate.
  intros H; injection H as <- _. lia.
Qed.

Lemma exec_app a b p :
  exec env s dryrun (a ++ b) p = exec env s dryrun b (exec env s dryrun a p).
Proof.
  revert p. induction a as [|j a IH]; intros p; [reflexivity|].
  simpl. destruct (step env s dryrun j p); apply IH.
Qed.

Lemma exec_cons i sched p p' :
  step env s dryrun i p = Some p' ->
  exec env s dryrun (i :: sched) p = exec env s dryrun sched p'.
Proof.
  intros H. simpl. rewrite H. reflexivity.
Qed.

(** A goroutine that is left alone with its task takes the steps of the
    retry loop: the pool semantics and [retry_loop] agree. *)
Lemma solo_task i path : forall numRetries p,
  panicked p = None ->
  nth_error (workers p) i = Some (AtRetry path numRetries) ->
  exists k,
    after_task p i (retry_loop env s path dryrun numRetries (world p))
      (exec env s dryrun (repeat i (S k)) p).
Proof.
  intros numRetries.
  induction numRetries as [numRetries IH] using (well_founded_induction (Z.lt_wf 0)).
  intros p Hp Hi.
  pose proof (step_AtRetry p i path numRetries Hp Hi) as Hstep.
  rewrite retry_loop_pass.
  destruct (attempt env s path dryrun numRetries (world p)) as [[n|r|v] w] eqn:Ha.
  - exists 0. simpl. rewrite Hstep. reflexivity.
  - pose proof (attempt_Retry_decreases _ _ _ _ _ Ha) as Hdec.
    destruct (IH r Hdec (with_worker p i (AtRetry path r) w) eq_refl)
      as (k & Hafter).
    { simpl. apply (nth_error_set_worker_eq _ _ _ _ Hi). }
    exists (S k). change (repeat i (S (S k))) with (i :: repeat i (S k)).
    rewrite (exec_cons _ _ _ _ Hstep).
    simpl world in Hafter.
    destruct (retry_loop env s path dryrun r w) as [[n|v] w']; simpl in *.
    + rewrite Hafter. unfold with_worker. simpl.
      rewrite set_worker_twice. reflexivity.
    + rewrite Hafter. unfold with_worker. simpl.
      rewrite set_worker_twice. reflexivity.
  - exists 0. simpl. rewrite Hstep. reflexivity.
Qed.

(** A goroutine that is left alone with a task that ends in a panic
    takes the process down: after the steps of the retry loop, its next
    step is the exit. *)
Lemma solo_panic i path numRetries p v w :
  panicked p = None ->
  nth_error (workers p) i = Some (AtRetry path numRetries) ->
  retry_loop env s path dryrun numRetries (world p) = (TaskPanic v, w) ->
  exists n,
    exec env s dryrun (repeat i n) p
    = with_panic (with_worker p i (Panicking v) w) v w.
Proof.
  intros Hp Hi Hloop.
  destruct (solo_task i path numRetries p Hp Hi) as (k & Hafter).
  rewrite Hloop in Hafter. unfold after_task in Hafter.
  exists (S k + 1). rewrite repeat_app, exec_app, Hafter.
  change (repeat i 1) with [i]. unfold exec.
  rewrite (step_Panicking (with_worker p i (Panicking v) w) i v eq_refl).
  - reflexivity.
  - simpl. exact (nth_error_set_worker_eq _ _ _ _ Hi).
Qed.

End PoolSteps.

Lemma puts_app (a b : World) : puts (a ++ b) = puts a + puts b.
Proof. unfold puts. rewrite filter_app, length_app. reflexivity. Qed.

Lemma sleeps_app (a b : World) : sleeps (a ++ b) = sleeps a + sleeps b.
Proof. unfold sleeps. rewrite filter_app, length_app. reflexivity. Qed.

(** C1.  Retry bound, for a task whose file opens.  When the request
    fails with a retryable error on every attempt, the retry loop makes
    exactly 30 attempts: 29 rounds of a transfer followed by the notice
    "failed to upload <path>, retrying in 1 second ..." and a pause, then
    the 30th transfer.  The pauses are 29, each of 1000000000 nanoseconds,
    and the notice is printed 29 times.  After the 30th transfer the
    goroutine panics with the error, and its panic ends the process: left
    to run, the goroutine takes the process down, after which no goroutine
    takes a step.  When the request succeeds on attempt [k <= 30], after
    [k - 1] retryable failures, the loop ends with count 1 after exactly
    [k] attempts, [k - 1] notices and [k - 1] pauses of one second. *)
Theorem retry_bound (env : Env) (s : S3Upload) (path : string) (w : World) :
  (forall k, os_Open env (localName s path) k = None) ->
  ((forall j, retryable_at env s path (puts_of (destPath s path) w + j)) ->
   exists e,
     is_awserr e = true
     /\ uploadTask env s path false w
        = (TaskPanic (PanicError e),
           w ++ rounds env s path 29 ++ transfer env s path)
     /\ puts (rounds env s path 29 ++ transfer env s path) = 30
     /\ sleeps (rounds env s path 29 ++ transfer env s path) = 29
     /\ pauses (rounds env s path 29 ++ transfer env s path)
        = repeat 1000000000%Z 29
     /\ prints_of ("failed to upload " ++ path ++ ", retrying in 1 second ..."
                   ++ newline)
          (rounds env s path 29 ++ transfer env s path) = 29
     /\ forall p i,
          panicked p = None ->
          nth_error (workers p) i = Some (AtRetry path 30) ->
          world p = w ->
          exists n,
            let p' := exec env s false (repeat i n) p in
            panicked p' = Some (PanicError e)
            /\ world p' = w ++ rounds env s path 29 ++ transfer env s path
            /\ forall j, step env s false j p' = None)
  /\ (forall k, 1 <= k <= 30 ->
      (forall j, j < k - 1 ->
                 retryable_at env s path (puts_of (destPath s path) w + j)) ->
      PutObject_Send env (putObjectInput env s path)
        (puts_of (destPath s path) w + (k - 1)) = None ->
      uploadTask env s path false w
      = (TaskUploaded 1, w ++ rounds env s path (k - 1) ++ transfer env s path)
      /\ puts (rounds env s path (k - 1) ++ transfer env s path) = k
      /\ sleeps (rounds env s path (k - 1) ++ transfer env s path) = k - 1
      /\ pauses (rounds env s path (k - 1) ++ transfer env s path)
         = repeat 1000000000%Z (k - 1)
      /\ prints_of ("failed to upload " ++ path ++ ", retrying in 1 second ..."
                    ++ newline)
           (rounds env s path (k - 1) ++ transfer env s path) = k - 1).
Proof.
  intros Hopen.
  assert (Hpauses : forall m,
            pauses (rounds env s path m ++ transfer env s path)
            = repeat 1000000000%Z m).
  { intros m. rewrite pauses_app, pauses_rounds. apply app_nil_r. }
  assert (Hnotices : forall m,
            prints_of ("failed to upload " ++ path ++ ", retrying in 1 second ..."
                       ++ newline)
              (rounds env s path m ++ transfer env s path) = m).
  { intros m. change ("failed to upload " ++ path ++ ", retrying in 1 second ..."
                      ++ newline)%string with (retry_notice path).
    rewrite prints_of_app, notices_rounds, notices_transfer. lia. }
  split.
  - intros Hfail.
    destruct (retry_loop_exhausts env s path Hopen 29 w) as (e & _ & Hclass & Hloop).
    { intros j _. apply Hfail. }
    change (Z.of_nat 30) with 30%Z in Hloop.
    exists e. split; [exact Hclass |]. split; [exact Hloop |].
    split; [rewrite puts_app, puts_rounds; reflexivity |].
    split; [rewrite sleeps_app, sleeps_rounds; reflexivity |].
    split; [apply Hpauses |]. split; [apply Hnotices |].
    intros p i Hp Hi Hw.
    rewrite <- Hw in Hloop.
    destruct (solo_panic env s false i path 30 p _ _ Hp Hi Hloop) as (n & Hexec).
    exists n. cbv zeta. rewrite Hexec, Hw.
    split; [reflexivity | split; [reflexivity |]].
    intros j. apply (panic_stops_all env s false _ (PanicError e)). reflexivity.
  - intros k Hk Hfail Hsend. split.
    + unfold uploadTask.
      apply (retry_loop_recovers env s path Hopen (k - 1) 30 w);
        [lia | exact Hfail | exact Hsend].
    + split; [| split; [| split; [apply Hpauses | apply Hnotices]]].
      * rewrite puts_app, puts_rounds.
        change (puts (transfer env s path)) with 1. lia.
      * rewrite sleeps_app, sleeps_rounds.
        change (sleeps (transfer env s path)) with 0. lia.
Qed.

Lemma retry_bound_witness :
  let s := Demo.uploader "/srv/www" "site" ["sub/*"] in
  let down :=
    {| zglob_Match := Demo.Match; mime_TypeByExtension := Demo.TypeByExtension;
       fs := Demo.scenario_fs; os_Open := fun _ _ => None;
       PutObject_Send := fun _ _ => Some (AwsError "RequestTimeout" "timed out") |} in
  let flaky :=
    {| zglob_Match := Demo.Match; mime_TypeByExtension := Demo.TypeByExtension;
       fs := Demo.scenario_fs; os_Open := fun _ _ => None;
       PutObject_Send := fun _ k =>
         if Nat.ltb k 3 then Some (AwsError "SlowDown" "reduce your request rate")
         else None |} in
  (exists e, uploadTask down s "a.txt" false []
             = (TaskPanic (PanicError e),
                rounds down s "a.txt" 29 ++ transfer down s "a.txt"))
  /\ uploadTask flaky s "a.txt" false []
     = (TaskUploaded 1,
        [EvOpen "/srv/www/a.txt";
         EvPrint ("uploading /site/a.txt ..." ++ newline);
         EvPut (putObjectInput flaky s "a.txt");
         EvPrint ("failed to upload a.txt, retrying in 1 second ..." ++ newline);
         EvSleep 1000000000;
         EvOpen "/srv/www/a.txt";
         EvPrint ("uploading /site/a.txt ..." ++ newline);
         EvPut (putObjectInput flaky s "a.txt");
         EvPrint ("failed to upload a.txt, retrying in 1 second ..." ++ newline);
         EvSleep 1000000000;
         EvOpen "/srv/www/a.txt";
         EvPrint ("uploading /site/a.txt ..." ++ newline);
         EvPut (putObjectInput flaky s "a.txt");
         EvPrint ("failed to upload a.txt, retrying in 1 second ..." ++ newline);
         EvSleep 1000000000;
         EvOpen "/srv/www/a.txt";
         EvPrint ("uploading /site/a.txt ..." ++ newline);
         EvPut (putObjectInput flaky s "a.txt")]).
Proof.
  intros s down flaky. split.
  - destruct (proj1 (retry_bound down s "a.txt" [] (fun _ => eq_refl)))
      as (e & _ & Hrun & _).
    + intros j. exists (AwsError "RequestTimeout" "timed out").
      split; reflexivity.
    + exists e. exact Hrun.
  - refine (proj1 (proj2 (retry_bound flaky s "a.txt" [] (fun _ => eq_refl))
                     4 _ _ _)).
    + lia.
    + intros j Hj. exists (AwsError "SlowDown" "reduce your request rate").
      split; [| reflexivity].
      simpl. destruct (Nat.ltb_spec j 3); [reflexivity | lia].
    + reflexivity.
Defined.

(** C7.  Error classes.  An error of [uploadFile] that passes the type
    assertion [err.(awserr.Error)] is retried while retries are left:
    the goroutine prints the notice, sleeps and comes back to [RETRY] with
    the same task and one retry less.  Every other error is fatal at once:
    the goroutine panics in the same pass, whatever the number of retries
    left; its next step is the exit of the process in that panic, after
    which no goroutine of the pool takes a step.  A failure to open the
    local file is of the second kind: the task ends in a panic after the
    one call of [os.Open], with no request, notice or pause. *)
Theorem error_classes (env : Env) (s : S3Upload) (path : string) (dryrun : bool)
  (numRetries : Z) (w : World) :
  (forall n e w1,
     uploadFile env s path dryrun w = ((n, Some e), w1) ->
     is_awserr e = true ->
     (1 < numRetries)%Z ->
     attempt env s path dryrun numRetries w
     = (Retry (numRetries - 1), w1 ++ backoff path)
     /\ retry_loop env s path dryrun numRetries w
        = retry_loop env s path dryrun (numRetries - 1) (w1 ++ backoff path))
  /\ (forall n e w1,
        uploadFile env s path dryrun w = ((n, Some e), w1) ->
        is_awserr e = false ->
        attempt env s path dryrun numRetries w = (Panicked (unknown_error e), w1)
        /\ retry_loop env s path dryrun numRetries w
           = (TaskPanic (unknown_error e), w1)
        /\ forall p i,
             panicked p = None ->
             nth_error (workers p) i = Some (AtRetry path numRetries) ->
             world p = w ->
             exists p' p'',
               step env s dryrun i p = Some p'
               /\ nth_error (workers p') i = Some (Panicking (unknown_error e))
               /\ world p' = w1
               /\ step env s dryrun i p' = Some p''
               /\ panicked p'' = Some (unknown_error e)
               /\ world p'' = w1
               /\ forall j, step env s dryrun j p'' = None)
  /\ (forall reason,
        os_Open env (localName s path) (opens_of (localName s path) w) = Some reason ->
        retry_loop env s path dryrun numRetries w
        = (TaskPanic (unknown_error (PathError "open" (localName s path) reason)),
           w ++ [EvOpen (localName s path)])).
Proof.
  assert (Hfatal : forall n e w1,
            uploadFile env s path dryrun w = ((n, Some e), w1) ->
            is_awserr e = false ->
            attempt env s path dryrun numRetries w
            = (Panicked (unknown_error e), w1)).
  { intros n e w1 Hup Hclass. unfold attempt. rewrite Hup, Hclass. reflexivity. }
  split; [| split].
  - intros n e w1 Hup Hclass Hleft.
    assert (Ha : attempt env s path dryrun numRetries w
                 = (Retry (numRetries - 1), w1 ++ backoff path)).
    { unfold attempt. rewrite Hup, Hclass.
      destruct (numRetries - 1 >? 0)%Z eqn:Hpos; [| lia].
      cbv zeta. rewrite backoff_events. reflexivity. }
    split; [exact Ha |].
    rewrite (retry_loop_pass env s path dryrun numRetries w), Ha. reflexivity.
  - intros n e w1 Hup Hclass.
    pose proof (Hfatal n e w1 Hup Hclass) as Ha.
    split; [exact Ha |]. split.
    + rewrite retry_loop_pass, Ha. reflexivity.
    + intros p i Hp Hi Hw.
      assert (Hpanic : nth_error (workers (with_worker p i
                                             (Panicking (unknown_error e)) w1)) i
                       = Some (Panicking (unknown_error e)))
        by exact (nth_error_set_worker_eq _ _ _ _ Hi).
      exists (with_worker p i (Panicking (unknown_error e)) w1).
      eexists. split.
      * rewrite (step_AtRetry env s dryrun p i path numRetries Hp Hi), Hw, Ha.
        reflexivity.
      * split; [exact Hpanic | split; [reflexivity |]].
        split; [exact (step_Panicking env s dryrun
                         (with_worker p i (Panicking (unknown_error e)) w1)
                         i _ eq_refl Hpanic) |].
        split; [reflexivity | split; [reflexivity |]].
        intros j. apply (panic_stops_all env s dryrun _ (unknown_error e)).
        reflexivity.
  - intros reason Hopen.
    rewrite retry_loop_pass.
    rewrite (Hfatal 0%Z (PathError "open" (localName s path) reason)
               (w ++ [EvOpen (localName s path)])); [reflexivity | | reflexivity].
    apply uploadFile_open_fails. exact Hopen.
Qed.

Lemma error_classes_witness :
  let s := Demo.uploader "/srv/www" "site" [] in
  let unreadable :=
    {| zglob_Match := Demo.Match; mime_TypeByExtension := Demo.TypeByExtension;
       fs := Demo.scenario_fs;
       os_Open := fun _ _ => Some "permission denied";
       PutObject_Send := fun _ _ => None |} in
  uploadTask unreadable s "a.txt" false []
  = (TaskPanic (PanicString "unknown error! open /srv/www/a.txt: permission denied"),
     [EvOpen "/srv/www/a.txt"]).
Proof.
  intros s unreadable.
  exact (proj2 (proj2 (error_classes unreadable s "a.txt" false 30 []))
           "permission denied" eq_refl).
Defined.

(* ================================================================== *)
(** ** Runs of the pool *)

Lemma sum_set_worker f ws : forall i wk old,
  nth_error ws i = Some old ->
  sum_workers f (set_worker i wk ws) + f old = sum_workers f ws + f wk.
Proof.
  induction ws as [|w0 ws IH]; intros [|i] wk old H; simpl in *;
    try discriminate.
  - injection H as ->. lia.
  - specialize (IH i wk old H). lia.
Qed.

Lemma Forall_set_worker (P : worker -> Prop) ws : forall i wk,
  Forall P ws -> P wk -> Forall P (set_worker i wk ws).
Proof.
  induction ws as [|w0 ws IH]; intros [|i] wk Hall Hwk; simpl;
    try exact Hall; inversion Hall; subst; constructor; auto.
Qed.

Lemma Forall_nth_error (P : worker -> Prop) ws i wk :
  Forall P ws -> nth_error ws i = Some wk -> P wk.
Proof.
  intros Hall Hi. rewrite Forall_forall in Hall.
  apply Hall. exact (nth_error_In _ _ Hi).
Qed.

Lemma sum_workers_repeat f wk n : sum_workers f (repeat wk n) = n * f wk.
Proof.
  induction n as [|n IH]; simpl; [reflexivity | rewrite IH; reflexivity].
Qed.

Lemma Forall_repeat (P : worker -> Prop) wk n : P wk -> Forall P (repeat wk n).
Proof.
  intros H. apply Forall_forall. intros x Hx. apply repeat_spec in Hx.
  subst x. exact H.
Qed.

Section Runs.

Variable env : Env.
Variable s : S3Upload.
Variable dryrun : bool.

Lemma step_moves p i p' :
  step env s dryrun i p = Some p' ->
  panicked p = None /\ moves env s dryrun p i p'.
Proof.
  unfold step. destruct (panicked p) as [v|] eqn:Hp; [discriminate|].
  destruct (nth_error (workers p) i) as [[|path numRetries|n| |v]|] eqn:Hi;
    try discriminate.
  - destruct (fch p) as [|path rest] eqn:Hq; intros H; injection H as <-;
      split; try reflexivity.
    + apply move_return; assumption.
    + apply move_receive; assumption.
  - destruct (attempt env s path dryrun numRetries (world p)) as [[n|r|v] w] eqn:Ha;
      intros H; injection H as <-; split; try reflexivity.
    + eapply move_uploaded; eassumption.
    + eapply move_retry; eassumption.
    + eapply move_panic; eassumption.
  - intros H; injection H as <-. split; [reflexivity|].
    apply move_add; assumption.
  - intros H; injection H as <-. split; [reflexivity|].
    apply move_exit; assumption.
Qed.

(** A property of pools that every step keeps holds along every run. *)
Lemma exec_invariant (I : pool -> Prop) :
  (forall p i p', I p -> panicked p = None -> moves env s dryrun p i p' -> I p') ->
  forall sched p, I p -> I (exec env s dryrun sched p).
Proof.
  intros Hkeep. induction sched as [|i sched IH]; intros p Hp; [exact Hp|].
  simpl. destruct (step env s dryrun i p) as [p'|] eqn:Hstep.
  - apply IH. destruct (step_moves p i p' Hstep) as [Hnp Hm].
    exact (Hkeep p i p' Hp Hnp Hm).
  - apply IH, Hp.
Qed.

(** Every step lowers the fuel: no run goes on for ever. *)
Lemma step_fuel p i p' :
  step env s dryrun i p = Some p' -> fuel p' < fuel p.
Proof.
  intros Hstep. destruct (step_moves p i p' Hstep) as [Hnp Hm].
  unfold fuel at 2. rewrite Hnp.
  destruct Hm as [Hi Hq | path rest Hi Hq | path nr n w Hi Ha
                 | path nr nr' w Hi Ha | path nr v w Hi Ha | n Hi | v Hi];
    unfold fuel; simpl.
  - pose proof (sum_set_worker weight (workers p) i Returned _ Hi) as H.
    simpl in H. lia.
  - pose proof (sum_set_worker weight (workers p) i (AtRetry path 30) _ Hi) as H.
    rewrite Hq. simpl in *. lia.
  - pose proof (sum_set_worker weight (workers p) i (AtAdd n) _ Hi) as H.
    simpl in H. lia.
  - pose proof (sum_set_worker weight (workers p) i (AtRetry path nr') _ Hi) as H.
    pose proof (attempt_Retry_decreases env s dryrun _ _ _ _ _ Ha).
    simpl in H. lia.
  - pose proof (sum_set_worker weight (workers p) i (Panicking v) _ Hi) as H.
    simpl in H. lia.
  - pose proof (sum_set_worker weight (workers p) i AtRange _ Hi) as H.
    simpl in H. lia.
  - pose proof (sum_set_worker weight (workers p) i Returned _ Hi) as H.
    simpl in H. lia.
Qed.

Lemma exec_fuel sched : forall p, fuel (exec env s dryrun sched p) <= fuel p.
Proof.
  induction sched as [|i sched IH]; intros p; simpl; [lia|].
  destruct (step env s dryrun i p) as [p'|] eqn:Hstep; [| apply IH].
  pose proof (step_fuel p i p' Hstep). pose proof (IH p'). lia.
Qed.

(** While goroutines are running, one of them can take a step. *)
Lemma progress p :
  verdict p = Running -> exists i p', step env s dryrun i p = Some p'.
Proof.
  unfold verdict, step, all_done.
  destruct (panicked p) as [v|]; [discriminate|].
  destruct (forallb is_done (workers p)) eqn:Hall; [discriminate|].
  intros _.
  assert (Hex : exists i wk, nth_error (workers p) i = Some wk
                             /\ is_done wk = false).
  { clear -Hall. induction (workers p) as [|w0 ws IH]; [discriminate|].
    simpl in Hall. destruct (is_done w0) eqn:Hw0.
    - destruct (IH Hall) as (i & wk & Hi & Hwk). exists (S i), wk. auto.
    - exists 0, w0. auto. }
  destruct Hex as (i & wk & Hi & Hwk). exists i. rewrite Hi.
  destruct wk as [|path nr|n| |v]; try discriminate.
  - destruct (fch p); eexists; reflexivity.
  - destruct (attempt env s path dryrun nr (world p)) as [[n|r|v] w];
      eexists; reflexivity.
  - eexists; reflexivity.
Qed.

(** Every run can be continued to its end: [Upload] returns or the
    process has exited. *)
Lemma completion : forall p,
  exists more, verdict (exec env s dryrun more p) <> Running.
Proof.
  intros p. remember (fuel p) as f eqn:Hf. revert p Hf.
  induction f as [f IH] using lt_wf_ind. intros p Hf.
  destruct (verdict p) eqn:Hv.
  - exists []. simpl. rewrite Hv. discriminate.
  - exists []. simpl. rewrite Hv. discriminate.
  - destruct (progress p Hv) as (i & p' & Hstep).
    pose proof (step_fuel p i p' Hstep) as Hlt.
    destruct (IH (fuel p') ltac:(lia) p' eq_refl) as (more & Hmore).
    exists (i :: more). simpl. rewrite Hstep. exact Hmore.
Qed.

End Runs.

(** C10.  With a parallelism that is not positive no goroutine is
    started: whatever the schedule, nothing happens, the enumerated tasks
    stay in the channel, and [Upload] returns 0 and no error. *)
Theorem no_workers_no_uploads (env : Env) (s : S3Upload) (parallel : Z)
  (dryrun : bool) (files : list string) :
  (parallel <= 0)%Z ->
  sourceFiles env s = (files, None) ->
  workers (start files parallel) = []
  /\ forall sched,
       exec env s dryrun sched (start files parallel) = start files parallel
       /\ fch (exec env s dryrun sched (start files parallel)) = files
       /\ Upload env s parallel dryrun sched = (Return 0 None, []).
Proof.
  intros Hpar Hfiles.
  assert (Hnone : workers (start files parallel) = []).
  { unfold start. simpl. replace (Z.to_nat parallel) with 0 by lia. reflexivity. }
  assert (Hexec : forall sched,
            exec env s dryrun sched (start files parallel) = start files parallel).
  { induction sched as [|i sched IH]; [reflexivity|].
    simpl exec. unfold step at 1. rewrite Hnone.
    change (panicked (start files parallel)) with (@None panic_value).
    destruct i; simpl nth_error; cbv iota; exact IH. }
  split; [exact Hnone |]. intros sched.
  split; [apply Hexec | split; [rewrite Hexec; reflexivity |]].
  unfold Upload. rewrite Hfiles, Hexec.
  unfold verdict, all_done. rewrite Hnone. reflexivity.
Qed.

Lemma no_workers_no_uploads_witness :
  let env := Demo.env_with Demo.scenario_fs in
  let s := Demo.uploader "/srv/www" "site" ["sub/*"] in
  sourceFiles env s = (["a.txt"; "b.png"], None)
  /\ Upload env s 0 false [0; 1; 0] = (Return 0 None, []).
Proof.
  intros env s. split; [reflexivity |].
  exact (proj2 (proj2 (proj2 (no_workers_no_uploads env s 0 false
                                ["a.txt"; "b.png"] ltac:(lia) eq_refl)
                         [0; 1; 0]))).
Defined.

(* ================================================================== *)
(** ** Dry runs *)

Section DryRun.

Variable env : Env.
Variable s : S3Upload.

(** A dry pass sends no request and uploads nothing. *)
Lemma attempt_dry path numRetries w r w' :
  attempt env s path true numRetries w = (r, w') ->
  puts w' = puts w /\ forall n, r = Uploaded n -> n = 0%Z.
Proof.
  unfold attempt, uploadFile.
  destruct (os_Open env (localName s path) (opens_of (localName s path) w))
    as [reason|]; simpl; intros H; injection H as <- <-.
  - split; [| discriminate].
    unfold puts. rewrite filter_app, length_app. simpl. lia.
  - split; [| intros n H; injection H as <-; reflexivity].
    unfold puts. rewrite !filter_app, !length_app. simpl. lia.
Qed.

(** A dry pass on a file that opens ends the task. *)
Lemma attempt_dry_opens path numRetries w :
  os_Open env (localName s path) (opens_of (localName s path) w) = None ->
  attempt env s path true numRetries w = (Uploaded 0, w ++ rehearsal s path).
Proof.
  intros Hopen. unfold attempt. rewrite (uploadFile_dry env s path w Hopen).
  reflexivity.
Qed.

Lemma dry_start files parallel : dry (start files parallel).
Proof.
  unfold dry, start. simpl. split; [reflexivity | split; [reflexivity |]].
  apply Forall_forall. intros wk Hin. apply repeat_spec in Hin. subst wk.
  exact I.
Qed.

Lemma dry_kept p i p' :
  dry p -> panicked p = None -> moves env s true p i p' -> dry p'.
Proof.
  intros (Hnum & Hputs & Hadds) _ Hm.
  destruct Hm as [Hi Hq | path rest Hi Hq | path nr n w Hi Ha
                 | path nr nr' w Hi Ha | path nr v w Hi Ha | n Hi | v Hi];
    unfold dry; simpl;
    try (destruct (attempt_dry _ _ _ _ _ Ha) as [Hw Hn]; rewrite Hw).
  - repeat split; try assumption. apply Forall_set_worker; [assumption | exact I].
  - repeat split; try assumption. apply Forall_set_worker; [assumption | exact I].
  - repeat split; try assumption.
    apply Forall_set_worker; [assumption | exact (Hn n eq_refl)].
  - repeat split; try assumption. apply Forall_set_worker; [assumption | exact I].
  - repeat split; try assumption. apply Forall_set_worker; [assumption | exact I].
  - pose proof (Forall_nth_error _ _ _ _ Hadds Hi) as Hn0. simpl in Hn0.
    subst n. rewrite Hnum.
    repeat split; try assumption. apply Forall_set_worker; [assumption | exact I].
  - repeat split; assumption.
Qed.

Lemma dry_exec sched p : dry p -> dry (exec env s true sched p).
Proof.
  apply (exec_invariant env s true dry). exact dry_kept.
Qed.

(** When every file opens, no goroutine of a dry run panics. *)
Lemma dry_opens_kept p i p' :
  (forall name k, os_Open env name k = None) ->
  calm p -> moves env s true p i p' -> calm p'.
Proof.
  intros Hopen [Hp Hcalm] Hm.
  destruct Hm as [Hi Hq | path rest Hi Hq | path nr n w Hi Ha
                 | path nr nr' w Hi Ha | path nr v w Hi Ha | n Hi | v Hi];
    try (split; [reflexivity | apply Forall_set_worker; [assumption | exact I]]).
  - rewrite (attempt_dry_opens path nr (world p) (Hopen _ _)) in Ha.
    discriminate.
  - exfalso. exact (Forall_nth_error _ _ _ _ Hcalm Hi).
Qed.

End DryRun.

(** C4.  Dry-run no-op.  Whatever the task list, the parallelism and the
    schedule, a dry run never sends a request, and the count it returns is
    0.  Every dry run can be continued to its end; when every file opens,
    that end is the return of count 0 (otherwise the run may stop in the
    panic for the file that does not open). *)
Theorem dry_run_no_transfer (env : Env) (s : S3Upload) (parallel : Z) :
  (forall sched,
     puts (snd (Upload env s parallel true sched)) = 0
     /\ forall n err, fst (Upload env s parallel true sched) = Return n err ->
                      n = 0%Z)
  /\ (forall sched, exists more,
        fst (Upload env s parallel true (sched ++ more)) <> Running)
  /\ ((forall name k, os_Open env name k = None) ->
      forall sched, exists more err,
        fst (Upload env s parallel true (sched ++ more)) = Return 0 err).
Proof.
  assert (Hdry : forall files sched,
            dry (exec env s true sched (start files parallel))).
  { intros files sched. apply dry_exec, dry_start. }
  split; [| split].
  - intros sched. unfold Upload.
    destruct (sourceFiles env s) as [files [e|]].
    + simpl. split; [reflexivity |]. intros n err H. injection H as <- _.
      reflexivity.
    + destruct (Hdry files sched) as (Hnum & Hputs & _). simpl.
      split; [exact Hputs |]. intros n err. unfold verdict.
      destruct (panicked _); [discriminate |].
      destruct (all_done _); [| discriminate].
      intros H. injection H as <- _. exact Hnum.
  - intros sched. unfold Upload.
    destruct (sourceFiles env s) as [files [e|]].
    + exists []. simpl. discriminate.
    + destruct (completion env s true (exec env s true sched (start files parallel)))
        as (more & Hmore).
      exists more. simpl. rewrite exec_app. exact Hmore.
  - intros Hopen sched. unfold Upload.
    destruct (sourceFiles env s) as [files [e|]].
    + exists [], (Some e). reflexivity.
    + destruct (completion env s true (exec env s true sched (start files parallel)))
        as (more & Hmore).
      exists more, None. simpl. rewrite exec_app in *.
      set (p := exec env s true more (exec env s true sched (start files parallel))) in *.
      assert (Hnp : panicked p = None).
      { unfold p. rewrite <- exec_app.
        apply (exec_invariant env s true calm).
        - intros q i q' Hq _. apply dry_opens_kept; assumption.
        - split; [reflexivity | apply Forall_repeat; exact I]. }
      assert (Hd : dry p) by (unfold p; apply dry_exec, Hdry).
      destruct Hd as (Hnum & _). unfold verdict in *. rewrite Hnp in *.
      destruct (all_done p); [| congruence].
      rewrite Hnum. reflexivity.
Qed.

Lemma dry_run_no_transfer_witness :
  let env := Demo.env_with Demo.scenario_fs in
  let s := Demo.uploader "/srv/www" "site" ["sub/*"] in
  exists more err, fst (Upload env s 2 true ([0; 1] ++ more)) = Return 0 err.
Proof.
  intros env s.
  exact (proj2 (proj2 (dry_run_no_transfer env s 2)) (fun _ _ => eq_refl) [0; 1]).
Defined.

(* ================================================================== *)
(** ** Live runs in which every first attempt succeeds *)

Section LiveRun.

Variable env : Env.
Variable s : S3Upload.
Variable files : list string.

Lemma live_start parallel : live s files (start files parallel).
Proof.
  constructor; unfold start, pending; simpl;
    try (apply Forall_repeat; exact I).
  - reflexivity.
  - auto.
  - intros name. rewrite sum_workers_repeat. simpl. lia.
  - intros key. rewrite sum_workers_repeat. simpl. lia.
  - rewrite sum_workers_repeat. simpl. lia.
  - lia.
  - right. apply Forall_repeat. exact I.
Qed.

Lemma in_hand_le f ws i path numRetries :
  nth_error ws i = Some (AtRetry path numRetries) ->
  f path <= sum_workers (in_hand f) ws.
Proof.
  intros Hi.
  pose proof (sum_set_worker (in_hand f) ws i AtRange _ Hi) as H.
  simpl in H. lia.
Qed.

(** A live s files pass whose open and request succeed. *)
Lemma attempt_first_try path numRetries w :
  os_Open env (localName s path) (opens_of (localName s path) w) = None ->
  PutObject_Send env (putObjectInput env s path) (puts_of (destPath s path) w) = None ->
  attempt env s path false numRetries w = (Uploaded 1, w ++ transfer env s path).
Proof.
  intros Hopen Hsend. unfold attempt.
  rewrite (uploadFile_live env s path w Hopen), Hsend. reflexivity.
Qed.

Lemma opens_of_transfer name path w :
  opens_of name (w ++ transfer env s path) = opens_of name w + named s name path.
Proof.
  rewrite opens_of_app. unfold transfer, named. simpl. lia.
Qed.

Lemma puts_of_transfer key path w :
  puts_of key (w ++ transfer env s path) = puts_of key w + keyed s key path.
Proof.
  rewrite puts_of_app. unfold transfer, keyed. simpl. lia.
Qed.

Hypothesis first_try : first_attempts_succeed env s files.
Hypothesis fits : (Z.of_nat (List.length files) <= max_int)%Z.

(** In such a run a pass is the first and last of its task. *)
Lemma live_attempt p i path numRetries :
  live s files p ->
  nth_error (workers p) i = Some (AtRetry path numRetries) ->
  attempt env s path false numRetries (world p)
  = (Uploaded 1, world p ++ transfer env s path).
Proof.
  intros Hlive Hi.
  pose proof (Forall_nth_error _ _ _ _ (live_hands s files p Hlive) Hi) as Hin.
  simpl in Hin. destruct (first_try path Hin) as [Hopen Hsend].
  apply attempt_first_try.
  - apply Hopen.
    pose proof (live_opens s files p Hlive (localName s path)) as Hle.
    pose proof (in_hand_le (named s (localName s path)) _ _ _ _ Hi) as Hhand.
    unfold pending in Hle. unfold named at 1 in Hhand.
    rewrite String.eqb_refl in Hhand. lia.
  - apply Hsend.
    pose proof (live_puts s files p Hlive (destPath s path)) as Hle.
    pose proof (in_hand_le (keyed s (destPath s path)) _ _ _ _ Hi) as Hhand.
    unfold pending in Hle. unfold keyed at 1 in Hhand.
    rewrite String.eqb_refl in Hhand. lia.
Qed.

Lemma live_kept p i p' :
  live s files p -> panicked p = None -> moves env s false p i p' -> live s files p'.
Proof.
  intros Hlive _ Hm.
  destruct Hlive
    as [Hrun Hqueue Hhands Hadds Hopens Hputs Hcount Hnum Hdrained Hcalm].
  pose proof (Build_live s files p Hrun Hqueue Hhands Hadds Hopens Hputs Hcount
                Hnum Hdrained Hcalm) as Hlive.
  destruct Hm as [Hi Hq | path rest Hi Hq | path nr n w Hi Ha
                 | path nr nr' w Hi Ha | path nr v w Hi Ha | n Hi | v Hi];
    try (rewrite (live_attempt p i path nr Hlive Hi) in Ha;
         try discriminate; injection Ha as <- <-).
  - (* the channel is empty and closed: the goroutine returns *)
    constructor; unfold pending in *; simpl; try assumption; try reflexivity.
    + intros path [].
    + apply Forall_set_worker; [assumption | exact I].
    + apply Forall_set_worker; [assumption | exact I].
    + intros name. specialize (Hopens name). rewrite Hq in Hopens.
      pose proof (sum_set_worker (in_hand (named s name)) _ i Returned _ Hi) as H.
      simpl in *. lia.
    + intros key. specialize (Hputs key). rewrite Hq in Hputs.
      pose proof (sum_set_worker (in_hand (keyed s key)) _ i Returned _ Hi) as H.
      simpl in *. lia.
    + rewrite Hq in Hcount.
      pose proof (sum_set_worker busy _ i Returned _ Hi) as H.
      simpl in *. lia.
    + left. reflexivity.
    + apply Forall_set_worker; [assumption | exact I].
  - (* a task is received *)
    assert (Hlisted : In path files) by (apply Hqueue; rewrite Hq; left; reflexivity).
    constructor; unfold pending in *; simpl; try assumption; try reflexivity.
    + intros q Hin. apply Hqueue. rewrite Hq. right. exact Hin.
    + apply Forall_set_worker; [assumption | exact Hlisted].
    + apply Forall_set_worker; [assumption | exact I].
    + intros name. specialize (Hopens name). rewrite Hq in Hopens.
      pose proof (sum_set_worker (in_hand (named s name)) _ i (AtRetry path 30) _ Hi) as H.
      simpl in *. lia.
    + intros key. specialize (Hputs key). rewrite Hq in Hputs.
      pose proof (sum_set_worker (in_hand (keyed s key)) _ i (AtRetry path 30) _ Hi) as H.
      simpl in *. lia.
    + rewrite Hq in Hcount.
      pose proof (sum_set_worker busy _ i (AtRetry path 30) _ Hi) as H.
      simpl in *. lia.
    + right. destruct Hdrained as [Hempty | Hnone]; [congruence |].
      apply Forall_set_worker; [assumption | exact I].
    + apply Forall_set_worker; [assumption | exact I].
  - (* the first attempt succeeds *)
    constructor; unfold pending in *; simpl; try assumption; try reflexivity.
    + apply Forall_set_worker; [assumption | exact I].
    + apply Forall_set_worker; [assumption | reflexivity].
    + intros name. specialize (Hopens name). rewrite opens_of_transfer.
      pose proof (sum_set_worker (in_hand (named s name)) _ i (AtAdd 1) _ Hi) as H.
      simpl in *. lia.
    + intros key. specialize (Hputs key). rewrite puts_of_transfer.
      pose proof (sum_set_worker (in_hand (keyed s key)) _ i (AtAdd 1) _ Hi) as H.
      simpl in *. lia.
    + pose proof (sum_set_worker busy _ i (AtAdd 1) _ Hi) as H.
      simpl in *. lia.
    + destruct Hdrained as [Hempty | Hnone]; [left; assumption | right].
      apply Forall_set_worker; [assumption | exact I].
    + apply Forall_set_worker; [assumption | exact I].
  - (* the count is added *)
    pose proof (Forall_nth_error _ _ _ _ Hadds Hi) as Hn. simpl in Hn. subst n.
    pose proof (sum_set_worker busy _ i AtRange _ Hi) as Hbusy. simpl in Hbusy.
    assert (Hadd : AddUint64 (num p) (uint64 1) = (num p + 1)%Z).
    { unfold AddUint64, uint64. unfold max_int in fits.
      rewrite (Z.mod_small 1) by lia. apply Z.mod_small. lia. }
    constructor; unfold pending in *; simpl; try assumption; try reflexivity.
    + apply Forall_set_worker; [assumption | exact I].
    + apply Forall_set_worker; [assumption | exact I].
    + intros name. specialize (Hopens name).
      pose proof (sum_set_worker (in_hand (named s name)) _ i AtRange _ Hi) as H.
      simpl in *. lia.
    + intros key. specialize (Hputs key).
      pose proof (sum_set_worker (in_hand (keyed s key)) _ i AtRange _ Hi) as H.
      simpl in *. lia.
    + rewrite Hadd. lia.
    + rewrite Hadd. lia.
    + destruct Hdrained as [Hempty | Hnone]; [left; assumption | right].
      apply Forall_set_worker; [assumption | exact I].
    + apply Forall_set_worker; [assumption | exact I].
  - (* no goroutine is in a panic *)
    exfalso. exact (Forall_nth_error _ _ _ _ Hcalm Hi).
Qed.

Lemma live_exec sched p :
  live s files p -> live s files (exec env s false sched p).
Proof.
  apply (exec_invariant env s false (live s files)). exact live_kept.
Qed.

(** When the counter of the wait group is zero, no goroutine is busy;
    and unless they are all in a panic, one of them has returned. *)
Lemma all_returned_idle ws :
  forallb is_done ws = true ->
  sum_workers busy ws = 0
  /\ (ws <> [] -> Forall not_Panicking ws -> ~ Forall not_Returned ws).
Proof.
  induction ws as [|wk ws IH]; simpl;
    [intros _; split; [reflexivity | congruence]|].
  intros H. apply andb_true_iff in H as [Hwk Hws].
  destruct (IH Hws) as [Hsum _].
  destruct wk; try discriminate; (split; [exact Hsum |]); intros _ Hcalm Hall.
  - inversion Hall as [|? ? Hbad _]. exact Hbad.
  - inversion Hcalm as [|? ? Hbad _]. exact Hbad.
Qed.

(** The end of such a run: every goroutine has returned, so the channel
    is drained and nothing is in flight, and [num] is the number of
    tasks. *)
Lemma live_verdict p :
  live s files p -> workers p <> [] ->
  match verdict p with
  | Return n err => n = Z.of_nat (List.length files) /\ err = None
  | Abort _ => False
  | Running => True
  end.
Proof.
  intros Hlive Hsome. unfold verdict, all_done.
  rewrite (live_running s files p Hlive).
  destruct (forallb is_done (workers p)) eqn:Hall; [| exact I].
  destruct (all_returned_idle _ Hall) as [Hidle Hnot].
  split; [| reflexivity].
  pose proof (live_count s files p Hlive) as Hcount. rewrite Hidle in Hcount.
  destruct (live_drained s files p Hlive) as [Hempty | Hnone].
  - rewrite Hempty in Hcount. simpl in Hcount. lia.
  - exfalso. exact (Hnot Hsome (live_calm s files p Hlive) Hnone).
Qed.

End LiveRun.

Lemma moves_workers_length env s dryrun p i p' :
  moves env s dryrun p i p' ->
  List.length (workers p') = List.length (workers p).
Proof.
  intros Hm. destruct Hm; simpl; try apply set_worker_length; reflexivity.
Qed.

Lemma exec_workers_length env s dryrun sched p :
  List.length (workers (exec env s dryrun sched p)) = List.length (workers p).
Proof.
  apply (exec_invariant env s dryrun
           (fun q => List.length (workers q) = List.length (workers p))).
  - intros q i q' Hq _ Hm. rewrite <- Hq.
    exact (moves_workers_length env s dryrun q i q' Hm).
  - reflexivity.
Qed.

(** C3.  Count conservation.  When every task of the enumerated list
    succeeds on its first attempt in a live run, then for every
    parallelism [P >= 1] (in particular for [1 <= P <= N]) and every
    schedule of the goroutines the run does not panic, the count [Upload]
    returns is the number [N] of tasks, and every run can be continued to
    that return. *)
Theorem count_conservation (env : Env) (s : S3Upload) (parallel : Z)
  (files : list string) :
  sourceFiles env s = (files, None) ->
  (1 <= parallel)%Z ->
  (Z.of_nat (List.length files) <= max_int)%Z ->
  first_attempts_succeed env s files ->
  (forall sched,
     match fst (Upload env s parallel false sched) with
     | Return n err => n = Z.of_nat (List.length files) /\ err = None
     | Abort _ => False
     | Running => True
     end)
  /\ (forall sched, exists more,
        fst (Upload env s parallel false (sched ++ more))
        = Return (Z.of_nat (List.length files)) None).
Proof.
  intros Hfiles Hpar Hfits Hfirst.
  assert (Hend : forall sched,
            match verdict (exec env s false sched (start files parallel)) with
            | Return n err => n = Z.of_nat (List.length files) /\ err = None
            | Abort _ => False
            | Running => True
            end).
  { intros sched. apply (live_verdict s).
    - apply (live_exec env); [exact Hfirst | exact Hfits | apply live_start].
    - intros Hnil.
      pose proof (exec_workers_length env s false sched (start files parallel)) as Hlen.
      rewrite Hnil in Hlen. unfold start in Hlen. simpl in Hlen.
      rewrite repeat_length in Hlen. lia. }
  split.
  - intros sched. unfold Upload. rewrite Hfiles. simpl. apply Hend.
  - intros sched. unfold Upload. rewrite Hfiles. simpl.
    destruct (completion env s false (exec env s false sched (start files parallel)))
      as (more & Hmore).
    exists more. rewrite exec_app. rewrite <- exec_app in Hmore.
    specialize (Hend (sched ++ more)). rewrite <- exec_app.
    destruct (verdict (exec env s false (sched ++ more) (start files parallel)))
      as [n err | v |]; [| contradiction | congruence].
    destruct Hend as [-> ->]. reflexivity.
Qed.

Lemma count_conservation_witness :
  let env := Demo.env_with Demo.scenario_fs in
  let s := Demo.uploader "/srv/www" "site" ["sub/*"] in
  fst (Upload env s 2 false [0; 1; 1; 0; 0; 1; 1; 0]) = Return 2 None
  /\ fst (Upload env s 1 false [0; 0; 0; 0; 0; 0; 0]) = Return 2 None.
Proof.
  intros env s.
  assert (Hfirst : first_attempts_succeed env s ["a.txt"; "b.png"]).
  { intros path _. split; intros k _; reflexivity. }
  assert (Hfits : (Z.of_nat (List.length ["a.txt"; "b.png"]) <= max_int)%Z)
    by (vm_compute; discriminate).
  pose proof (proj1 (count_conservation env s 2 ["a.txt"; "b.png"]
                       eq_refl ltac:(lia) Hfits Hfirst)
                [0; 1; 1; 0; 0; 1; 1; 0]) as H2.
  pose proof (proj1 (count_conservation env s 1 ["a.txt"; "b.png"]
                       eq_refl ltac:(lia) Hfits Hfirst)
                [0; 0; 0; 0; 0; 0; 0]) as H1.
  split.
  - destruct (fst (Upload env s 2 false [0; 1; 1; 0; 0; 1; 1; 0])) eqn:Hrun;
      [| contradiction | discriminate Hrun].
    destruct H2 as [-> ->]. reflexivity.
  - destruct (fst (Upload env s 1 false [0; 0; 0; 0; 0; 0; 0])) eqn:Hrun;
      [| contradiction | discriminate Hrun].
    destruct H1 as [-> ->]. reflexivity.
Defined.

(* ================================================================== *)
(** ** The enumerator *)

(** The walk function of [sourceFiles] never reads the error that
    [filepath.Walk] hands it. *)
Lemma sourceFiles_walkFn_ignores_err env s path info err err' files :
  sourceFiles_walkFn env s path info err files
  = sourceFiles_walkFn env s path info err' files.
Proof. reflexivity. Qed.

(* ================================================================== *)
(** ** The enumerator on a tree without faults *)

Section WalkUnfold.

Variable A : Type.
Variable walkFn : WalkFunc A.
Variable path : string.

Lemma walk_Directory listing entries st :
  walk walkFn path (Directory listing entries) st
  = (let '(err1, st1) := walkFn path (Some {| IsDir := true |}) listing st in
     match listing, err1 with
     | None, None => walk_names walkFn path entries st1
     | _, _ => (err1, st1)
     end).
Proof. reflexivity. Qed.

Lemma walk_names_cons name child rest st :
  walk_names walkFn path ((name, child) :: rest) st
  = match child with
    | Vanished reason =>
        let lerr := PathError "lstat" (Filepath.Join [path; name]) reason in
        let '(err, st') := walkFn (Filepath.Join [path; name]) None (Some lerr) st in
        match err with
        | Some e => if is_SkipDir e then walk_names walkFn path rest st' else (Some e, st')
        | None => walk_names walkFn path rest st'
        end
    | _ =>
        let '(err, st') := walk walkFn (Filepath.Join [path; name]) child st in
        match err with
        | Some e =>
            if negb (node_IsDir child) || negb (is_SkipDir e)
            then (Some e, st')
            else walk_names walkFn path rest st'
        | None => walk_names walkFn path rest st'
        end
    end.
Proof. reflexivity. Qed.

End WalkUnfold.


(** Induction on a tree, with the hypothesis for every entry of a
    directory. *)
Lemma node_induction (P : node -> Prop) :
  P RegularFile ->
  (forall reason, P (Vanished reason)) ->
  (forall target, P (Symlink target)) ->
  (forall listing entries,
     (forall name child, In (name, child) entries -> P child) ->
     P (Directory listing entries)) ->
  forall n, P n.
Proof.
  intros Hfile Hgone Hlink Hdir. fix IH 1.
  intros [|listing entries|target|reason];
    [exact Hfile | | apply Hlink | apply Hgone].
  apply Hdir. induction entries as [|[name0 child0] rest IHrest].
  - intros name child [].
  - intros name child [Heq | Hin].
    + injection Heq as _ <-. apply IH.
    + exact (IHrest name child Hin).
Qed.

Lemma healthy_Directory listing entries :
  healthy (Directory listing entries) ->
  listing = None
  /\ NoDup (map fst entries)
  /\ forall name child, In (name, child) entries ->
                        plain name = true /\ healthy child.
Proof.
  simpl. intros (Hl & Hnd & Hall). split; [exact Hl | split; [exact Hnd |]].
  clear Hl Hnd. induction entries as [|[name0 child0] rest IH].
  - intros name child [].
  - destruct Hall as (Hp & Hc & Hrest). intros name child [Heq | Hin].
    + injection Heq as <- <-. split; assumption.
    + exact (IH Hrest name child Hin).
Qed.

Lemma files_at_Directory listing entries :
  files_at (Directory listing entries)
  = flat_map (fun e => map (cons (fst e)) (files_at (snd e))) entries.
Proof.
  simpl. induction entries as [|[name child] rest IH]; [reflexivity|].
  simpl. rewrite IH. reflexivity.
Qed.

Lemma find_entry_listed entries : forall name child,
  NoDup (map fst entries) -> In (name, child) entries ->
  find_entry name entries = Some child.
Proof.
  induction entries as [|[name0 child0] rest IH]; intros name child Hnd Hin;
    [destruct Hin|].
  simpl in *. inversion Hnd as [|? ? Hfresh Hnd']; subst.
  destruct Hin as [Heq | Hin].
  - injection Heq as <- <-. rewrite String.eqb_refl. reflexivity.
  - destruct (String.eqb_spec name0 name) as [-> | _].
    + exfalso. apply Hfresh. apply (in_map fst) in Hin. exact Hin.
    + exact (IH name child Hnd' Hin).
Qed.

Lemma resolve_app a : forall b fs0,
  resolve (a ++ b) fs0
  = match resolve a fs0 with
    | Some n => resolve b n
    | None => None
    end.
Proof.
  induction a as [|e a IH]; intros b fs0; [reflexivity|].
  simpl. destruct (entries_of fs0) as [entries|reason]; [| reflexivity].
  destruct (find_entry e entries); [apply IH | reflexivity].
Qed.

Section CleanNames.

Import GoStrings Filepath.

Lemma strip_app p : forall x, strip p (p ++ x) = Some x.
Proof.
  induction p as [|c p IH]; intros x; simpl; [reflexivity|].
  rewrite Ascii.eqb_refl. apply IH.
Qed.

Lemma append_empty (x : string) : (x ++ "")%string = x.
Proof.
  induction x as [|c x IH]; simpl; [reflexivity | rewrite IH; reflexivity].
Qed.

Lemma TrimPrefix_self p : TrimPrefix p p = "".
Proof.
  unfold TrimPrefix. rewrite <- (append_empty p) at 2.
  rewrite strip_app. reflexivity.
Qed.

(** Below a source root other than [/], the walk's path without the
    root is the separator and the relative path. *)
Lemma TrimPrefix_rooted root rel :
  root <> [] -> rel <> [] ->
  TrimPrefix (rooted (root ++ rel)) (rooted root)
  = String Separator (joined rel).
Proof.
  intros Hroot Hrel. unfold TrimPrefix, rooted.
  rewrite (Join_app root rel Hroot Hrel).
  change (String Separator (joined root ++ "/" ++ joined rel))%string
    with (String Separator (joined root) ++ String Separator (joined rel))%string.
  rewrite strip_app. reflexivity.
Qed.

Lemma forallb_plain_app a b :
  forallb plain a = true -> forallb plain b = true ->
  forallb plain (a ++ b) = true.
Proof.
  intros Ha Hb. rewrite forallb_app, Ha, Hb. reflexivity.
Qed.

(** [filepath.Join(path, name)] in the walk: one more element. *)
Lemma Join_rooted elems name :
  forallb plain elems = true -> plain name = true ->
  Filepath.Join [rooted elems; name] = rooted (elems ++ [name]).
Proof.
  intros He Hn.
  change (Filepath.Join [rooted elems; name])
    with (Clean (String Separator (joined elems ++ String Separator (joined [name])))).
  apply Clean_rooted_joined; [exact He |].
  simpl. rewrite Hn. reflexivity.
Qed.

Lemma filter_nonempty_plain elems :
  forallb plain elems = true ->
  filter (fun e => negb (String.eqb e "")) elems = elems.
Proof.
  induction elems as [|e elems IH]; simpl; [reflexivity|].
  intros H. apply andb_true_iff in H as [He Hp].
  destruct (String.eqb_spec e "") as [-> | _]; [discriminate He |].
  simpl. rewrite (IH Hp). reflexivity.
Qed.

(** Path resolution sees the elements of a clean absolute name. *)
Lemma elements_rooted elems :
  forallb plain elems = true -> elements (rooted elems) = elems.
Proof.
  intros Hp. unfold elements, rooted.
  change (Split (String Separator (joined elems)) Separator)
    with (EmptyString :: Split (joined elems) Separator).
  simpl filter.
  destruct elems as [|e elems]; [reflexivity|].
  rewrite Split_joined by (discriminate || exact Hp).
  apply filter_nonempty_plain, Hp.
Qed.

End CleanNames.

Section Enumeration.

Variable env : Env.
Variable s : S3Upload.
Variable root : list string.

Hypothesis source_clean : SourcePath s = rooted root.
Hypothesis source_plain : forallb plain root = true.
Hypothesis source_not_slash : root <> [].
Hypothesis no_patterns : Ignore (S3 (Config_ s)) = [].

Lemma healthy_present n : healthy n -> present n.
Proof. destruct n; unfold present; simpl; auto. Qed.

Lemma listed_Directory rel listing entries :
  listed rel (Directory listing entries)
  = flat_map (fun e => listed (rel ++ [fst e]) (snd e)) entries.
Proof.
  unfold listed. rewrite files_at_Directory.
  induction entries as [|[name child] rest IH]; [reflexivity|].
  simpl. rewrite map_app, IH, map_map. f_equal.
  apply map_ext. intros r. rewrite <- app_assoc. reflexivity.
Qed.

(** The walk function at the source root: nothing is added. *)
Lemma walkFn_at_root info err files :
  sourceFiles_walkFn env s (rooted root) info err files = (None, files).
Proof.
  unfold sourceFiles_walkFn. rewrite source_clean, TrimPrefix_self. reflexivity.
Qed.

(** The walk function below the source root: a path that is not a
    directory is added, as the relative path. *)
Lemma walkFn_below rel n info err files :
  rel <> [] -> forallb plain rel = true ->
  resolve (root ++ rel) (fs env) = Some n -> present n ->
  sourceFiles_walkFn env s (rooted (root ++ rel)) info err files
  = (None, if stat_file n then files ++ [joined rel] else files).
Proof.
  intros Hrel Hplain Hres Hn. unfold sourceFiles_walkFn.
  rewrite source_clean, (TrimPrefix_rooted root rel source_not_slash Hrel).
  change (String.eqb (String Filepath.Separator (joined rel)) "") with false.
  cbv iota. simpl GoStrings.tail1.
  unfold isUploadableFile. rewrite no_patterns. simpl isUploadableFile_loop.
  cbv iota beta. simpl negb. cbv iota.
  unfold os_Stat.
  rewrite (elements_rooted (root ++ rel)
             (forallb_plain_app _ _ source_plain Hplain)), Hres.
  unfold present in Hn. unfold stat_file.
  destruct (followed n) as [[[|]]|reason]; [reflexivity | reflexivity | destruct Hn].
Qed.

Lemma resolve_child elems listing entries name child :
  resolve elems (fs env) = Some (Directory listing entries) ->
  NoDup (map fst entries) -> In (name, child) entries ->
  resolve (elems ++ [name]) (fs env) = Some child.
Proof.
  intros Hres Hnd Hin. rewrite resolve_app, Hres. simpl.
  rewrite (find_entry_listed entries name child Hnd Hin). reflexivity.
Qed.

(** The loop over the entries of a healthy directory, given the walk of
    every entry. *)
Lemma walk_names_healthy rel listing entries :
  forallb plain rel = true ->
  resolve (root ++ rel) (fs env) = Some (Directory listing entries) ->
  healthy (Directory listing entries) ->
  (forall name child, In (name, child) entries ->
     forall files,
       walk (sourceFiles_walkFn env s) (rooted ((root ++ rel) ++ [name])) child files
       = (None, files ++ listed (rel ++ [name]) child)) ->
  forall todo files,
    incl todo entries ->
    walk_names (sourceFiles_walkFn env s) (rooted (root ++ rel)) todo files
    = (None, files ++ flat_map (fun e => listed (rel ++ [fst e]) (snd e)) todo).
Proof.
  intros Hplain Hres Hdir Hwalk.
  destruct (healthy_Directory _ _ Hdir) as (_ & Hnd & Hentries).
  induction todo as [|[name child] rest IH]; intros files Hincl.
  - simpl. rewrite app_nil_r. reflexivity.
  - assert (Hin : In (name, child) entries) by (apply Hincl; left; reflexivity).
    destruct (Hentries name child Hin) as [Hname Hchild].
    assert (Hrest : incl rest entries)
      by (intros e He; apply Hincl; right; exact He).
    rewrite walk_names_cons.
    rewrite (Join_rooted (root ++ rel) name
               (forallb_plain_app _ _ source_plain Hplain) Hname).
    destruct child as [|clisting centries|target|reason]; [| | | destruct Hchild];
      rewrite (Hwalk name _ Hin files), (IH _ Hrest);
      cbn [flat_map fst snd]; rewrite app_assoc; reflexivity.
Qed.

(** The walk of a healthy node below the source root. *)
Lemma walk_healthy : forall n,
  healthy n ->
  forall rel files,
    rel <> [] -> forallb plain rel = true ->
    resolve (root ++ rel) (fs env) = Some n ->
    walk (sourceFiles_walkFn env s) (rooted (root ++ rel)) n files
    = (None, files ++ listed rel n).
Proof.
  induction n as [| reason | target | listing entries IH] using node_induction;
    intros Hn rel files Hrel Hplain Hres.
  - change (walk (sourceFiles_walkFn env s) (rooted (root ++ rel)) RegularFile files)
      with (sourceFiles_walkFn env s (rooted (root ++ rel))
              (Some {| IsDir := false |}) None files).
    rewrite (walkFn_below rel RegularFile _ _ files Hrel Hplain Hres I).
    unfold listed. simpl. rewrite app_nil_r. reflexivity.
  - destruct Hn.
  - change (walk (sourceFiles_walkFn env s) (rooted (root ++ rel)) (Symlink target) files)
      with (sourceFiles_walkFn env s (rooted (root ++ rel))
              (Some {| IsDir := false |}) None files).
    rewrite (walkFn_below rel (Symlink target) _ _ files Hrel Hplain Hres
               (healthy_present _ Hn)).
    unfold listed. cbn [files_at].
    destruct (stat_file (Symlink target)); simpl; rewrite ?app_nil_r; reflexivity.
  - destruct (healthy_Directory _ _ Hn) as (Hlisting & Hnd & Hentries).
    rewrite walk_Directory.
    rewrite (walkFn_below rel _ _ _ files Hrel Hplain Hres I).
    change (stat_file (Directory listing entries)) with false.
    cbv iota. rewrite Hlisting.
    rewrite listed_Directory.
    apply (walk_names_healthy rel listing entries Hplain Hres Hn);
      [| apply incl_refl].
    intros name child Hin files'.
    destruct (Hentries name child Hin) as [Hname Hchild].
    rewrite <- app_assoc.
    apply (IH name child Hin Hchild).
    + destruct rel; discriminate.
    + apply forallb_plain_app; [exact Hplain | simpl; rewrite Hname; reflexivity].
    + rewrite app_assoc.
      exact (resolve_child _ _ _ _ _ Hres Hnd Hin).
Qed.

(** The walk of a directory that cannot be listed: the error of the
    listing reaches the walk function and is lost there; the walk goes on
    with the next name, without the files of the directory. *)
Lemma walk_unlisted rel lerr entries files :
  rel <> [] -> forallb plain rel = true ->
  resolve (root ++ rel) (fs env) = Some (Directory (Some lerr) entries) ->
  walk (sourceFiles_walkFn env s) (rooted (root ++ rel))
    (Directory (Some lerr) entries) files
  = (None, files).
Proof.
  intros Hrel Hplain Hres. rewrite walk_Directory.
  rewrite (walkFn_below rel _ _ _ files Hrel Hplain Hres I). reflexivity.
Qed.

(** The enumeration of a healthy tree from a source root other than
    [/], without ignore patterns: the relative paths of the files under
    the root, in the order of the walk, and no error. *)
Lemma sourceFiles_healthy n :
  resolve root (fs env) = Some n -> healthy n ->
  sourceFiles env s = (map joined (files_below n), None).
Proof.
  intros Hres Hn. unfold sourceFiles, Walk, os_Lstat.
  rewrite source_clean, (elements_rooted root source_plain), Hres.
  destruct n as [|listing entries|target|reason]; [| | | destruct Hn].
  - change (walk (sourceFiles_walkFn env s) (rooted root) RegularFile [])
      with (sourceFiles_walkFn env s (rooted root) (Some {| IsDir := false |}) None []).
    rewrite walkFn_at_root. reflexivity.
  - destruct (healthy_Directory _ _ Hn) as (Hlisting & Hnd & Hentries).
    rewrite walk_Directory, walkFn_at_root, Hlisting.
    assert (Hroot : root = root ++ []) by (rewrite app_nil_r; reflexivity).
    rewrite Hroot at 1.
    rewrite (walk_names_healthy [] listing entries eq_refl); cycle 1.
    + rewrite app_nil_r. exact Hres.
    + exact Hn.
    + intros name child Hin files.
      destruct (Hentries name child Hin) as [Hname Hchild].
      rewrite <- app_assoc.
      apply (walk_healthy child Hchild [name] files).
      * discriminate.
      * simpl. rewrite Hname. reflexivity.
      * exact (resolve_child _ _ _ _ _ Hres Hnd Hin).
    + apply incl_refl.
    + cbv iota beta.
      change (map joined (files_below (Directory None entries)))
        with (listed [] (Directory None entries)).
      rewrite listed_Directory. reflexivity.
  - change (walk (sourceFiles_walkFn env s) (rooted root) (Symlink target) [])
      with (sourceFiles_walkFn env s (rooted root) (Some {| IsDir := false |}) None []).
    rewrite walkFn_at_root. reflexivity.
Qed.

End Enumeration.

(** The paths of [files_at] are the paths that lead, through the
    directories of the tree, to an object on which [os.Stat] finds a file
    that is not a directory. *)
Lemma find_entry_In entries : forall name child,
  find_entry name entries = Some child -> In (name, child) entries.
Proof.
  induction entries as [|[name0 child0] rest IH]; intros name child H;
    [discriminate|].
  simpl in H. destruct (String.eqb_spec name0 name) as [-> | _].
  - injection H as <-. left. reflexivity.
  - right. exact (IH name child H).
Qed.

Lemma files_at_leaf n :
  node_IsDir n = false ->
  forall rel, In rel (files_at n)
              <-> exists m, descend rel n = Some m /\ stat_file m = true.
Proof.
  intros Hleaf rel.
  assert (Hat : files_at n = if stat_file n then [[]] else [])
    by (destruct n; [reflexivity | discriminate Hleaf | reflexivity | reflexivity]).
  assert (Hdown : forall e rest, descend (e :: rest) n = None)
    by (intros e rest; destruct n; [reflexivity | discriminate Hleaf
                                    | reflexivity | reflexivity]).
  rewrite Hat. split.
  - destruct (stat_file n) eqn:Hstat; [| intros []].
    intros [<- | []]. exists n. split; [reflexivity | exact Hstat].
  - intros (m & Hm & Hstat). destruct rel as [|e rest].
    + injection Hm as <-. rewrite Hstat. left. reflexivity.
    + rewrite Hdown in Hm. discriminate Hm.
Qed.

Lemma files_at_descend : forall n,
  healthy n ->
  forall rel, In rel (files_at n)
              <-> exists m, descend rel n = Some m /\ stat_file m = true.
Proof.
  induction n as [| reason | target | listing entries IH] using node_induction;
    intros Hn rel.
  - apply files_at_leaf. reflexivity.
  - apply files_at_leaf. reflexivity.
  - apply files_at_leaf. reflexivity.
  - destruct (healthy_Directory _ _ Hn) as (_ & Hnd & Hentries).
    rewrite files_at_Directory, in_flat_map. split.
    + intros ([name child] & Hin & Hrel). simpl in Hrel.
      apply in_map_iff in Hrel as (r & <- & Hr).
      simpl. rewrite (find_entry_listed entries name child Hnd Hin).
      apply (IH name child Hin); [apply (Hentries name child Hin) | exact Hr].
    + intros (m & Hm & Hstat). destruct rel as [|name r].
      * injection Hm as <-. discriminate Hstat.
      * simpl in Hm.
        destruct (find_entry name entries) as [child|] eqn:Hfind; [| discriminate].
        pose proof (find_entry_In _ _ _ Hfind) as Hin.
        exists (name, child). split; [exact Hin |]. simpl.
        apply in_map. apply (IH name child Hin); [apply (Hentries name child Hin) |].
        exists m. split; assumption.
Qed.

Lemma files_at_plain : forall n,
  healthy n -> forall rel, In rel (files_at n) -> forallb plain rel = true.
Proof.
  induction n as [| reason | target | listing entries IH] using node_induction;
    intros Hn rel.
  - intros [<- | []]. reflexivity.
  - destruct Hn.
  - cbn [files_at]. destruct (stat_file (Symlink target)); [| intros []].
    intros [<- | []]. reflexivity.
  - destruct (healthy_Directory _ _ Hn) as (_ & _ & Hentries).
    rewrite files_at_Directory, in_flat_map.
    intros ([name child] & Hin & Hrel). simpl in Hrel.
    apply in_map_iff in Hrel as (r & <- & Hr).
    destruct (Hentries name child Hin) as [Hname Hchild].
    simpl. rewrite Hname. exact (IH name child Hin Hchild r Hr).
Qed.

Lemma NoDup_map_cons (name : string) (l : list (list string)) :
  NoDup l -> NoDup (map (cons name) l).
Proof.
  induction 1 as [|r l Hfresh Hnd IH]; simpl; constructor; [| exact IH].
  intros Hin. apply in_map_iff in Hin as (r' & Heq & Hin).
  injection Heq as ->. exact (Hfresh Hin).
Qed.

(** Every file is listed once. *)
Lemma files_at_NoDup : forall n, healthy n -> NoDup (files_at n).
Proof.
  induction n as [| reason | target | listing entries IH] using node_induction;
    intros Hn.
  - simpl. constructor; [intros [] | constructor].
  - destruct Hn.
  - cbn [files_at]. destruct (stat_file (Symlink target)); [| constructor].
    constructor; [intros [] | constructor].
  - destruct (healthy_Directory _ _ Hn) as (_ & Hnd & Hentries).
    rewrite files_at_Directory. clear Hn.
    induction entries as [|[name child] rest IHrest]; [constructor|].
    simpl. inversion Hnd as [|? ? Hfresh Hnd']; subst.
    apply NoDup_app.
    + apply NoDup_map_cons.
      apply (IH name child (or_introl eq_refl)).
      apply (Hentries name child (or_introl eq_refl)).
    + apply IHrest.
      * intros n0 c0 Hin. apply (IH n0 c0). right. exact Hin.
      * exact Hnd'.
      * intros n0 c0 Hin. apply (Hentries n0 c0). right. exact Hin.
    + intros r Hr Hr'. apply in_map_iff in Hr as (r0 & <- & _).
      apply in_flat_map in Hr' as ([n0 c0] & Hin & Hr').
      simpl in Hr'. apply in_map_iff in Hr' as (r1 & Heq & _).
      injection Heq as -> _. apply Hfresh.
      apply (in_map fst) in Hin. exact Hin.
Qed.

(** Clean relative path names are equal only when their elements are. *)
Lemma joined_injective a b :
  a <> [] -> b <> [] -> forallb plain a = true -> forallb plain b = true ->
  joined a = joined b -> a = b.
Proof.
  intros Ha Hb Hpa Hpb Heq.
  rewrite <- (Split_joined a Ha Hpa), <- (Split_joined b Hb Hpb), Heq.
  reflexivity.
Qed.

Lemma NoDup_map_joined (l : list (list string)) :
  (forall r, In r l -> r <> [] /\ forallb plain r = true) ->
  NoDup l -> NoDup (map joined l).
Proof.
  intros Hl Hnd. induction Hnd as [|r l Hfresh Hnd IH]; simpl; constructor.
  - intros Hin. apply in_map_iff in Hin as (r' & Heq & Hin).
    destruct (Hl r (or_introl eq_refl)) as [Hr Hpr].
    destruct (Hl r' (or_intror Hin)) as [Hr' Hpr'].
    apply (joined_injective r' r Hr' Hr Hpr' Hpr) in Heq. subst r'.
    exact (Hfresh Hin).
  - apply IH. intros r' Hin. apply Hl. right. exact Hin.
Qed.

Lemma files_below_descend n :
  healthy n ->
  forall rel, In rel (files_below n)
              <-> rel <> [] /\ exists m, descend rel n = Some m /\ stat_file m = true.
Proof.
  intros Hn rel.
  destruct n as [|listing entries|target|reason]; [| | | destruct Hn].
  - simpl. split; [intros [] |]. intros (Hrel & m & Hm & _).
    destruct rel; [congruence | discriminate].
  - unfold files_below. rewrite (files_at_descend _ Hn). split.
    + intros (m & Hm & Hstat). split; [| exists m; split; assumption].
      intros ->. injection Hm as <-. discriminate Hstat.
    + intros [_ H]. exact H.
  - simpl. split; [intros [] |]. intros (Hrel & m & Hm & _).
    destruct rel; [congruence | discriminate].
Qed.

(** The enumerator is complete from every source root but [/]: on a
    tree without faults and without ignore patterns, [sourceFiles] returns
    no error and the clean relative paths of the files under the root,
    each exactly once.  The files are the names that the walk reaches
    through the directories of the tree and on which [os.Stat] finds a
    file that is not a directory: the regular files and the symbolic links
    that lead to one.  A link to a directory is not entered, and nothing
    is listed for it; a source root that is itself a link gives the empty
    list.  A tree without faults may hold links, but no link that leads
    nowhere. *)
Theorem sourceFiles_complete_below_slash (env : Env) (s : S3Upload)
  (root : list string) (n : node) :
  SourcePath s = rooted root ->
  forallb plain root = true ->
  root <> [] ->
  Ignore (S3 (Config_ s)) = [] ->
  resolve root (fs env) = Some n ->
  healthy n ->
  sourceFiles env s = (map joined (files_below n), None)
  /\ NoDup (map joined (files_below n))
  /\ forall rel, In rel (files_below n)
                 <-> rel <> []
                     /\ exists m, descend rel n = Some m /\ stat_file m = true.
Proof.
  intros Hsource Hplain Hroot Hignore Hres Hn.
  split; [exact (sourceFiles_healthy env s root Hsource Hplain Hroot Hignore n Hres Hn) |].
  split; [| exact (files_below_descend n Hn)].
  apply NoDup_map_joined.
  - intros rel Hin. split.
    + apply (files_below_descend n Hn) in Hin. exact (proj1 Hin).
    + destruct n; try destruct Hin. exact (files_at_plain _ Hn rel Hin).
  - destruct n; try constructor. exact (files_at_NoDup _ Hn).
Qed.

Lemma sourceFiles_complete_below_slash_witness :
  sourceFiles (Demo.env_with DemoLinks.linked_fs) (Demo.uploader "/srv/www" "site" [])
  = (["a.txt"; "current.txt"; "sub/c.txt"], None).
Proof.
  refine (proj1 (sourceFiles_complete_below_slash
                   (Demo.env_with DemoLinks.linked_fs)
                   (Demo.uploader "/srv/www" "site" [])
                   ["srv"; "www"] _ eq_refl eq_refl _ eq_refl eq_refl _)).
  - discriminate.
  - unfold present. simpl. repeat split; try reflexivity;
      repeat (constructor; [simpl; intuition discriminate |]); constructor.
Defined.

(* ================================================================== *)
(** ** The enumerator where it departs from the specification *)

(** C5, on the code: an error of the traversal is not always surfaced.
    The tree [/srv/www] holds a directory [private] whose listing fails
    with "permission denied".  [filepath.Walk] reports the error to the
    walk function, which does not look at it, finds by [os.Stat] that the
    path is a directory and returns [nil]: the enumeration goes on and
    returns the other files and no error.  In the same way a source root
    that does not exist gives the empty list and no error. *)
Theorem sourceFiles_swallows_walk_error :
  sourceFiles (Demo.env_with Demo.unreadable_fs) (Demo.uploader "/srv/www" "site" [])
  = (["a.txt"; "z.txt"], None)
  /\ walk (sourceFiles_walkFn (Demo.env_with Demo.unreadable_fs)
             (Demo.uploader "/srv/www" "site" []))
        "/srv/www/private"
        (Directory (Some Demo.permission_denied) [("key.pem", RegularFile)])
        ["a.txt"]
     = (None, ["a.txt"])
  /\ sourceFiles (Demo.env_with Demo.scenario_fs) (Demo.uploader "/srv/missing" "site" [])
     = ([], None).
Proof.
  split; [reflexivity | split; reflexivity].
Qed.

(** C9, on the code: with the file-system root [/] as source, the
    enumerated paths are not the relative paths of the regular files.  The
    walk visits [/a] and [/bc]; [strings.TrimPrefix(path, "/")] already
    removes the separator, and [cpath[1:]] then removes the first byte of
    the relative path: the result is [""] and ["c"] for the files [a] and
    [bc].  From a source root other than [/] the same tree is enumerated
    as claimed. *)
Theorem sourceFiles_root_source_drops_byte :
  sourceFiles (Demo.env_with Demo.small_fs) (Demo.uploader "/" "site" [])
  = ([""; "c"], None)
  /\ sourceFiles (Demo.env_with (Directory None [("data", Demo.small_fs)]))
       (Demo.uploader "/data" "site" [])
     = (["a"; "bc"], None).
Proof.
  split; reflexivity.
Qed.

(* ================================================================== *)
(** ** [Clean] on rooted names, and the names the program builds *)

Section CleanRooted.

Import GoStrings Filepath.

Lemma Split_no_separator s :
  forallb (fun f => negb (contains f Separator)) (Split s Separator) = true.
Proof.
  induction s as [|c s IH]; [reflexivity|].
  simpl. destruct (Ascii.eqb c Separator) eqn:Hc; [exact IH|].
  destruct (Split s Separator) as [|f fs]; simpl in *; rewrite Hc; simpl;
    [reflexivity | exact IH].
Qed.

(** On a rooted name the output stack of [Clean] holds plain elements
    only: [..] never stays. *)
Lemma fold_clean_rooted_plain fields : forall out,
  forallb (fun f => negb (contains f Separator)) fields = true ->
  forallb plain out = true ->
  forallb plain (fold_left (clean_elem true) fields out) = true.
Proof.
  induction fields as [|e fields IH]; intros out Hsep Hout; [exact Hout|].
  simpl in Hsep. apply andb_true_iff in Hsep as [He Hsep].
  simpl. apply IH; [exact Hsep |].
  unfold clean_elem. destruct (is_blank e) eqn:Hb; [exact Hout|].
  destruct (String.eqb e "..") eqn:Hdd.
  - destruct out as [|top below]; [reflexivity|].
    simpl in Hout. apply andb_true_iff in Hout as [Htop Hbelow].
    rewrite (plain_not_dotdot top Htop). exact Hbelow.
  - simpl. rewrite Hout, andb_true_r. unfold plain. rewrite Hb, Hdd, He.
    reflexivity.
Qed.

Lemma forallb_rev (f : string -> bool) l :
  forallb f l = true -> forallb f (rev l) = true.
Proof.
  rewrite !forallb_forall. intros H x Hx. apply H, in_rev, Hx.
Qed.

(** [Clean] of a rooted name is an absolute name in clean form. *)
Lemma Clean_rooted_clean path :
  is_rooted path = true ->
  exists elems, forallb plain elems = true /\ Clean path = rooted elems.
Proof.
  intros Hr. unfold Clean.
  destruct path as [|c body]; [discriminate|]. simpl String.eqb. cbv iota.
  rewrite Hr.
  exists (rev (fold_left (clean_elem true) (Split (String c body) Separator) [])).
  split; [| reflexivity].
  apply forallb_rev, fold_clean_rooted_plain; [apply Split_no_separator | reflexivity].
Qed.

(** [Clean] leaves an absolute name in clean form as it is. *)
Lemma Clean_rooted_fixed elems :
  forallb plain elems = true -> Clean (rooted elems) = rooted elems.
Proof.
  intros Hp. unfold rooted. rewrite Clean_rooted by (apply tame_joined, Hp).
  rewrite (fields_joined elems Hp). reflexivity.
Qed.

Lemma is_rooted_append a b : is_rooted a = true -> is_rooted (a ++ b) = true.
Proof. destruct a; [discriminate | exact (fun H => H)]. Qed.

End CleanRooted.

(** The destination key is an absolute path name in clean form, whatever
    the prefix and the relative path are: no empty, [.] or [..] element
    and no doubled separator reaches the object store, and a prefix with
    [..] elements does not lead above the root of the bucket. *)
Theorem destPath_always_clean (s : S3Upload) (path : string) :
  exists elems,
    forallb plain elems = true
    /\ destPath s path = rooted elems
    /\ forall env, obj_Key (putObjectInput env s path) = rooted elems.
Proof.
  destruct (Clean_rooted_clean
              (GoStrings.Join ["/"; Prefix (S3 (Config_ s)); path] "/") eq_refl)
    as (elems & Hp & Hc).
  exists elems. split; [exact Hp |]. split; [exact Hc |].
  intros env. exact Hc.
Qed.

(* ================================================================== *)
(** ** The construction of an uploader *)

(** [newSession] returns a client or an error, and the client has a
    region. *)
Lemma newSession_client host cfg :
  (fst (newSession host cfg) = None -> snd (newSession host cfg) <> None)
  /\ (forall conn, fst (newSession host cfg) = Some conn -> sess_Region conn <> "").
Proof.
  unfold newSession. cbv zeta.
  destruct (session_NewSession host) as [sess [e0|]]; simpl fst; simpl snd.
  - split; discriminate.
  - destruct (String.eqb_spec (Region (S3 cfg)) "") as [Hempty | Hset].
    + destruct (s3manager_GetBucketRegion host
                  (WithCredentials sess (AccessKey (S3 cfg)) (SecretKey (S3 cfg)) "")
                  (Bucket (S3 cfg)) "us-west-2") as [region [e|]].
      * split; discriminate.
      * destruct (String.eqb_spec region "") as [Hnone | Hsome].
        -- split; discriminate.
        -- split; [discriminate |].
           intros conn H. injection H as <-. exact Hsome.
    + rewrite (proj2 (String.eqb_neq _ _) Hset). simpl fst. simpl snd.
      split; [discriminate |].
      intros conn H. injection H as <-. exact Hset.
Qed.

(** The uploader that [NewS3Upload] returns keeps the configuration, and
    its source path is what [Abs] made of the configured source. *)
Lemma NewS3Upload_some host cfg s3c conn :
  fst (NewS3Upload host cfg) = Some (s3c, conn) ->
  Config_ s3c = cfg /\ Abs host (Source (S3 cfg)) = (SourcePath s3c, None).
Proof.
  unfold NewS3Upload.
  destruct (newSession host cfg) as [conn0 [e|]]; simpl; [discriminate |].
  destruct (Abs host (Source (S3 cfg))) as [abs [e|]]; simpl; [discriminate |].
  intros H. injection H as <- <-. split; reflexivity.
Qed.

(** [newSession] resolves the region.  It returns a client exactly when
    it returns no error.  The client carries the configured static
    credentials and a region that is not empty: the configured one when
    there is one (the bucket is then not looked up: [newSession] succeeds
    whatever the lookup would say), the region of the bucket otherwise.
    Without a configured region, an error of the lookup is returned as it
    is, and a lookup that answers with the empty region gives the error
    "unknown region". *)
Theorem newSession_region (host : Host) (cfg : Config) :
  (fst (newSession host cfg) = None <-> snd (newSession host cfg) <> None)
  /\ (forall conn,
        fst (newSession host cfg) = Some conn ->
        sess_Region conn <> ""
        /\ sess_AccessKey conn = AccessKey (S3 cfg)
        /\ sess_SecretKey conn = SecretKey (S3 cfg)
        /\ sess_Token conn = ""
        /\ (Region (S3 cfg) <> "" -> sess_Region conn = Region (S3 cfg))
        /\ (Region (S3 cfg) = "" ->
            s3manager_GetBucketRegion host
              (WithCredentials (fst (session_NewSession host))
                 (AccessKey (S3 cfg)) (SecretKey (S3 cfg)) "")
              (Bucket (S3 cfg)) "us-west-2"
            = (sess_Region conn, None)))
  /\ (snd (session_NewSession host) = None ->
      Region (S3 cfg) <> "" ->
      newSession host cfg
      = (Some (WithRegion
                 (WithCredentials (fst (session_NewSession host))
                    (AccessKey (S3 cfg)) (SecretKey (S3 cfg)) "")
                 (Region (S3 cfg))), None))
  /\ (snd (session_NewSession host) = None ->
      Region (S3 cfg) = "" ->
      forall region err,
        s3manager_GetBucketRegion host
          (WithCredentials (fst (session_NewSession host))
             (AccessKey (S3 cfg)) (SecretKey (S3 cfg)) "")
          (Bucket (S3 cfg)) "us-west-2" = (region, err) ->
        (forall e, err = Some e -> newSession host cfg = (None, Some e))
        /\ (err = None -> region = "" ->
            newSession host cfg = (None, Some (OtherError "unknown region"))))
  /\ (forall e, snd (session_NewSession host) = Some e ->
                newSession host cfg = (None, Some e)).
Proof.
  unfold newSession. cbv zeta.
  destruct (session_NewSession host) as [sess [e0|]]; simpl fst; simpl snd.
  - split; [split; [discriminate | reflexivity] |].
    split; [discriminate |].
    split; [discriminate |]. split; [discriminate |].
    intros e H. injection H as <-. reflexivity.
  - destruct (String.eqb_spec (Region (S3 cfg)) "") as [Hempty | Hset].
    + destruct (s3manager_GetBucketRegion host
                  (WithCredentials sess (AccessKey (S3 cfg)) (SecretKey (S3 cfg)) "")
                  (Bucket (S3 cfg)) "us-west-2") as [region [e|]] eqn:Hlookup.
      * split; [split; [discriminate | reflexivity] |].
        split; [discriminate |].
        split; [congruence |].
        split; [| discriminate].
        intros _ _ region' err' H. injection H as <- <-.
        split; [intros e' H; injection H as <-; reflexivity | discriminate].
      * destruct (String.eqb_spec region "") as [Hnone | Hsome].
        -- split; [split; [discriminate | reflexivity] |].
           split; [discriminate |].
           split; [congruence |].
           split; [| discriminate].
           intros _ _ region' err' H. injection H as <- <-.
           split; [discriminate | reflexivity].
        -- split; [split; [discriminate | intros H; exfalso; apply H; reflexivity] |].
           split.
           { intros conn H. injection H as <-. simpl.
             repeat split; try assumption; try congruence. }
           split; [congruence |].
           split; [| discriminate].
           intros _ _ region' err' H. injection H as <- <-.
           split; [discriminate | congruence].
    + rewrite (proj2 (String.eqb_neq _ _) Hset). simpl fst. simpl snd.
      split; [split; [discriminate | intros H; exfalso; apply H; reflexivity] |].
      split.
      { intros conn H. injection H as <-. simpl.
        repeat split; try assumption; try congruence. }
      split; [reflexivity |].
      split; [congruence | discriminate].
Qed.

Lemma newSession_region_witness :
  newSession DemoHost.host (DemoHost.config "/srv/www" "us-east-1" "unknown-bucket")
  = (Some {| sess_AccessKey := "key"; sess_SecretKey := "secret";
             sess_Token := ""; sess_Region := "us-east-1" |}, None)
  /\ newSession DemoHost.host (DemoHost.config "/srv/www" "" "unknown-bucket")
     = (None, Some (AwsError "NotFound" "bucket not found")).
Proof.
  split.
  - apply (proj1 (proj2 (proj2 (newSession_region DemoHost.host
                                  (DemoHost.config "/srv/www" "us-east-1" "unknown-bucket"))))).
    + reflexivity.
    + discriminate.
  - refine (proj1 (proj1 (proj2 (proj2 (proj2 (newSession_region DemoHost.host
                                  (DemoHost.config "/srv/www" "" "unknown-bucket")))))
                     eq_refl eq_refl "" _ eq_refl) _ eq_refl).
Defined.

(** [filepath.Abs] gives an absolute name in clean form, when the
    working directory is an absolute name. *)
Lemma Abs_clean host path abs :
  Filepath.is_rooted (fst (os_Getwd host)) = true ->
  Abs host path = (abs, None) ->
  exists elems, forallb plain elems = true /\ abs = rooted elems.
Proof.
  intros Hwd. unfold Abs.
  destruct (Filepath.is_rooted path) eqn:Hr.
  - intros H. injection H as <-. apply Clean_rooted_clean, Hr.
  - destruct (os_Getwd host) as [wd [e|]]; [discriminate|].
    simpl in Hwd. intros H. injection H as <-.
    destruct wd as [|c wd]; [discriminate|].
    change (Filepath.Join [String c wd; path])
      with (Filepath.Clean (String c wd ++ String Filepath.Separator path)).
    apply Clean_rooted_clean. exact Hwd.
Qed.

(** [NewS3Upload] returns an uploader exactly when it returns no error.
    The uploader keeps the configuration it was given, its connection is
    a client with a region that is not empty, and, the working directory
    being an absolute name, its source path is an absolute name in clean
    form; a source that is configured in that form is kept as it is.  An
    error of [newSession] is returned before the source is looked at. *)
Theorem NewS3Upload_source_path (host : Host) (cfg : Config) :
  Filepath.is_rooted (fst (os_Getwd host)) = true ->
  (fst (NewS3Upload host cfg) = None <-> snd (NewS3Upload host cfg) <> None)
  /\ (forall s3c conn,
        fst (NewS3Upload host cfg) = Some (s3c, conn) ->
        Config_ s3c = cfg
        /\ (exists elems, forallb plain elems = true /\ SourcePath s3c = rooted elems)
        /\ (forall elems, forallb plain elems = true ->
                          Source (S3 cfg) = rooted elems ->
                          SourcePath s3c = Source (S3 cfg))
        /\ (exists client, conn = Some client /\ sess_Region client <> ""))
  /\ (forall e, snd (newSession host cfg) = Some e ->
                NewS3Upload host cfg = (None, Some e)).
Proof.
  intros Hwd. unfold NewS3Upload.
  pose proof (newSession_client host cfg) as (Hnil & Hconn).
  destruct (newSession host cfg) as [conn [e|]] eqn:Hsess; simpl fst in *; simpl snd in *.
  - split; [split; [discriminate | reflexivity] |].
    split; [discriminate |].
    intros e' H. injection H as <-. reflexivity.
  - destruct (Abs host (Source (S3 cfg))) as [abs [e|]] eqn:Habs.
    + split; [split; [discriminate | reflexivity] |].
      split; [discriminate | discriminate].
    + split; [split; [discriminate | intros H; exfalso; apply H; reflexivity] |].
      split; [| discriminate].
      intros s3c conn' H. injection H as <- <-. simpl.
      split; [reflexivity |].
      split; [exact (Abs_clean host _ abs Hwd Habs) |].
      split.
      * intros elems Hp Hsrc. unfold Abs in Habs. rewrite Hsrc in Habs.
        change (Filepath.is_rooted (rooted elems)) with true in Habs.
        rewrite (Clean_rooted_fixed elems Hp) in Habs.
        injection Habs as <-. symmetry. exact Hsrc.
      * destruct conn as [client|].
        -- exists client. split; [reflexivity |].
           exact (Hconn client eq_refl).
        -- exfalso. exact (Hnil eq_refl eq_refl).
Qed.

Lemma NewS3Upload_source_path_witness :
  exists conn,
    fst (NewS3Upload DemoHost.host (DemoHost.config "www/../site//" "" "bucket"))
    = Some ({| Config_ := DemoHost.config "www/../site//" "" "bucket";
               SourcePath := "/home/user/site" |}, conn)
    /\ exists elems, forallb plain elems = true /\ "/home/user/site" = rooted elems.
Proof.
  eexists. split; [reflexivity |].
  exact (proj1 (proj2 (proj1 (proj2 (NewS3Upload_source_path DemoHost.host
                         (DemoHost.config "www/../site//" "" "bucket") eq_refl))
                         _ _ eq_refl))).
Defined.

(* ================================================================== *)
(** ** The path filter does not depend on the order of the patterns *)

(** Two lists of well-formed ignore patterns with the same members give
    the same answer on every path: the order of the patterns and their
    repetition are immaterial.  (With a malformed pattern in the list the
    order matters: the first pattern that decides is the one that counts.) *)
Theorem isUploadableFile_same_patterns (env : Env) (s s' : S3Upload) (path : string) :
  (forall pat, In pat (Ignore (S3 (Config_ s))) <-> In pat (Ignore (S3 (Config_ s')))) ->
  (forall pat, In pat (Ignore (S3 (Config_ s))) -> well_formed env pat path) ->
  isUploadableFile env s path = isUploadableFile env s' path.
Proof.
  intros Hsame Hwf.
  assert (Hwf' : forall pat, In pat (Ignore (S3 (Config_ s'))) -> well_formed env pat path)
    by (intros pat Hin; apply Hwf, Hsame, Hin).
  unfold isUploadableFile.
  pose proof (loop_well_formed env _ path Hwf) as He.
  pose proof (loop_well_formed env _ path Hwf') as He'.
  pose proof (loop_false_iff env _ path Hwf) as Hb.
  pose proof (loop_false_iff env _ path Hwf') as Hb'.
  destruct (isUploadableFile_loop env (Ignore (S3 (Config_ s))) path) as [b e].
  destruct (isUploadableFile_loop env (Ignore (S3 (Config_ s'))) path) as [b' e'].
  simpl in *. subst e e'. f_equal.
  destruct b, b'; try reflexivity; exfalso.
  - destruct (proj1 Hb' eq_refl) as (pat & Hin & Hm).
    assert (Hfalse : true = false)
      by (apply Hb; exists pat; split; [apply Hsame, Hin | exact Hm]).
    discriminate.
  - destruct (proj1 Hb eq_refl) as (pat & Hin & Hm).
    assert (Hfalse : true = false)
      by (apply Hb'; exists pat; split; [apply Hsame, Hin | exact Hm]).
    discriminate.
Qed.

Lemma isUploadableFile_same_patterns_witness :
  isUploadableFile (Demo.env_with Demo.scenario_fs)
    (Demo.uploader "/srv/www" "site" ["*.png"; "sub/*"]) "b.png"
  = isUploadableFile (Demo.env_with Demo.scenario_fs)
      (Demo.uploader "/srv/www" "site" ["sub/*"; "*.png"; "sub/*"]) "b.png".
Proof.
  apply isUploadableFile_same_patterns.
  - intros pat. simpl. intuition.
  - intros pat [<- | [<- | []]]; reflexivity.
Defined.

(* ================================================================== *)
(** ** The enumerator with ignore patterns *)

Lemma filter_flat_map {X Y : Type} (f : Y -> bool) (g : X -> list Y) (l : list X) :
  filter f (flat_map g l) = flat_map (fun x => filter f (g x)) l.
Proof.
  induction l as [|x l IH]; [reflexivity|].
  simpl. rewrite filter_app, IH. reflexivity.
Qed.

(** The loop over the names of a directory, past entries whose walk
    returns no error. *)
Lemma walk_names_prefix (walkFn : WalkFunc (list string)) (path : string)
  (o : string -> node -> list string) (rest : list (string * node)) :
  forall before files,
    (forall name child, In (name, child) before ->
       present child
       /\ forall files,
            walk walkFn (Filepath.Join [path; name]) child files
            = (None, files ++ o name child)) ->
    walk_names walkFn path (before ++ rest) files
    = walk_names walkFn path rest
        (files ++ flat_map (fun e => o (fst e) (snd e)) before).
Proof.
  induction before as [|[name child] before IH]; intros files Hwalk.
  - simpl. rewrite app_nil_r. reflexivity.
  - destruct (Hwalk name child (or_introl eq_refl)) as [Hpresent Hchild].
    change (((name, child) :: before) ++ rest)
      with ((name, child) :: (before ++ rest)).
    rewrite walk_names_cons.
    destruct child as [|clisting centries|target|reason];
      [| | | exfalso; exact Hpresent];
      rewrite Hchild, IH by (intros n c Hin; apply Hwalk; right; exact Hin);
      cbn [flat_map fst snd]; rewrite app_assoc; reflexivity.
Qed.

Lemma find_entry_app_listed before rest name child :
  NoDup (map fst before) -> In (name, child) before ->
  find_entry name (before ++ rest) = Some child.
Proof.
  induction before as [|[name0 child0] before IH]; intros Hnd Hin; [destruct Hin|].
  simpl in *. inversion Hnd as [|? ? Hfresh Hnd']; subst.
  destruct Hin as [Heq | Hin].
  - injection Heq as <- <-. rewrite String.eqb_refl. reflexivity.
  - destruct (String.eqb_spec name0 name) as [-> | _].
    + exfalso. apply Hfresh. apply (in_map fst) in Hin. exact Hin.
    + exact (IH Hnd' Hin).
Qed.

Lemma find_entry_app_fresh before rest name :
  ~ In name (map fst before) ->
  find_entry name (before ++ rest) = find_entry name rest.
Proof.
  induction before as [|[name0 child0] before IH]; intros Hfresh; [reflexivity|].
  simpl in *. destruct (String.eqb_spec name0 name) as [-> | _].
  - exfalso. apply Hfresh. left. reflexivity.
  - apply IH. intros Hin. apply Hfresh. right. exact Hin.
Qed.

Section FilteredEnumeration.

Variable env : Env.
Variable s : S3Upload.
Variable root : list string.

Hypothesis source_clean : SourcePath s = rooted root.
Hypothesis source_plain : forallb plain root = true.
Hypothesis source_not_slash : root <> [].

(** The walk function below the source root, by the answer of the
    filter. *)
Lemma walkFn_filter rel info err files :
  rel <> [] ->
  sourceFiles_walkFn env s (rooted (root ++ rel)) info err files
  = (let '(ok, err) := isUploadableFile env s (joined rel) in
     match err with
     | Some e => (Some e, files)
     | None =>
         if negb ok then (None, files)
         else
           let '(fi, err) := os_Stat (fs env) (rooted (root ++ rel)) in
           match fi, err with
           | _, Some e => (Some e, files)
           | None, None => (None, files)
           | Some fi, None =>
               if IsDir fi then (None, files) else (None, files ++ [joined rel])
           end
     end).
Proof.
  intros Hrel. unfold sourceFiles_walkFn.
  rewrite source_clean, (TrimPrefix_rooted root rel source_not_slash Hrel).
  reflexivity.
Qed.

Lemma os_Stat_below rel n :
  forallb plain rel = true ->
  resolve (root ++ rel) (fs env) = Some n ->
  os_Stat (fs env) (rooted (root ++ rel))
  = match followed n with
    | inl fi => (Some fi, None)
    | inr reason => (None, Some (PathError "stat" (rooted (root ++ rel)) reason))
    end.
Proof.
  intros Hplain Hres. unfold os_Stat.
  rewrite (elements_rooted (root ++ rel)
             (forallb_plain_app _ _ source_plain Hplain)), Hres.
  reflexivity.
Qed.

(** An error of the filter is returned by the walk function, and stops
    the walk of the entry. *)
Lemma walkFn_pattern_error rel info err files e :
  rel <> [] ->
  snd (isUploadableFile env s (joined rel)) = Some e ->
  sourceFiles_walkFn env s (rooted (root ++ rel)) info err files = (Some e, files).
Proof.
  intros Hrel He. rewrite (walkFn_filter rel info err files Hrel).
  destruct (isUploadableFile env s (joined rel)) as [ok err']. simpl in He.
  subst err'. reflexivity.
Qed.

Hypothesis patterns_compile : forall path, snd (isUploadableFile env s path) = None.

Lemma walkFn_kept rel n info err files :
  rel <> [] -> forallb plain rel = true ->
  resolve (root ++ rel) (fs env) = Some n -> present n ->
  sourceFiles_walkFn env s (rooted (root ++ rel)) info err files
  = (None, if uploadable env s (joined rel) && stat_file n
           then files ++ [joined rel] else files).
Proof.
  intros Hrel Hplain Hres Hn. rewrite (walkFn_filter rel info err files Hrel).
  rewrite (os_Stat_below rel n Hplain Hres).
  unfold uploadable. pose proof (patterns_compile (joined rel)) as Hc.
  destruct (isUploadableFile env s (joined rel)) as [ok err']. simpl in Hc |- *.
  subst err'. destruct ok; [| reflexivity].
  unfold present in Hn. unfold stat_file.
  destruct (followed n) as [[[|]]|reason]; [reflexivity | reflexivity | destruct Hn].
Qed.

(** An entry on which [os.Stat] fails, and that the filter lets through:
    the error of [os.Stat]; one that is ignored: nothing. *)
Lemma walkFn_fault rel n reason info err files :
  rel <> [] -> forallb plain rel = true ->
  resolve (root ++ rel) (fs env) = Some n ->
  followed n = inr reason ->
  sourceFiles_walkFn env s (rooted (root ++ rel)) info err files
  = (if uploadable env s (joined rel)
     then Some (PathError "stat" (rooted (root ++ rel)) reason) else None, files).
Proof.
  intros Hrel Hplain Hres Hn. rewrite (walkFn_filter rel info err files Hrel).
  rewrite (os_Stat_below rel _ Hplain Hres), Hn.
  unfold uploadable. pose proof (patterns_compile (joined rel)) as Hc.
  destruct (isUploadableFile env s (joined rel)) as [ok err']. simpl in Hc |- *.
  subst err'. destruct ok; reflexivity.
Qed.

Lemma resolve_entry rel listing before name child after :
  resolve (root ++ rel) (fs env)
  = Some (Directory listing (before ++ (name, child) :: after)) ->
  ~ In name (map fst before) ->
  resolve ((root ++ rel) ++ [name]) (fs env) = Some child.
Proof.
  intros Hres Hfresh. rewrite resolve_app, Hres. simpl.
  rewrite (find_entry_app_fresh before _ name Hfresh). simpl.
  rewrite String.eqb_refl. reflexivity.
Qed.

Lemma resolve_before rel listing before rest name child :
  resolve (root ++ rel) (fs env) = Some (Directory listing (before ++ rest)) ->
  NoDup (map fst before) -> In (name, child) before ->
  resolve ((root ++ rel) ++ [name]) (fs env) = Some child.
Proof.
  intros Hres Hnd Hin. rewrite resolve_app, Hres. simpl.
  rewrite (find_entry_app_listed before rest name child Hnd Hin). reflexivity.
Qed.

(** The walk function on a directory at or below the source root. *)
Lemma walkFn_directory rel listing entries info err files :
  forallb plain rel = true ->
  resolve (root ++ rel) (fs env) = Some (Directory listing entries) ->
  sourceFiles_walkFn env s (rooted (root ++ rel)) info err files = (None, files).
Proof.
  intros Hplain Hres. destruct rel as [|e rel].
  - rewrite app_nil_r. apply (walkFn_at_root env s root source_clean).
  - rewrite (walkFn_kept (e :: rel) _ info err files ltac:(discriminate) Hplain Hres I).
    simpl. rewrite andb_false_r. reflexivity.
Qed.

(** The walk of a healthy node below the source root: the files that the
    filter lets through. *)
Lemma walk_kept : forall n,
  healthy n ->
  forall rel files,
    rel <> [] -> forallb plain rel = true ->
    resolve (root ++ rel) (fs env) = Some n ->
    walk (sourceFiles_walkFn env s) (rooted (root ++ rel)) n files
    = (None, files ++ filter (uploadable env s) (listed rel n)).
Proof.
  induction n as [| reason | target | listing entries IH] using node_induction;
    intros Hn rel files Hrel Hplain Hres.
  - change (walk (sourceFiles_walkFn env s) (rooted (root ++ rel)) RegularFile files)
      with (sourceFiles_walkFn env s (rooted (root ++ rel))
              (Some {| IsDir := false |}) None files).
    rewrite (walkFn_kept rel RegularFile _ _ files Hrel Hplain Hres I).
    unfold listed. simpl. rewrite app_nil_r, andb_true_r.
    destruct (uploadable env s (joined rel)); [reflexivity |].
    rewrite app_nil_r. reflexivity.
  - destruct Hn.
  - change (walk (sourceFiles_walkFn env s) (rooted (root ++ rel)) (Symlink target) files)
      with (sourceFiles_walkFn env s (rooted (root ++ rel))
              (Some {| IsDir := false |}) None files).
    rewrite (walkFn_kept rel (Symlink target) _ _ files Hrel Hplain Hres
               (healthy_present _ Hn)).
    unfold listed. cbn [files_at].
    destruct (stat_file (Symlink target)); simpl;
      rewrite ?app_nil_r, ?andb_true_r, ?andb_false_r; [| reflexivity].
    destruct (uploadable env s (joined rel)); [reflexivity |].
    rewrite app_nil_r. reflexivity.
  - destruct (healthy_Directory _ _ Hn) as (Hlisting & Hnd & Hentries).
    rewrite walk_Directory.
    rewrite (walkFn_directory rel listing entries _ _ files Hplain Hres).
    rewrite Hlisting. rewrite <- (app_nil_r entries) at 1.
    rewrite (walk_names_prefix _ _
               (fun name child =>
                  filter (uploadable env s) (listed (rel ++ [name]) child))).
    + simpl walk_names. rewrite listed_Directory, filter_flat_map. reflexivity.
    + intros name child Hin. destruct (Hentries name child Hin) as [Hname Hchild].
      split; [exact (healthy_present child Hchild) |]. intros files'.
      rewrite (Join_rooted (root ++ rel) name
                 (forallb_plain_app _ _ source_plain Hplain) Hname).
      rewrite <- app_assoc.
      apply (IH name child Hin Hchild).
      * destruct rel; discriminate.
      * apply forallb_plain_app; [exact Hplain | simpl; rewrite Hname; reflexivity].
      * rewrite app_assoc. rewrite <- (app_nil_r entries) in Hres.
        exact (resolve_before rel listing entries [] name child Hres Hnd Hin).
Qed.

Lemma sourceFiles_kept n :
  resolve root (fs env) = Some n -> healthy n ->
  sourceFiles env s
  = (filter (uploadable env s) (map joined (files_below n)), None).
Proof.
  intros Hres Hn. unfold sourceFiles, Walk, os_Lstat.
  rewrite source_clean, (elements_rooted root source_plain), Hres.
  assert (Hres0 : resolve (root ++ []) (fs env) = Some n)
    by (rewrite app_nil_r; exact Hres).
  destruct n as [|listing entries|target|reason]; [| | | destruct Hn].
  - change (walk (sourceFiles_walkFn env s) (rooted root) RegularFile [])
      with (sourceFiles_walkFn env s (rooted root) (Some {| IsDir := false |}) None []).
    rewrite (walkFn_at_root env s root source_clean). reflexivity.
  - destruct (healthy_Directory _ _ Hn) as (Hlisting & Hnd & Hentries).
    rewrite walk_Directory.
    rewrite (walkFn_at_root env s root source_clean), Hlisting.
    rewrite <- (app_nil_r entries) at 1.
    assert (Hroot : rooted root = rooted (root ++ []))
      by (rewrite app_nil_r; reflexivity).
    rewrite Hroot.
    rewrite (walk_names_prefix _ _
               (fun name child =>
                  filter (uploadable env s) (listed ([] ++ [name]) child))).
    + simpl walk_names. cbv iota beta.
      change (map joined (files_below (Directory None entries)))
        with (listed [] (Directory None entries)).
      rewrite listed_Directory, filter_flat_map. reflexivity.
    + intros name child Hin. destruct (Hentries name child Hin) as [Hname Hchild].
      split; [exact (healthy_present child Hchild) |]. intros files'.
      rewrite (Join_rooted (root ++ []) name
                 (forallb_plain_app root [] source_plain eq_refl) Hname).
      rewrite <- app_assoc.
      apply (walk_kept child Hchild ([] ++ [name]) files').
      * discriminate.
      * simpl. rewrite Hname. reflexivity.
      * rewrite app_assoc. rewrite <- (app_nil_r entries) in Hres0.
        exact (resolve_before [] listing entries [] name child Hres0 Hnd Hin).
  - change (walk (sourceFiles_walkFn env s) (rooted root) (Symlink target) [])
      with (sourceFiles_walkFn env s (rooted root) (Some {| IsDir := false |}) None []).
    rewrite (walkFn_at_root env s root source_clean). reflexivity.
Qed.

Lemma breaks_Directory reason frel n :
  breaks reason frel n -> exists entries, n = Directory None entries.
Proof. intros H. destruct H; eexists; reflexivity. Qed.

(** The walk past the healthy entries that come before the name [name]
    of a directory. *)
Lemma walk_names_before rel listing before name child after files :
  forallb plain rel = true ->
  resolve (root ++ rel) (fs env)
  = Some (Directory listing (before ++ (name, child) :: after)) ->
  healthy (Directory None before) ->
  exists files',
    walk_names (sourceFiles_walkFn env s) (rooted (root ++ rel))
      (before ++ (name, child) :: after) files
    = walk_names (sourceFiles_walkFn env s) (rooted (root ++ rel))
        ((name, child) :: after) files'.
Proof.
  intros Hplain Hres Hbefore.
  destruct (healthy_Directory _ _ Hbefore) as (_ & Hnd & Hentries).
  eexists.
  apply (walk_names_prefix _ _
           (fun name child =>
              filter (uploadable env s) (listed (rel ++ [name]) child))).
  intros name' child' Hin. destruct (Hentries name' child' Hin) as [Hname Hchild].
  split; [exact (healthy_present child' Hchild) |]. intros files'.
  rewrite (Join_rooted (root ++ rel) name'
             (forallb_plain_app _ _ source_plain Hplain) Hname).
  rewrite <- app_assoc.
  apply (walk_kept child' Hchild).
  - destruct rel; discriminate.
  - apply forallb_plain_app; [exact Hplain | simpl; rewrite Hname; reflexivity].
  - rewrite app_assoc.
    exact (resolve_before rel listing before _ name' child' Hres Hnd Hin).
Qed.

(** The walk of a tree with a faulty entry that the filter lets through
    returns the error that [os.Stat] gives for that entry. *)
Lemma walk_breaks reason : forall frel n,
  breaks reason frel n ->
  forall rel files,
    forallb plain rel = true ->
    resolve (root ++ rel) (fs env) = Some n ->
    uploadable env s (joined (rel ++ frel)) = true ->
    exists files',
      walk (sourceFiles_walkFn env s) (rooted (root ++ rel)) n files
      = (Some (PathError "stat" (rooted (root ++ rel ++ frel)) reason), files').
Proof.
  induction 1 as [before name child after Hbefore Hname Hfresh Hfault
                 | before name child after frel Hbefore Hname Hfresh Hchild IH];
    intros rel files Hplain Hres Hkeep;
    rewrite walk_Directory,
      (walkFn_directory rel _ _ _ _ files Hplain Hres);
    destruct (walk_names_before rel None before name _ after files Hplain Hres Hbefore)
      as (files1 & ->);
    rewrite walk_names_cons,
      (Join_rooted (root ++ rel) name
         (forallb_plain_app _ _ source_plain Hplain) Hname);
    pose proof (resolve_entry rel None before name _ after Hres Hfresh) as Hentry;
    rewrite <- app_assoc in Hentry |- *;
    assert (Hplain' : forallb plain (rel ++ [name]) = true)
      by (apply forallb_plain_app; [exact Hplain | simpl; rewrite Hname; reflexivity]).
  - assert (Hfn : forall info err,
              sourceFiles_walkFn env s (rooted (root ++ rel ++ [name])) info err files1
              = (Some (PathError "stat" (rooted (root ++ rel ++ [name])) reason), files1)).
    { intros info err.
      rewrite (walkFn_fault (rel ++ [name]) child reason info err files1
                 ltac:(destruct rel; discriminate) Hplain' Hentry Hfault).
      rewrite Hkeep. reflexivity. }
    destruct child as [|clisting centries|target|reason'];
      [discriminate Hfault | discriminate Hfault | |].
    + change (walk (sourceFiles_walkFn env s) (rooted (root ++ rel ++ [name]))
                (Symlink target) files1)
        with (sourceFiles_walkFn env s (rooted (root ++ rel ++ [name]))
                (Some {| IsDir := false |}) None files1).
      rewrite Hfn. simpl. eexists. reflexivity.
    + cbv zeta. rewrite Hfn. simpl. eexists. reflexivity.
  - destruct (IH (rel ++ [name]) files1 Hplain' Hentry) as (files' & Hwalk).
    { rewrite <- app_assoc. exact Hkeep. }
    destruct (breaks_Directory _ _ _ Hchild) as (centries & ->).
    rewrite <- !app_assoc in Hwalk. simpl app in Hwalk.
    rewrite Hwalk. simpl. eexists. reflexivity.
Qed.

End FilteredEnumeration.

(** Enumeration with ignore patterns.  On a tree without faults, from a
    source root other than [/], with patterns that are all well formed,
    [sourceFiles] returns no error and, in the order of the walk, the
    relative paths of the files under the root that the filter lets
    through: a path is listed exactly when it is the path of a file of
    the tree and no pattern matches it.  The files of the tree are the
    regular files and the symbolic links that lead to one; a link to a
    directory is not entered, and a tree without faults holds no link that
    leads nowhere.  A pattern that matches a directory does not remove the
    files below it: they are listed unless a pattern matches their own
    paths. *)
Theorem sourceFiles_filtered (env : Env) (s : S3Upload) (root : list string)
  (n : node) :
  SourcePath s = rooted root ->
  forallb plain root = true ->
  root <> [] ->
  (forall pat path, In pat (Ignore (S3 (Config_ s))) -> well_formed env pat path) ->
  resolve root (fs env) = Some n ->
  healthy n ->
  sourceFiles env s
  = (filter (uploadable env s) (map joined (files_below n)), None)
  /\ forall path,
       In path (fst (sourceFiles env s))
       <-> In path (map joined (files_below n))
           /\ ~ exists pat, In pat (Ignore (S3 (Config_ s)))
                            /\ glob_matches env pat path.
Proof.
  intros Hsource Hplain Hroot Hwf Hres Hn.
  assert (Hcompile : forall path, snd (isUploadableFile env s path) = None).
  { intros path. apply loop_well_formed. intros pat Hin. apply Hwf, Hin. }
  pose proof (sourceFiles_kept env s root Hsource Hplain Hroot Hcompile n Hres Hn)
    as Hlist.
  split; [exact Hlist |]. intros path. rewrite Hlist. simpl fst.
  rewrite filter_In. unfold uploadable, isUploadableFile.
  pose proof (loop_false_iff env (Ignore (S3 (Config_ s))) path
                (fun pat Hin => Hwf pat path Hin)) as Hiff.
  destruct (fst (isUploadableFile_loop env (Ignore (S3 (Config_ s))) path)).
  - split; intros [Hin _]; (split; [exact Hin |]); [| reflexivity].
    intros Hex. apply Hiff in Hex. discriminate.
  - split; intros [Hin Hno]; [discriminate |].
    exfalso. apply Hno, Hiff. reflexivity.
Qed.

Lemma sourceFiles_filtered_witness :
  sourceFiles (Demo.env_with Demo.scenario_fs)
    (Demo.uploader "/srv/www" "site" ["sub"; "*.png"])
  = (["a.txt"; "sub/c.txt"], None)
  /\ sourceFiles (Demo.env_with DemoLinks.linked_fs)
       (Demo.uploader "/srv/www" "site" ["sub"; "a.txt"])
     = (["current.txt"; "sub/c.txt"], None).
Proof.
  split.
  - refine (proj1 (sourceFiles_filtered
                     (Demo.env_with Demo.scenario_fs)
                     (Demo.uploader "/srv/www" "site" ["sub"; "*.png"])
                     ["srv"; "www"] _ eq_refl eq_refl _ _ eq_refl _)).
    + discriminate.
    + intros pat path [<- | [<- | []]]; reflexivity.
    + simpl. repeat split; try reflexivity;
        repeat (constructor; [simpl; intuition discriminate |]); constructor.
  - refine (proj1 (sourceFiles_filtered
                     (Demo.env_with DemoLinks.linked_fs)
                     (Demo.uploader "/srv/www" "site" ["sub"; "a.txt"])
                     ["srv"; "www"] _ eq_refl eq_refl _ _ eq_refl _)).
    + discriminate.
    + intros pat path [<- | [<- | []]]; reflexivity.
    + unfold present. simpl. repeat split; try reflexivity;
        repeat (constructor; [simpl; intuition discriminate |]); constructor.
Defined.

(** A path removed mid-walk, and a link that leads nowhere.  When the
    first fault that the walk meets is an entry on which [os.Stat] fails
    (a name that is gone since the directory was listed, or a symbolic
    link whose target is missing) and the filter lets the path of that
    entry through, the enumeration stops there: [sourceFiles] returns no
    list, whatever it had collected before, and the error of [os.Stat]
    itself, a [*PathError] with the operation [stat], the full name of
    the entry and the reason.  The error of [lstat] that the walk hands to
    the walk function for a vanished name is not what is returned. *)
Theorem sourceFiles_vanished_entry (env : Env) (s : S3Upload) (root : list string)
  (n : node) (reason : string) (rel : list string) :
  SourcePath s = rooted root ->
  forallb plain root = true ->
  root <> [] ->
  (forall pat path, In pat (Ignore (S3 (Config_ s))) -> well_formed env pat path) ->
  resolve root (fs env) = Some n ->
  breaks reason rel n ->
  uploadable env s (joined rel) = true ->
  sourceFiles env s
  = ([], Some (PathError "stat" (rooted (root ++ rel)) reason)).
Proof.
  intros Hsource Hplain Hroot Hwf Hres Hbreaks Hkeep.
  assert (Hcompile : forall path, snd (isUploadableFile env s path) = None).
  { intros path. apply loop_well_formed. intros pat Hin. apply Hwf, Hin. }
  unfold sourceFiles, Walk, os_Lstat.
  rewrite Hsource, (elements_rooted root Hplain), Hres.
  destruct (walk_breaks env s root Hsource Hplain Hroot Hcompile reason
              rel n Hbreaks [] [] eq_refl) as (files' & Hwalk).
  - rewrite app_nil_r. exact Hres.
  - exact Hkeep.
  - rewrite app_nil_r in Hwalk. simpl app in Hwalk.
    destruct (breaks_Directory _ _ _ Hbreaks) as (entries & ->).
    rewrite Hwalk. reflexivity.
Qed.

Lemma sourceFiles_vanished_entry_witness :
  sourceFiles (Demo.env_with DemoFaults.vanishing_fs)
    (Demo.uploader "/srv/www" "site" ["*.bak"])
  = ([], Some (PathError "stat" "/srv/www/sub/gone" "no such file or directory"))
  /\ sourceFiles (Demo.env_with DemoFaults.dangling_fs)
       (Demo.uploader "/srv/www" "site" ["*.bak"])
     = ([], Some (PathError "stat" "/srv/www/sub/latest" "no such file or directory")).
Proof.
  split.
  - apply (sourceFiles_vanished_entry (Demo.env_with DemoFaults.vanishing_fs)
             (Demo.uploader "/srv/www" "site" ["*.bak"])
             ["srv"; "www"]
             (DemoFaults.www (Vanished "no such file or directory") "gone")
             "no such file or directory" ["sub"; "gone"]);
      try reflexivity.
    + discriminate.
    + intros pat path [<- | []]. reflexivity.
    + apply (breaks_below _ [("a.txt", RegularFile)] "sub" _
               [("z.txt", RegularFile)] ["gone"]).
      * simpl. repeat split. repeat constructor. intros [].
      * reflexivity.
      * simpl. intuition discriminate.
      * apply (breaks_here _ [("c.txt", RegularFile)] "gone" _ []).
        -- simpl. repeat split. repeat constructor. intros [].
        -- reflexivity.
        -- simpl. intuition discriminate.
        -- reflexivity.
  - apply (sourceFiles_vanished_entry (Demo.env_with DemoFaults.dangling_fs)
             (Demo.uploader "/srv/www" "site" ["*.bak"])
             ["srv"; "www"]
             (DemoFaults.www (Symlink (Vanished "no such file or directory")) "latest")
             "no such file or directory" ["sub"; "latest"]);
      try reflexivity.
    + discriminate.
    + intros pat path [<- | []]. reflexivity.
    + apply (breaks_below _ [("a.txt", RegularFile)] "sub" _
               [("z.txt", RegularFile)] ["latest"]).
      * simpl. repeat split. repeat constructor. intros [].
      * reflexivity.
      * simpl. intuition discriminate.
      * apply (breaks_here _ [("c.txt", RegularFile)] "latest" _ []).
        -- simpl. repeat split. repeat constructor. intros [].
        -- reflexivity.
        -- simpl. intuition discriminate.
        -- reflexivity.
Defined.

(** A malformed ignore pattern.  When the filter returns an error for the
    first name of the source directory, the enumeration stops at that
    entry, whatever the entry is: [sourceFiles] returns the error and no
    list, and [Upload] returns 0 and the error before any goroutine is
    started, with nothing opened, printed or sent.  In a source directory
    without entries no pattern is ever compiled, and the enumeration
    succeeds with the empty list. *)
Theorem sourceFiles_pattern_error (env : Env) (s : S3Upload) (root : list string)
  (entries : list (string * node)) :
  SourcePath s = rooted root ->
  forallb plain root = true ->
  root <> [] ->
  resolve root (fs env) = Some (Directory None entries) ->
  (entries = [] -> sourceFiles env s = ([], None))
  /\ (forall name child rest e,
        entries = (name, child) :: rest ->
        plain name = true ->
        snd (isUploadableFile env s name) = Some e ->
        is_SkipDir e = false -> is_SkipAll e = false ->
        sourceFiles env s = ([], Some e)
        /\ forall parallel dryrun sched,
             Upload env s parallel dryrun sched = (Return 0 (Some e), [])).
Proof.
  intros Hsource Hplain Hroot Hres.
  assert (Hwalk : sourceFiles env s
                  = (let '(err, files) :=
                       Walk (sourceFiles_walkFn env s) (fs env) (rooted root) [] in
                     match err with
                     | Some e => ([], Some e)
                     | None => (files, None)
                     end))
    by (unfold sourceFiles; rewrite Hsource; reflexivity).
  unfold Walk, os_Lstat in Hwalk.
  rewrite (elements_rooted root Hplain), Hres, walk_Directory in Hwalk.
  rewrite (walkFn_at_root env s root Hsource) in Hwalk.
  split.
  - intros ->. exact Hwalk.
  - intros name child rest e -> Hname He Hskip Hall.
    assert (Hlist : sourceFiles env s = ([], Some e)).
    { rewrite Hwalk, walk_names_cons.
      assert (Hjoin : Filepath.Join [rooted root; name] = rooted (root ++ [name]))
        by exact (Join_rooted root name Hplain Hname).
      rewrite Hjoin.
      assert (Hfn : forall info err,
                sourceFiles_walkFn env s (rooted (root ++ [name])) info err []
                = (Some e, [])).
      { intros info err.
        apply (walkFn_pattern_error env s root Hsource Hroot [name]);
          [discriminate | exact He]. }
      destruct child as [|listing centries|target|reason].
      - change (walk (sourceFiles_walkFn env s) (rooted (root ++ [name])) RegularFile [])
          with (sourceFiles_walkFn env s (rooted (root ++ [name]))
                  (Some {| IsDir := false |}) None []).
        rewrite Hfn. simpl. rewrite Hskip, Hall. reflexivity.
      - rewrite walk_Directory, Hfn.
        destruct listing; cbv iota beta; simpl negb; rewrite Hskip;
          simpl; rewrite ?Hskip, ?Hall; reflexivity.
      - change (walk (sourceFiles_walkFn env s) (rooted (root ++ [name]))
                  (Symlink target) [])
          with (sourceFiles_walkFn env s (rooted (root ++ [name]))
                  (Some {| IsDir := false |}) None []).
        rewrite Hfn. simpl. rewrite Hskip, Hall. reflexivity.
      - cbv zeta. rewrite Hfn, Hskip. simpl. rewrite ?Hskip, ?Hall. reflexivity. }
    split; [exact Hlist |].
    intros parallel dryrun sched. unfold Upload. rewrite Hlist. reflexivity.
Qed.

Lemma sourceFiles_pattern_error_witness :
  sourceFiles (Demo.env_with Demo.scenario_fs)
    (Demo.uploader "/srv/www" "site" ["*.bak"; "{*.bak,*.tmp}"])
  = ([], Some (OtherError "error parsing regexp: missing argument to repetition operator: `*`")).
Proof.
  refine (proj1 (proj2 (sourceFiles_pattern_error
                          (Demo.env_with Demo.scenario_fs)
                          (Demo.uploader "/srv/www" "site" ["*.bak"; "{*.bak,*.tmp}"])
                          ["srv"; "www"] _ eq_refl eq_refl _ eq_refl)
                   "a.txt" RegularFile _ _ eq_refl eq_refl eq_refl eq_refl eq_refl)).
  discriminate.
Defined.

(* ================================================================== *)
(** ** One call of [uploadFile], in every environment *)

Lemma open_calls_app (a b : World) : open_calls (a ++ b) = open_calls a + open_calls b.
Proof. unfold open_calls. rewrite filter_app, length_app. reflexivity. Qed.

(** The events of one call of [uploadFile]: one open, at most one
    request, no pause, all about [path]; the count is 0 or 1. *)
Lemma uploadFile_events (env : Env) (s : S3Upload) (path : string)
  (dryrun : bool) (w : World) :
  exists evs,
    snd (uploadFile env s path dryrun w) = w ++ evs
    /\ Forall (about env s path) evs
    /\ open_calls evs = 1
    /\ puts evs <= 1
    /\ (dryrun = true -> puts evs = 0)
    /\ sleeps evs = 0
    /\ (fst (fst (uploadFile env s path dryrun w)) = 0%Z
        \/ fst (fst (uploadFile env s path dryrun w)) = 1%Z).
Proof.
  destruct (os_Open env (localName s path) (opens_of (localName s path) w))
    as [reason|] eqn:Hopen.
  - rewrite (uploadFile_open_fails env s path dryrun w reason Hopen). simpl.
    exists [EvOpen (localName s path)].
    repeat split; try reflexivity; auto. repeat constructor.
  - destruct dryrun.
    + rewrite (uploadFile_dry env s path w Hopen). simpl.
      exists (rehearsal s path).
      repeat split; try reflexivity; auto. repeat constructor.
    + rewrite (uploadFile_live env s path w Hopen).
      exists (transfer env s path).
      destruct (PutObject_Send env (putObjectInput env s path)
                  (puts_of (destPath s path) w)) as [e|]; simpl;
        repeat split; try reflexivity; try discriminate; auto;
        repeat constructor.
Qed.

(** The outcome of [uploadFile].  It opens the file once and sends at
    most one request: exactly one in a live run when the file opens, none
    in a dry run or when the file does not open.  It returns no error
    exactly when the file opens and, in a live run, the request succeeds;
    the count is 1 exactly when a live request succeeded and 0 in every
    other case, and every event of the call is about [path]. *)
Theorem uploadFile_outcome (env : Env) (s : S3Upload) (path : string)
  (dryrun : bool) (w : World) :
  let opened := os_Open env (localName s path) (opens_of (localName s path) w) in
  let sent := PutObject_Send env (putObjectInput env s path)
                (puts_of (destPath s path) w) in
  let n := fst (fst (uploadFile env s path dryrun w)) in
  let err := snd (fst (uploadFile env s path dryrun w)) in
  exists evs,
    snd (uploadFile env s path dryrun w) = w ++ evs
    /\ Forall (about env s path) evs
    /\ open_calls evs = 1
    /\ puts evs = (if negb dryrun && match opened with None => true | _ => false end
                   then 1 else 0)
    /\ sleeps evs = 0
    /\ (err = None <-> opened = None /\ (dryrun = true \/ sent = None))
    /\ (n = 1%Z <-> err = None /\ dryrun = false)
    /\ (n = 0%Z \/ n = 1%Z).
Proof.
  intros opened sent n err. subst opened sent n err.
  destruct (os_Open env (localName s path) (opens_of (localName s path) w))
    as [reason|] eqn:Hopen.
  - rewrite (uploadFile_open_fails env s path dryrun w reason Hopen). simpl.
    exists [EvOpen (localName s path)]. rewrite andb_false_r.
    repeat split; try reflexivity; try discriminate; try (intros [H _]; discriminate);
      auto.
    repeat constructor.
  - destruct dryrun.
    + rewrite (uploadFile_dry env s path w Hopen). simpl.
      exists (rehearsal s path).
      repeat split; try reflexivity; try discriminate; try (intros [_ H]; discriminate);
        auto.
      repeat constructor.
    + rewrite (uploadFile_live env s path w Hopen).
      exists (transfer env s path).
      destruct (PutObject_Send env (putObjectInput env s path)
                  (puts_of (destPath s path) w)) as [e|]; simpl;
        repeat split; try reflexivity; try discriminate;
        try (intros [H _]; discriminate);
        try (intros [_ [H | H]]; discriminate); auto;
        repeat constructor.
Qed.

(* ================================================================== *)
(** ** The retry loop, in every environment *)

Section AnyEnvironment.

Variable env : Env.
Variable s : S3Upload.
Variable dryrun : bool.

(** One pass after [RETRY]: one open, at most one request, and the
    pause exactly when the pass ends in a jump back. *)
Lemma attempt_history path numRetries w :
  exists evs,
    snd (attempt env s path dryrun numRetries w) = w ++ evs
    /\ Forall (about env s path) evs
    /\ open_calls evs = 1
    /\ puts evs <= 1
    /\ (dryrun = true -> puts evs = 0)
    /\ sleeps evs = (match fst (attempt env s path dryrun numRetries w) with
                     | Retry _ => 1
                     | _ => 0
                     end)
    /\ (forall n, fst (attempt env s path dryrun numRetries w) = Uploaded n ->
                  n = 0%Z \/ n = 1%Z)
    /\ (forall numRetries',
          fst (attempt env s path dryrun numRetries w) = Retry numRetries' ->
          numRetries' = (numRetries - 1)%Z /\ (1 <= numRetries')%Z).
Proof.
  destruct (uploadFile_events env s path dryrun w)
    as (evs & Hw & Habout & Hopens & Hle & Hdry & Hsleeps & Hn).
  unfold attempt.
  destruct (uploadFile env s path dryrun w) as [[n err] w1]. simpl in Hw, Hn.
  subst w1.
  destruct err as [e|];
    [destruct (is_awserr e);
     [destruct (numRetries - 1 >? 0)%Z eqn:Hpos |] |];
    cbv zeta; rewrite ?backoff_events; simpl.
  - exists (evs ++ backoff path). rewrite app_assoc.
    split; [reflexivity |].
    split; [apply Forall_app; split; [exact Habout | repeat constructor] |].
    rewrite open_calls_app, puts_app, sleeps_app, Hopens, Hsleeps.
    change (open_calls (backoff path)) with 0.
    change (puts (backoff path)) with 0.
    change (sleeps (backoff path)) with 1.
    repeat split; try lia; try discriminate.
    + intros Hd. rewrite (Hdry Hd). reflexivity.
    + injection H as <-. reflexivity.
    + injection H as <-. lia.
  - exists evs. repeat split; try assumption; try discriminate.
  - exists evs. repeat split; try assumption; try discriminate.
  - exists evs. repeat split; try assumption; try discriminate.
    intros n' H. injection H as <-. exact Hn.
Qed.

(** The retry loop entered with [numRetries >= 1] attempts. *)
Lemma retry_loop_history path : forall numRetries,
  (1 <= numRetries)%Z ->
  forall w,
  exists evs,
    snd (retry_loop env s path dryrun numRetries w) = w ++ evs
    /\ Forall (about env s path) evs
    /\ open_calls evs = sleeps evs + 1
    /\ open_calls evs <= Z.to_nat numRetries
    /\ puts evs <= open_calls evs
    /\ (dryrun = true -> puts evs = 0)
    /\ (forall n, fst (retry_loop env s path dryrun numRetries w) = TaskUploaded n ->
                  n = 0%Z \/ n = 1%Z).
Proof.
  intros numRetries.
  induction numRetries as [numRetries IH] using (well_founded_induction (Z.lt_wf 0)).
  intros Hpos w. rewrite retry_loop_pass.
  destruct (attempt_history path numRetries w)
    as (evs & Hw & Habout & Hopens & Hputs & Hdry & Hsleeps & Hn & Hretry).
  destruct (attempt env s path dryrun numRetries w) as [[n|r|v] w1];
    simpl in Hw, Hsleeps, Hn, Hretry; subst w1.
  - exists evs. simpl. repeat split; try assumption; try lia.
    intros n' H. injection H as <-. exact (Hn n eq_refl).
  - destruct (Hretry r eq_refl) as [-> Hr].
    destruct (IH (numRetries - 1)%Z ltac:(lia) Hr (w ++ evs))
      as (evs' & Hw' & Habout' & Hopens' & Hle' & Hputs' & Hdry' & Hn').
    exists (evs ++ evs'). rewrite Hw', app_assoc.
    split; [reflexivity |].
    split; [apply Forall_app; split; assumption |].
    rewrite open_calls_app, sleeps_app, puts_app.
    repeat split; try lia; try assumption.
    intros Hd. rewrite (Hdry Hd), (Hdry' Hd). reflexivity.
  - exists evs. simpl. repeat split; try assumption; try lia; discriminate.
Qed.

End AnyEnvironment.

(** The bounds of one task, whatever the environment does: the retry
    loop opens the file at most 30 times, pauses once before every open
    but the first (so at most 29 times), and sends at most one request per
    open, none in a dry run; every event is about the task, and a count
    that is reported is 0 or 1. *)
Theorem uploadTask_bounds (env : Env) (s : S3Upload) (path : string)
  (dryrun : bool) (w : World) :
  exists evs,
    snd (uploadTask env s path dryrun w) = w ++ evs
    /\ Forall (about env s path) evs
    /\ open_calls evs = sleeps evs + 1
    /\ open_calls evs <= 30
    /\ sleeps evs <= 29
    /\ puts evs <= open_calls evs
    /\ (dryrun = true -> puts evs = 0)
    /\ (forall n, fst (uploadTask env s path dryrun w) = TaskUploaded n ->
                  n = 0%Z \/ n = 1%Z).
Proof.
  destruct (retry_loop_history env s dryrun path 30 ltac:(lia) w)
    as (evs & Hw & Habout & Hopens & Hle & Hputs & Hdry & Hn).
  exists evs. unfold uploadTask. change (Z.to_nat 30) with 30 in Hle.
  repeat split; try assumption; lia.
Qed.

(* ================================================================== *)
(** ** Every run, in every environment *)

Section AnyRun.

Variable env : Env.
Variable s : S3Upload.
Variable dryrun : bool.
Variable files : list string.

Lemma within_budget_start parallel : within_budget files (start files parallel).
Proof.
  unfold within_budget, start. simpl.
  split; [apply Forall_repeat; exact I |].
  rewrite !sum_workers_repeat. change (puts []) with 0. change (sleeps []) with 0.
  simpl. lia.
Qed.

Lemma within_budget_kept p i p' :
  within_budget files p -> panicked p = None -> moves env s dryrun p i p' ->
  within_budget files p'.
Proof.
  unfold within_budget. intros [Hpos Hbudget] Hrun Hm. rewrite Hrun in Hbudget.
  destruct Hbudget as [Hputs Hsleeps].
  destruct Hm as [Hi Hq | path rest Hi Hq | path nr n w Hi Ha
                 | path nr nr' w Hi Ha | path nr v w Hi Ha | n Hi | v Hi];
    simpl;
    try (pose proof (Forall_nth_error _ _ _ _ Hpos Hi) as Hnr; simpl in Hnr);
    try (destruct (attempt_history env s dryrun path nr (world p))
           as (evs & Hw & _ & _ & Hle & _ & Hsl & _ & Hretry);
         rewrite Ha in Hw, Hsl, Hretry; simpl in Hw, Hsl, Hretry; subst w;
         rewrite puts_app, sleeps_app).
  - split; [apply Forall_set_worker; [assumption | exact I] |].
    pose proof (sum_set_worker attempts_left _ i Returned _ Hi) as H1.
    pose proof (sum_set_worker pauses_left _ i Returned _ Hi) as H2.
    rewrite Hq in *. simpl in *. lia.
  - split; [apply Forall_set_worker; [assumption | simpl; lia] |].
    pose proof (sum_set_worker attempts_left _ i (AtRetry path 30) _ Hi) as H1.
    pose proof (sum_set_worker pauses_left _ i (AtRetry path 30) _ Hi) as H2.
    rewrite Hq in *. simpl in *. lia.
  - split; [apply Forall_set_worker; [assumption | exact I] |].
    pose proof (sum_set_worker attempts_left _ i (AtAdd n) _ Hi) as H1.
    pose proof (sum_set_worker pauses_left _ i (AtAdd n) _ Hi) as H2.
    simpl in *. lia.
  - destruct (Hretry nr' eq_refl) as [-> Hr].
    split; [apply Forall_set_worker; [assumption | exact Hr] |].
    pose proof (sum_set_worker attempts_left _ i (AtRetry path (nr - 1)) _ Hi) as H1.
    pose proof (sum_set_worker pauses_left _ i (AtRetry path (nr - 1)) _ Hi) as H2.
    simpl in *. lia.
  - split; [apply Forall_set_worker; [assumption | exact I] |].
    pose proof (sum_set_worker attempts_left _ i (Panicking v) _ Hi) as H1.
    pose proof (sum_set_worker pauses_left _ i (Panicking v) _ Hi) as H2.
    simpl in *. lia.
  - split; [apply Forall_set_worker; [assumption | exact I] |].
    pose proof (sum_set_worker attempts_left _ i AtRange _ Hi) as H1.
    pose proof (sum_set_worker pauses_left _ i AtRange _ Hi) as H2.
    simpl in *. lia.
  - split; [assumption |]. lia.
Qed.

Lemma counted_start parallel : counted files (start files parallel).
Proof.
  unfold counted, start. simpl.
  split; [apply Forall_repeat; exact I |].
  rewrite sum_workers_repeat. simpl. lia.
Qed.

Lemma turns_fuel sched : forall p,
  turns_taken env s dryrun sched p + fuel (exec env s dryrun sched p) <= fuel p.
Proof.
  induction sched as [|i sched IH]; intros p; simpl; [lia |].
  destruct (step env s dryrun i p) as [p'|] eqn:Hstep; [| apply IH].
  pose proof (step_fuel env s dryrun p i p' Hstep). pose proof (IH p'). lia.
Qed.

Hypothesis fits : (Z.of_nat (List.length files) <= max_int)%Z.

Lemma counted_kept p i p' :
  counted files p -> panicked p = None -> moves env s dryrun p i p' ->
  counted files p'.
Proof.
  unfold counted. intros (Hbits & Hnum & Hcount) _ Hm.
  destruct Hm as [Hi Hq | path rest Hi Hq | path nr n w Hi Ha
                 | path nr nr' w Hi Ha | path nr v w Hi Ha | n Hi | v Hi];
    simpl;
    try (destruct (attempt_history env s dryrun path nr (world p))
           as (evs & _ & _ & _ & _ & _ & _ & Hn & _);
         rewrite Ha in Hn; simpl in Hn).
  - split; [apply Forall_set_worker; [assumption | exact I] |].
    pose proof (sum_set_worker busy _ i Returned _ Hi) as H.
    rewrite Hq in *. simpl in *. lia.
  - split; [apply Forall_set_worker; [assumption | exact I] |].
    pose proof (sum_set_worker busy _ i (AtRetry path 30) _ Hi) as H.
    rewrite Hq in *. simpl in *. lia.
  - split; [apply Forall_set_worker; [assumption | exact (Hn n eq_refl)] |].
    pose proof (sum_set_worker busy _ i (AtAdd n) _ Hi) as H.
    simpl in *. lia.
  - split; [apply Forall_set_worker; [assumption | exact I] |].
    pose proof (sum_set_worker busy _ i (AtRetry path nr') _ Hi) as H.
    simpl in *. lia.
  - split; [apply Forall_set_worker; [assumption | exact I] |].
    pose proof (sum_set_worker busy _ i (Panicking v) _ Hi) as H.
    simpl in *. lia.
  - pose proof (Forall_nth_error _ _ _ _ Hbits Hi) as Hn. simpl in Hn.
    pose proof (sum_set_worker busy _ i AtRange _ Hi) as H. simpl in H.
    assert (Hadd : AddUint64 (num p) (uint64 n) = (num p + n)%Z).
    { unfold AddUint64, uint64. unfold max_int in fits.
      rewrite (Z.mod_small n) by lia. apply Z.mod_small. lia. }
    split; [apply Forall_set_worker; [assumption | exact I] |].
    rewrite Hadd. lia.
  - split; [assumption |]. lia.
Qed.

Lemma confined_start parallel : confined env s files (start files parallel).
Proof.
  unfold confined, start. simpl.
  split; [constructor |]. split; [auto |]. apply Forall_repeat. exact I.
Qed.

Lemma confined_kept p i p' :
  confined env s files p -> panicked p = None -> moves env s dryrun p i p' ->
  confined env s files p'.
Proof.
  unfold confined. intros (Hworld & Hqueue & Hhands) _ Hm.
  destruct Hm as [Hi Hq | path rest Hi Hq | path nr n w Hi Ha
                 | path nr nr' w Hi Ha | path nr v w Hi Ha | n Hi | v Hi];
    simpl;
    try (pose proof (Forall_nth_error _ _ _ _ Hhands Hi) as Hlisted;
         simpl in Hlisted;
         destruct (attempt_history env s dryrun path nr (world p))
           as (evs & Hw & Habout & _);
         rewrite Ha in Hw; simpl in Hw; subst w;
         assert (Hevs : Forall (about_listed env s files) (world p ++ evs))
           by (apply Forall_app; split; [exact Hworld |];
               apply (Forall_impl _ (fun ev H => ex_intro _ path (conj Hlisted H)));
               exact Habout)).
  - repeat split; try assumption; [intros path [] |].
    apply Forall_set_worker; [assumption | exact I].
  - repeat split; try assumption.
    + intros q Hin. apply Hqueue. rewrite Hq. right. exact Hin.
    + apply Forall_set_worker; [assumption |].
      apply Hqueue. rewrite Hq. left. reflexivity.
  - repeat split; try assumption.
    apply Forall_set_worker; [assumption | exact I].
  - repeat split; try assumption.
    apply Forall_set_worker; [assumption | exact Hlisted].
  - repeat split; try assumption.
    apply Forall_set_worker; [assumption | exact I].
  - repeat split; try assumption.
    apply Forall_set_worker; [assumption | exact I].
  - repeat split; assumption.
Qed.

End AnyRun.

(** The requests of a run are bounded.  Whatever the environment, the
    mode, the parallelism and the schedule, a run of [Upload] sends at
    most 30 requests and pauses at most 29 times for each enumerated
    file. *)
Theorem Upload_requests_bounded (env : Env) (s : S3Upload) (parallel : Z)
  (dryrun : bool) (sched : list nat) :
  puts (snd (Upload env s parallel dryrun sched))
  <= 30 * List.length (fst (sourceFiles env s))
  /\ sleeps (snd (Upload env s parallel dryrun sched))
     <= 29 * List.length (fst (sourceFiles env s)).
Proof.
  unfold Upload. destruct (sourceFiles env s) as [files [e|]]; simpl.
  - change (puts []) with 0. change (sleeps []) with 0. lia.
  - pose proof (exec_invariant env s dryrun (within_budget files)
                  (within_budget_kept env s dryrun files)
                  sched (start files parallel)
                  (within_budget_start files parallel)) as [_ Hbudget].
    destruct (panicked (exec env s dryrun sched (start files parallel)));
      destruct Hbudget; lia.
Qed.

(** The count is bounded.  Whatever the environment, the mode, the
    parallelism and the schedule, the count that [Upload] returns lies
    between 0 and the number of enumerated files (which fits Go's
    [int]): the 64-bit counter does not wrap around. *)
Theorem Upload_count_bounded (env : Env) (s : S3Upload) (parallel : Z)
  (dryrun : bool) (sched : list nat) :
  (Z.of_nat (List.length (fst (sourceFiles env s))) <= max_int)%Z ->
  forall n err,
    fst (Upload env s parallel dryrun sched) = Return n err ->
    (0 <= n <= Z.of_nat (List.length (fst (sourceFiles env s))))%Z.
Proof.
  unfold Upload. destruct (sourceFiles env s) as [files [e|]]; simpl.
  - intros _ n err H. injection H as <- _. lia.
  - intros Hfits n err.
    pose proof (exec_invariant env s dryrun (counted files)
                  (counted_kept env s dryrun files Hfits)
                  sched (start files parallel)
                  (counted_start files parallel)) as (_ & Hnum & Hcount).
    unfold verdict.
    destruct (panicked _); [discriminate |].
    destruct (all_done _); [| discriminate].
    intros H. injection H as <- _. lia.
Qed.

Lemma Upload_count_bounded_witness :
  fst (Upload (Demo.env_with Demo.scenario_fs)
         (Demo.uploader "/srv/www" "site" ["sub/*"]) 3 false
         [2; 0; 2; 0; 1; 2; 0; 0; 2]) = Return 2 None
  /\ (0 <= 2 <= 2)%Z.
Proof.
  split; [reflexivity |].
  apply (Upload_count_bounded (Demo.env_with Demo.scenario_fs)
           (Demo.uploader "/srv/www" "site" ["sub/*"]) 3 false
           [2; 0; 2; 0; 1; 2; 0; 0; 2]
           ltac:(vm_compute; discriminate) 2 None).
  reflexivity.
Defined.

(** Nothing but the enumerated files is touched.  In every run, every
    file that is opened is the local file of an enumerated path, and every
    request that is sent is the request [uploadFile] builds for an
    enumerated path: to the configured bucket, under the key of that path,
    with the local file as body, an access-control value and a content
    type that are not empty, and a cache-control header only when one is
    configured.  A path that the enumerator left out is neither opened
    nor uploaded. *)
Theorem Upload_touches_enumerated_only (env : Env) (s : S3Upload) (parallel : Z)
  (dryrun : bool) (sched : list nat) :
  (forall name,
     In (EvOpen name) (snd (Upload env s parallel dryrun sched)) ->
     exists path, In path (fst (sourceFiles env s)) /\ name = localName s path)
  /\ (forall obj,
        In (EvPut obj) (snd (Upload env s parallel dryrun sched)) ->
        exists path,
          In path (fst (sourceFiles env s))
          /\ obj = putObjectInput env s path
          /\ obj_Bucket obj = Bucket (S3 (Config_ s))
          /\ obj_Key obj = destPath s path
          /\ obj_Body obj = localName s path
          /\ obj_ACL obj <> ""
          /\ obj_ContentType obj <> ""
          /\ (CacheControl (S3 (Config_ s)) = "" -> obj_CacheControl obj = None)
          /\ (CacheControl (S3 (Config_ s)) <> "" ->
              obj_CacheControl obj = Some (CacheControl (S3 (Config_ s))))).
Proof.
  assert (Hall : Forall (about_listed env s (fst (sourceFiles env s)))
                   (snd (Upload env s parallel dryrun sched))).
  { unfold Upload. destruct (sourceFiles env s) as [files [e|]]; simpl.
    - constructor.
    - exact (proj1 (exec_invariant env s dryrun (confined env s files)
                      (confined_kept env s dryrun files)
                      sched (start files parallel)
                      (confined_start env s files parallel))). }
  rewrite Forall_forall in Hall. split.
  - intros name Hin. destruct (Hall _ Hin) as (path & Hpath & Habout).
    exists path. split; [exact Hpath | exact Habout].
  - intros obj Hin. destruct (Hall _ Hin) as (path & Hpath & Habout).
    simpl in Habout. subst obj. exists path.
    split; [exact Hpath |]. split; [reflexivity |].
    unfold putObjectInput. simpl.
    repeat split.
    + destruct (String.eqb_spec (ACL (S3 (Config_ s))) ""); [discriminate | assumption].
    + destruct (String.eqb_spec
                  (mime_TypeByExtension env (Filepath.Ext path)) "");
        [discriminate | assumption].
    + intros ->. reflexivity.
    + intros Hcc. rewrite (proj2 (String.eqb_neq _ _) Hcc). reflexivity.
Qed.

(** Every run ends.  The goroutines of a run take at most [33 * N + P]
    steps in all ([N] enumerated files, [P] goroutines), whatever the
    environment and the schedule; as long as the run has not ended, some
    goroutine can take a step, and every run can be continued to its
    end. *)
Theorem Upload_terminates (env : Env) (s : S3Upload) (parallel : Z)
  (dryrun : bool) (files : list string) (sched : list nat) :
  turns_taken env s dryrun sched (start files parallel)
  <= 33 * List.length files + Z.to_nat parallel
  /\ (verdict (exec env s dryrun sched (start files parallel)) = Running ->
      exists i p',
        step env s dryrun i (exec env s dryrun sched (start files parallel))
        = Some p')
  /\ exists more,
       verdict (exec env s dryrun (sched ++ more) (start files parallel))
       <> Running.
Proof.
  split; [| split].
  - pose proof (turns_fuel env s dryrun sched (start files parallel)) as H.
    unfold fuel at 2 in H. unfold start in H at 2 3. simpl in H.
    rewrite sum_workers_repeat in H. simpl in H. lia.
  - apply progress.
  - destruct (completion env s dryrun (exec env s dryrun sched (start files parallel)))
      as (more & Hmore).
    exists more. rewrite exec_app. exact Hmore.
Qed.

(* ================================================================== *)
(** ** Live runs in which every first attempt succeeds: every task once *)

Lemma sum_tasks_const k files : sum_tasks (fun _ => k) files = List.length files * k.
Proof.
  induction files as [|path files IH]; simpl; [reflexivity | rewrite IH; lia].
Qed.

Lemma in_hand_idle f ws :
  forallb is_done ws = true -> sum_workers (in_hand f) ws = 0.
Proof.
  induction ws as [|wk ws IH]; simpl; [reflexivity |].
  intros H. apply andb_true_iff in H as [Hwk Hws].
  destruct wk; try discriminate; exact (IH Hws).
Qed.

Section Tally.

Variable env : Env.
Variable s : S3Upload.
Variable files : list string.
Variable c : World -> nat.
Variable f : string -> nat.

Hypothesis first_try : first_attempts_succeed env s files.
Hypothesis counts_transfer :
  forall w path, c (w ++ transfer env s path) = c w + f path.

Lemma tallied_start parallel : c [] = 0 -> tallied c f files (start files parallel).
Proof.
  intros Hc. unfold tallied, pending, start. simpl.
  rewrite Hc, sum_workers_repeat. simpl. lia.
Qed.

Lemma tallied_kept p i p' :
  live s files p /\ tallied c f files p ->
  panicked p = None -> moves env s false p i p' ->
  tallied c f files p'.
Proof.
  unfold tallied, pending. intros [Hlive Htally] _ Hm.
  destruct Hm as [Hi Hq | path rest Hi Hq | path nr n w Hi Ha
                 | path nr nr' w Hi Ha | path nr v w Hi Ha | n Hi | v Hi];
    try (rewrite (live_attempt env s files first_try p i path nr Hlive Hi) in Ha;
         try discriminate; injection Ha as <- <-);
    simpl.
  - pose proof (sum_set_worker (in_hand f) _ i Returned _ Hi) as H.
    rewrite Hq in *. simpl in *. lia.
  - pose proof (sum_set_worker (in_hand f) _ i (AtRetry path 30) _ Hi) as H.
    rewrite Hq in *. simpl in *. lia.
  - pose proof (sum_set_worker (in_hand f) _ i (AtAdd 1) _ Hi) as H.
    rewrite counts_transfer. simpl in *. lia.
  - pose proof (sum_set_worker (in_hand f) _ i AtRange _ Hi) as H.
    simpl in *. lia.
  - exfalso. exact (Forall_nth_error _ _ _ _ (live_calm s files p Hlive) Hi).
Qed.

Hypothesis fits : (Z.of_nat (List.length files) <= max_int)%Z.
Hypothesis starts_empty : c [] = 0.

(** At the end of such a run every task has been attempted. *)
Lemma tally_at_end parallel sched :
  (1 <= parallel)%Z ->
  verdict (exec env s false sched (start files parallel)) <> Running ->
  c (world (exec env s false sched (start files parallel))) = sum_tasks f files.
Proof.
  intros Hpar Hend.
  pose proof (exec_invariant env s false
                (fun q => live s files q /\ tallied c f files q)
                (fun q i q' Hq Hrun Hm =>
                   conj (live_kept env s files first_try fits q i q' (proj1 Hq) Hrun Hm)
                        (tallied_kept q i q' Hq Hrun Hm))
                sched (start files parallel)
                (conj (live_start s files parallel)
                      (tallied_start parallel starts_empty)))
    as [Hlive Htally].
  pose proof (exec_workers_length env s false sched (start files parallel)) as Hlen.
  set (p := exec env s false sched (start files parallel)) in *.
  unfold verdict in Hend. rewrite (live_running s files p Hlive) in Hend.
  unfold all_done in Hend.
  destruct (forallb is_done (workers p)) eqn:Hall; [| congruence].
  unfold tallied, pending in Htally.
  rewrite (in_hand_idle f _ Hall) in Htally.
  destruct (live_drained s files p Hlive) as [Hempty | Hnone].
  - rewrite Hempty in Htally. simpl in Htally. lia.
  - exfalso.
    apply (proj2 (all_returned_idle _ Hall));
      [| exact (live_calm s files p Hlive) | exact Hnone].
    intros Hnil. rewrite Hnil in Hlen. unfold start in Hlen. simpl in Hlen.
    rewrite repeat_length in Hlen. lia.
Qed.

End Tally.

(** Every task exactly once.  In a live run in which every task succeeds
    on its first attempt, when the run has ended, the history holds one
    open and one request for each task and no pause: every local name has
    been opened as often as the list has tasks of that name, and every key
    has been requested as often as the list has tasks with that key.  No
    task is dropped and none is uploaded by two goroutines. *)
Theorem Upload_each_task_once (env : Env) (s : S3Upload) (parallel : Z)
  (files : list string) (sched : list nat) :
  sourceFiles env s = (files, None) ->
  (1 <= parallel)%Z ->
  (Z.of_nat (List.length files) <= max_int)%Z ->
  first_attempts_succeed env s files ->
  fst (Upload env s parallel false sched) <> Running ->
  let w := snd (Upload env s parallel false sched) in
  puts w = List.length files
  /\ open_calls w = List.length files
  /\ sleeps w = 0
  /\ (forall key, puts_of key w = sum_tasks (keyed s key) files)
  /\ (forall name, opens_of name w = sum_tasks (named s name) files).
Proof.
  intros Hfiles Hpar Hfits Hfirst. unfold Upload. rewrite Hfiles. simpl.
  intros Hend.
  pose proof (fun c f Hc H0 =>
                tally_at_end env s files c f Hfirst Hc Hfits H0 parallel sched
                  Hpar Hend) as Htally.
  split; [| split; [| split; [| split]]].
  - rewrite (Htally puts (fun _ => 1)); [| | reflexivity].
    + rewrite sum_tasks_const. lia.
    + intros w path. rewrite puts_app. reflexivity.
  - rewrite (Htally open_calls (fun _ => 1)); [| | reflexivity].
    + rewrite sum_tasks_const. lia.
    + intros w path. rewrite open_calls_app. reflexivity.
  - rewrite (Htally sleeps (fun _ => 0)); [| | reflexivity].
    + rewrite sum_tasks_const. lia.
    + intros w path. rewrite sleeps_app. reflexivity.
  - intros key. apply (Htally (puts_of key) (keyed s key)); [| reflexivity].
    intros w path. apply puts_of_transfer.
  - intros name. apply (Htally (opens_of name) (named s name)); [| reflexivity].
    intros w path. apply opens_of_transfer.
Qed.

Lemma Upload_each_task_once_witness :
  let env := Demo.env_with Demo.scenario_fs in
  let s := Demo.uploader "/srv/www" "site" ["sub/*"] in
  let w := snd (Upload env s 2 false [0; 1; 1; 0; 0; 1; 1; 0]) in
  puts w = 2 /\ puts_of "/site/a.txt" w = 1 /\ puts_of "/site/sub/c.txt" w = 0.
Proof.
  intros env s w.
  assert (Hfirst : first_attempts_succeed env s ["a.txt"; "b.png"]).
  { intros path _. split; intros k _; reflexivity. }
  assert (Hfits : (Z.of_nat (List.length ["a.txt"; "b.png"]) <= max_int)%Z)
    by (vm_compute; discriminate).
  assert (Hend : fst (Upload env s 2 false [0; 1; 1; 0; 0; 1; 1; 0]) <> Running)
    by (vm_compute; discriminate).
  destruct (Upload_each_task_once env s 2 ["a.txt"; "b.png"]
              [0; 1; 1; 0; 0; 1; 1; 0] eq_refl ltac:(lia) Hfits Hfirst Hend)
    as (Hputs & _ & _ & Hkeys & _).
  split; [exact Hputs |].
  split; [exact (Hkeys "/site/a.txt") | exact (Hkeys "/site/sub/c.txt")].
Defined.

(* ================================================================== *)
(** ** From the configuration to the enumeration *)

(** An uploader built by [NewS3Upload] meets what the enumerator needs.
    When the working directory is an absolute name, the source path of the
    uploader is not [/], the ignore patterns are well formed and the tree
    at the source path has no faults, [sourceFiles] returns the relative
    paths of the files under the source that the filter lets through,
    however the source was written in the configuration (relative, with
    [.] or [..] elements, with doubled or trailing separators).  The files
    under the source are the regular files and the symbolic links that
    lead to one; a link to a directory is not entered, and a source that
    is itself a symbolic link has no files under it: the list is empty.
    A tree without faults holds no link that leads nowhere. *)
Theorem NewS3Upload_then_sourceFiles (host : Host) (env : Env) (cfg : Config)
  (s3c : S3Upload) (conn : option Session) (n : node) :
  Filepath.is_rooted (fst (os_Getwd host)) = true ->
  fst (NewS3Upload host cfg) = Some (s3c, conn) ->
  SourcePath s3c <> "/" ->
  (forall pat path, In pat (Ignore (S3 cfg)) -> well_formed env pat path) ->
  resolve (elements (SourcePath s3c)) (fs env) = Some n ->
  healthy n ->
  sourceFiles env s3c
  = (filter (uploadable env s3c) (map joined (files_below n)), None).
Proof.
  intros Hwd Hnew Hslash Hwf Hres Hn.
  destruct (NewS3Upload_some host cfg s3c conn Hnew) as (Hcfg & Habs).
  destruct (Abs_clean host _ _ Hwd Habs) as (elems & Hplain & Hsource).
  rewrite Hsource, (elements_rooted elems Hplain) in Hres.
  apply (sourceFiles_kept env s3c elems Hsource Hplain); [| | exact Hres | exact Hn].
  - intros ->. apply Hslash. rewrite Hsource. reflexivity.
  - intros path. apply loop_well_formed. intros pat Hin.
    apply Hwf. rewrite <- Hcfg. exact Hin.
Qed.

Lemma NewS3Upload_then_sourceFiles_witness :
  exists s3c conn,
    fst (NewS3Upload DemoHost.host (DemoHost.config "/srv//www/sub/.." "" "bucket"))
    = Some (s3c, conn)
    /\ sourceFiles (Demo.env_with Demo.scenario_fs) s3c
       = (["a.txt"; "b.png"; "sub/c.txt"], None)
    /\ sourceFiles (Demo.env_with DemoLinks.linked_fs) s3c
       = (["a.txt"; "current.txt"; "sub/c.txt"], None)
    /\ sourceFiles (Demo.env_with DemoLinks.linked_source_fs) s3c
       = ([], None).
Proof.
  eexists. eexists. split; [reflexivity |].
  split; [| split].
  - refine (NewS3Upload_then_sourceFiles DemoHost.host
              (Demo.env_with Demo.scenario_fs)
              (DemoHost.config "/srv//www/sub/.." "" "bucket")
              _ _ _ eq_refl eq_refl _ _ eq_refl _).
    + discriminate.
    + intros pat path [].
    + simpl. repeat split; try reflexivity;
        repeat (constructor; [simpl; intuition discriminate |]); constructor.
  - refine (NewS3Upload_then_sourceFiles DemoHost.host
              (Demo.env_with DemoLinks.linked_fs)
              (DemoHost.config "/srv//www/sub/.." "" "bucket")
              _ _ _ eq_refl eq_refl _ _ eq_refl _).
    + discriminate.
    + intros pat path [].
    + unfold present. simpl. repeat split; try reflexivity;
        repeat (constructor; [simpl; intuition discriminate |]); constructor.
  - refine (NewS3Upload_then_sourceFiles DemoHost.host
              (Demo.env_with DemoLinks.linked_source_fs)
              (DemoHost.config "/srv//www/sub/.." "" "bucket")
              _ _ _ eq_refl eq_refl _ _ eq_refl _).
    + discriminate.
    + intros pat path [].
    + exact I.
Defined.

(* ================================================================== *)
(** ** Runs: a file that cannot be sent *)

Section Drained.

Variable env : Env.
Variable s : S3Upload.
Variable dryrun : bool.

Lemma drained_start files parallel : drained (start files parallel).
Proof. right. apply Forall_repeat. exact I. Qed.

Lemma drained_kept p i p' :
  drained p -> panicked p = None -> moves env s dryrun p i p' -> drained p'.
Proof.
  unfold drained. intros Hd _ Hm.
  destruct Hm as [Hi Hq | path rest Hi Hq | path nr n w Hi Ha
                 | path nr nr' w Hi Ha | path nr v w Hi Ha | n Hi | v Hi]; simpl;
    try (destruct Hd as [Hempty | Hnone];
         [left; assumption
         | right; apply Forall_set_worker; [assumption | exact I]]).
  - left. reflexivity.
  - right. destruct Hd as [Hempty | Hnone]; [congruence |].
    apply Forall_set_worker; [assumption | exact I].
  - exact Hd.
Qed.

(** When every goroutine of a pool that has some has returned, the
    channel is empty. *)
Lemma drained_at_end p :
  drained p -> workers p <> [] -> Forall not_Panicking (workers p) ->
  forallb is_done (workers p) = true ->
  fch p = [].
Proof.
  intros [Hempty | Hnone] Hsome Hcalm Hall; [exact Hempty |].
  exfalso. exact (proj2 (all_returned_idle _ Hall) Hsome Hcalm Hnone).
Qed.

End Drained.

(** When the wait group is at zero and no goroutine has returned, the
    goroutines are all in a panic. *)
Lemma all_panicking ws :
  forallb is_done ws = true -> Forall not_Returned ws -> ws <> [] ->
  1 <= sum_workers in_panic ws.
Proof.
  destruct ws as [|wk ws]; [congruence |]. simpl.
  intros H Hnone _. apply andb_true_iff in H as [Hwk _].
  inversion Hnone as [|? ? Hnot _]. destruct wk; try discriminate; simpl.
  - destruct Hnot.
  - lia.
Qed.

Lemma in_panic_found ws :
  1 <= sum_workers in_panic ws ->
  exists i v, nth_error ws i = Some (Panicking v).
Proof.
  induction ws as [|wk ws IH]; simpl; [lia |].
  destruct wk as [| | | |v]; simpl; intros H;
    try (destruct (IH H) as (i & v & Hi); exists (S i), v; exact Hi).
  exists 0, v. reflexivity.
Qed.

Section Unsendable.

Variable env : Env.
Variable s : S3Upload.
Variable files : list string.
Variable path : string.

Hypothesis never_sent :
  forall k, PutObject_Send env (putObjectInput env s path) k <> None.

(** A live pass on the task never ends with a count. *)
Lemma attempt_never_uploads numRetries w n w' :
  attempt env s path false numRetries w <> (Uploaded n, w').
Proof.
  unfold attempt.
  destruct (os_Open env (localName s path) (opens_of (localName s path) w))
    as [reason|] eqn:Hopen.
  - rewrite (uploadFile_open_fails env s path false w reason Hopen).
    discriminate.
  - rewrite (uploadFile_live env s path w Hopen).
    destruct (PutObject_Send env (putObjectInput env s path)
                (puts_of (destPath s path) w)) as [e|] eqn:Hsent;
      [| exfalso; exact (never_sent _ Hsent)].
    simpl. destruct (is_awserr e); [destruct (_ >? _)%Z |]; discriminate.
Qed.

(** While the process runs, the task is queued or in the hand of a
    goroutine, or a goroutine is in a panic. *)
Lemma this_task_kept p i p' :
  (panicked p = None ->
   1 <= pending (this_task path) p + sum_workers in_panic (workers p)) ->
  panicked p = None -> moves env s false p i p' ->
  (panicked p' = None ->
   1 <= pending (this_task path) p' + sum_workers in_panic (workers p')).
Proof.
  unfold pending. intros Hpend Hrun Hm. specialize (Hpend Hrun).
  destruct Hm as [Hi Hq | q rest Hi Hq | q nr n w Hi Ha
                 | q nr nr' w Hi Ha | q nr v w Hi Ha | n Hi | v Hi];
    unfold with_worker, with_panic; simpl; intros Hp; try discriminate Hp.
  - pose proof (sum_set_worker (in_hand (this_task path)) _ i Returned _ Hi) as H.
    pose proof (sum_set_worker in_panic _ i Returned _ Hi) as H'.
    rewrite Hq in *. simpl in *. lia.
  - pose proof (sum_set_worker (in_hand (this_task path)) _ i (AtRetry q 30) _ Hi) as H.
    pose proof (sum_set_worker in_panic _ i (AtRetry q 30) _ Hi) as H'.
    rewrite Hq in *. simpl in *. lia.
  - pose proof (sum_set_worker (in_hand (this_task path)) _ i (AtAdd n) _ Hi) as H.
    pose proof (sum_set_worker in_panic _ i (AtAdd n) _ Hi) as H'.
    simpl in H, H'.
    assert (Hq : this_task path q = 0).
    { unfold this_task. destruct (String.eqb_spec q path) as [-> | _];
        [| reflexivity].
      exfalso. exact (attempt_never_uploads _ _ _ _ Ha). }
    lia.
  - pose proof (sum_set_worker (in_hand (this_task path)) _ i (AtRetry q nr') _ Hi) as H.
    pose proof (sum_set_worker in_panic _ i (AtRetry q nr') _ Hi) as H'.
    simpl in *. lia.
  - pose proof (sum_set_worker in_panic _ i (Panicking v) _ Hi) as H'.
    simpl in *. lia.
  - pose proof (sum_set_worker (in_hand (this_task path)) _ i AtRange _ Hi) as H.
    pose proof (sum_set_worker in_panic _ i AtRange _ Hi) as H'.
    simpl in *. lia.
Qed.

Lemma this_task_listed : In path files -> 1 <= sum_tasks (this_task path) files.
Proof.
  induction files as [|q rest IH]; intros Hin; [destruct Hin |].
  simpl. destruct Hin as [-> | Hin].
  - unfold this_task at 1. rewrite String.eqb_refl. lia.
  - specialize (IH Hin). lia.
Qed.

(** Whenever such a run has come to the point where [Upload] returns, a
    goroutine is in a panic. *)
Lemma return_in_panic parallel sched n err :
  (1 <= parallel)%Z -> In path files ->
  verdict (exec env s false sched (start files parallel)) = Return n err ->
  exists i v,
    nth_error (workers (exec env s false sched (start files parallel))) i
    = Some (Panicking v)
    /\ panicked (exec env s false sched (start files parallel)) = None.
Proof.
  intros Hpar Hin.
  pose proof (exec_invariant env s false
                (fun q => (panicked q = None ->
                           1 <= pending (this_task path) q
                                + sum_workers in_panic (workers q))
                          /\ drained q)
                (fun q i q' Hq Hrun Hm =>
                   conj (this_task_kept q i q' (proj1 Hq) Hrun Hm)
                        (drained_kept env s false q i q' (proj2 Hq) Hrun Hm))
                sched (start files parallel)) as Hinv.
  destruct Hinv as [Hpend Hdrained].
  { split; [| apply drained_start].
    intros _. unfold pending, start. simpl.
    pose proof (this_task_listed Hin). lia. }
  pose proof (exec_workers_length env s false sched (start files parallel)) as Hlen.
  set (p := exec env s false sched (start files parallel)) in *.
  unfold verdict, all_done.
  destruct (panicked p) eqn:Hp; [discriminate |].
  destruct (forallb is_done (workers p)) eqn:Hall; [| discriminate].
  intros _. specialize (Hpend eq_refl). unfold pending in Hpend.
  rewrite (in_hand_idle _ _ Hall) in Hpend.
  assert (Hsome : workers p <> []).
  { intros Hnil. rewrite Hnil in Hlen. unfold start in Hlen. simpl in Hlen.
    rewrite repeat_length in Hlen. lia. }
  assert (Hpanic : 1 <= sum_workers in_panic (workers p)).
  { destruct Hdrained as [Hempty | Hnone].
    - rewrite Hempty in Hpend. simpl in Hpend. lia.
    - exact (all_panicking _ Hall Hnone Hsome). }
  destruct (in_panic_found _ Hpanic) as (i & v & Hi).
  exists i, v. split; [exact Hi | reflexivity].
Qed.

End Unsendable.

(** No run ends well when a file cannot be sent.  When the request for
    one enumerated file fails on every attempt, with whatever error, a
    live run with a goroutine never completes without a panic: at the
    moment [Upload] returns its count, some goroutine is in a panic, and
    the next step of that goroutine is the exit of the process; and every
    run can be continued to that exit.  ([Upload] can return before the
    process exits: the goroutine that panics runs its [wg.Done()]
    first.) *)
Theorem Upload_unsendable_file_panics (env : Env) (s : S3Upload) (parallel : Z)
  (files : list string) (path : string) :
  sourceFiles env s = (files, None) ->
  (1 <= parallel)%Z ->
  In path files ->
  (forall k, PutObject_Send env (putObjectInput env s path) k <> None) ->
  (forall sched n err,
     fst (Upload env s parallel false sched) = Return n err ->
     exists i v, fst (Upload env s parallel false (sched ++ [i])) = Abort v)
  /\ (forall sched, exists more v,
        fst (Upload env s parallel false (sched ++ more)) = Abort v).
Proof.
  intros Hfiles Hpar Hin Hnever.
  assert (Hnext : forall sched n err,
            verdict (exec env s false sched (start files parallel)) = Return n err ->
            exists i v,
              verdict (exec env s false (sched ++ [i]) (start files parallel))
              = Abort v).
  { intros sched n err Hret.
    destruct (return_in_panic env s files path Hnever parallel sched n err
                Hpar Hin Hret) as (i & v & Hi & Hp).
    exists i, v. rewrite exec_app. unfold exec at 1.
    rewrite (step_Panicking env s false _ i v Hp Hi). reflexivity. }
  split.
  - intros sched n err. unfold Upload. rewrite Hfiles. simpl. apply Hnext.
  - intros sched. unfold Upload. rewrite Hfiles. simpl.
    destruct (completion env s false (exec env s false sched (start files parallel)))
      as (more & Hmore).
    rewrite <- exec_app in Hmore.
    destruct (verdict (exec env s false (sched ++ more) (start files parallel)))
      as [n err | v |] eqn:Hv; [| exists more, v; exact Hv | congruence].
    destruct (Hnext _ n err Hv) as (i & v & Habort).
    exists (more ++ [i]), v. rewrite app_assoc. exact Habort.
Qed.

Lemma Upload_unsendable_file_panics_witness :
  let env :=
    {| zglob_Match := Demo.Match; mime_TypeByExtension := Demo.TypeByExtension;
       fs := Demo.scenario_fs; os_Open := fun _ _ => None;
       PutObject_Send := fun obj _ =>
         if String.eqb (obj_Key obj) "/site/b.png"
         then Some (AwsError "AccessDenied" "Access Denied") else None |} in
  let s := Demo.uploader "/srv/www" "site" ["sub/*"] in
  let sched := [0; 1; 0; 0; 0] ++ repeat 1 30 in
  fst (Upload env s 2 false sched) = Return 1 None
  /\ fst (Upload env s 2 false (sched ++ [1]))
     = Abort (PanicError (AwsError "AccessDenied" "Access Denied"))
  /\ exists i v, fst (Upload env s 2 false (sched ++ [i])) = Abort v.
Proof.
  intros env s sched. split; [reflexivity | split; [reflexivity |]].
  refine (proj1 (Upload_unsendable_file_panics env s 2 ["a.txt"; "b.png"] "b.png"
                   eq_refl _ _ _) sched 1%Z None eq_refl).
  - lia.
  - right. left. reflexivity.
  - intros k. discriminate.
Defined.

(* ================================================================== *)
(** ** Dry runs: every task is announced once *)

Lemma append_length (a b : string) :
  String.length (a ++ b) = String.length a + String.length b.
Proof. induction a as [|c a IH]; simpl; [reflexivity | rewrite IH; reflexivity]. Qed.

Lemma append_cancel_l (p a b : string) : (p ++ a = p ++ b)%string -> a = b.
Proof.
  induction p as [|c p IH]; simpl; intros H; [exact H |].
  injection H as H. exact (IH H).
Qed.

Lemma append_cancel_r (t : string) : forall a b : string,
  (a ++ t = b ++ t)%string -> a = b.
Proof.
  induction a as [|c a IH]; intros [|d b] H; simpl in H.
  - reflexivity.
  - exfalso. apply (f_equal String.length) in H. simpl in H.
    rewrite append_length in H. lia.
  - exfalso. apply (f_equal String.length) in H. simpl in H.
    rewrite append_length in H. lia.
  - injection H as -> H. f_equal. exact (IH b H).
Qed.

(** The line that announces an upload names one key. *)
Lemma uploading_eqb dryrun key key' :
  String.eqb (uploading dryrun key) (uploading dryrun key') = String.eqb key key'.
Proof.
  destruct (String.eqb_spec key key') as [-> | Hne]; [apply String.eqb_refl |].
  apply String.eqb_neq. intros H. apply Hne. unfold uploading in H.
  destruct dryrun; apply append_cancel_l, append_cancel_r in H; exact H.
Qed.

Section Rehearsal.

Variable env : Env.
Variable s : S3Upload.
Variable files : list string.
Variable c : World -> nat.
Variable f : string -> nat.

Hypothesis opens : forall name k, os_Open env name k = None.
Hypothesis counts_rehearsal :
  forall w path, c (w ++ rehearsal s path) = c w + f path.
Hypothesis starts_empty : c [] = 0.

Lemma rehearsed_kept p i p' :
  calm p /\ tallied c f files p ->
  panicked p = None -> moves env s true p i p' ->
  calm p' /\ tallied c f files p'.
Proof.
  intros [Hcalm Htally] Hrun Hm.
  split; [exact (dry_opens_kept env s p i p' opens Hcalm Hm) |].
  unfold tallied, pending in *. destruct Hcalm as [_ Hcalm].
  destruct Hm as [Hi Hq | path rest Hi Hq | path nr n w Hi Ha
                 | path nr nr' w Hi Ha | path nr v w Hi Ha | n Hi | v Hi];
    try (rewrite (attempt_dry_opens env s path nr (world p) (opens _ _)) in Ha;
         try discriminate; injection Ha as <- <-);
    unfold with_worker; simpl;
    try (exfalso; exact (Forall_nth_error _ _ _ _ Hcalm Hi)).
  - pose proof (sum_set_worker (in_hand f) _ i Returned _ Hi) as H.
    rewrite Hq in *. simpl in *. lia.
  - pose proof (sum_set_worker (in_hand f) _ i (AtRetry path 30) _ Hi) as H.
    rewrite Hq in *. simpl in *. lia.
  - pose proof (sum_set_worker (in_hand f) _ i (AtAdd 0) _ Hi) as H.
    rewrite counts_rehearsal. simpl in *. lia.
  - pose proof (sum_set_worker (in_hand f) _ i AtRange _ Hi) as H.
    simpl in *. lia.
Qed.

(** At the end of a dry run every task has been rehearsed. *)
Lemma rehearsed_at_end parallel sched :
  (1 <= parallel)%Z ->
  verdict (exec env s true sched (start files parallel)) <> Running ->
  c (world (exec env s true sched (start files parallel))) = sum_tasks f files.
Proof.
  intros Hpar Hend.
  pose proof (exec_invariant env s true
                (fun q => (calm q /\ tallied c f files q) /\ drained q)
                (fun q i q' Hq Hrun Hm =>
                   conj (rehearsed_kept q i q' (proj1 Hq) Hrun Hm)
                        (drained_kept env s true q i q' (proj2 Hq) Hrun Hm))
                sched (start files parallel)) as Hinv.
  destruct Hinv as [[[Hnp Hcalm] Htally] Hdrained].
  { split; [split; [split; [reflexivity | apply Forall_repeat; exact I] |]
           | apply drained_start].
    unfold tallied, pending, start. simpl.
    rewrite starts_empty, sum_workers_repeat. simpl. lia. }
  pose proof (exec_workers_length env s true sched (start files parallel)) as Hlen.
  set (p := exec env s true sched (start files parallel)) in *.
  unfold verdict in Hend. rewrite Hnp in Hend. unfold all_done in Hend.
  destruct (forallb is_done (workers p)) eqn:Hall; [| congruence].
  unfold tallied, pending in Htally.
  rewrite (in_hand_idle f _ Hall) in Htally.
  rewrite (drained_at_end p Hdrained) in Htally;
    [simpl in Htally; lia | | exact Hcalm | exact Hall].
  intros Hnil. rewrite Hnil in Hlen. unfold start in Hlen. simpl in Hlen.
  rewrite repeat_length in Hlen. lia.
Qed.

End Rehearsal.

(** A dry run rehearses every task once.  When every file opens and the
    run has ended, the history holds one open for each task and, for every
    key, the line that announces the upload to that key as often as the
    list has tasks with that key: the dry run names the keys that a live
    run of the same list would write, each once, and skips no file. *)
Theorem Upload_dry_run_announces_each (env : Env) (s : S3Upload) (parallel : Z)
  (files : list string) (sched : list nat) :
  sourceFiles env s = (files, None) ->
  (1 <= parallel)%Z ->
  (forall name k, os_Open env name k = None) ->
  fst (Upload env s parallel true sched) <> Running ->
  let w := snd (Upload env s parallel true sched) in
  open_calls w = List.length files
  /\ (forall name, opens_of name w = sum_tasks (named s name) files)
  /\ (forall key,
        prints_of (uploading true key) w = sum_tasks (keyed s key) files).
Proof.
  intros Hfiles Hpar Hopens. unfold Upload. rewrite Hfiles. simpl.
  intros Hend.
  pose proof (fun c f Hc H0 =>
                rehearsed_at_end env s files c f Hopens Hc H0 parallel sched
                  Hpar Hend) as Htally.
  split; [| split].
  - rewrite (Htally open_calls (fun _ => 1)); [| | reflexivity].
    + rewrite sum_tasks_const. lia.
    + intros w path. rewrite open_calls_app. reflexivity.
  - intros name. apply (Htally (opens_of name) (named s name)); [| reflexivity].
    intros w path. rewrite opens_of_app. unfold named. simpl.
    destruct (String.eqb _ _); reflexivity.
  - intros key.
    apply (Htally (prints_of (uploading true key)) (keyed s key)); [| reflexivity].
    intros w path. rewrite prints_of_app. unfold keyed, rehearsal.
    cbn [prints_of]. rewrite uploading_eqb.
    destruct (String.eqb _ _); reflexivity.
Qed.

Lemma Upload_dry_run_announces_each_witness :
  let env := Demo.env_with Demo.scenario_fs in
  let s := Demo.uploader "/srv/www" "site" ["sub/*"] in
  let w := snd (Upload env s 2 true [0; 1; 0; 1; 0; 1; 0; 1]) in
  prints_of (uploading true "/site/a.txt") w = 1
  /\ prints_of (uploading true "/site/b.png") w = 1
  /\ prints_of (uploading true "/site/sub/c.txt") w = 0.
Proof.
  intros env s w.
  destruct (Upload_dry_run_announces_each env s 2 ["a.txt"; "b.png"]
              [0; 1; 0; 1; 0; 1; 0; 1] eq_refl)
    as (_ & _ & Hkeys).
  - lia.
  - intros name k. reflexivity.
  - vm_compute. discriminate.
  - split; [exact (Hkeys "/site/a.txt") |].
    split; [exact (Hkeys "/site/b.png") | exact (Hkeys "/site/sub/c.txt")].
Defined.
